(** * Command Orchestration Core: session memory, reference resolution,
      parameter inference, workflow engine and safety/undo policy.

    A shallow embedding of the Python sources

      - [src/utils/safety.py]             (module [Safety])
      - [src/utils/session.py]            (module [Session])
      - [src/orchestrator/workflow_engine.py], [src/llm/client.py]
                                          (module [Workflow])
      - [src/orchestrator/intent_parser.py]
                                          (module [Router])
      - [src/main.py], the workflow loop  (module [Main])
      - [src/utils/context_inference.py]  (module [Inference])

    over a small model of the Python values these functions inspect
    (module [Py]).  Python dictionaries are finite maps with string keys,
    Python lists are lists, exceptions are a sum type, and the mutable
    objects the code shares (the session's [references], a step's
    [parameters]) are threaded as explicit state.  The wall clock
    ([datetime.now()]), the language model and the mail and calendar
    back ends are inputs of the model. *)

From Stdlib Require Import ZArith QArith Ascii String DecimalString Sorted.
From stdpp Require Import base option list strings gmap fin_maps.

Set Warnings "-register-all".
#[local] Open Scope string_scope.
#[local] Open Scope Z_scope.

(** ** Python values, exceptions and strings *)

Module Py.

(** The exceptions the modelled code can raise; [ServiceError] stands
    for whatever a back end raises. *)
Inductive exn :=
| TypeError | AttributeError | KeyError | IndexError | ValueError
| ServiceError.

Inductive result (A : Type) :=
| Ok (a : A)
| Raise (e : exn).
Arguments Ok {A} a.
Arguments Raise {A} e.

#[global] Instance result_ret : MRet result := fun A a => Ok a.
#[global] Instance result_bind : MBind result := fun A B f m =>
  match m with
  | Ok a => f a
  | Raise e => Raise e
  end.

(** [session.CommandResult], over the type [V] of Python values.  It is
    declared here because the session's [references] hold such records
    next to plain data, so they are Python values too.  [timestamp] is
    the reading of the clock when the record was made. *)
Record CommandResult_ (V : Type) := mkCommandResult {
  command : string;
  timestamp : Z;
  service : string;
  intent : string;
  parameters : gmap string V;
  result_ : V;
  success : bool;
  error : option string
}.
Arguments mkCommandResult {V}.
Arguments command {V}.
Arguments timestamp {V}.
Arguments service {V}.
Arguments intent {V}.
Arguments parameters {V}.
Arguments result_ {V}.
Arguments success {V}.
Arguments error {V}.

(** The values of type [Any] that flow through the core: JSON-like data
    (dictionaries are keyed by strings) and command records. *)
Inductive value :=
| VNone
| VBool (b : bool)
| VInt (n : Z)
| VStr (s : string)
| VList (l : list value)
| VDict (d : gmap string value)
| VCmd (c : CommandResult_ value).

Abbreviation dict := (gmap string value).

(** Truth value of an object in a condition ([if v:], [not v], [a or b]). *)
Definition truthy (v : value) : bool :=
  match v with
  | VNone => false
  | VBool b => b
  | VInt n => negb (n =? 0)
  | VStr s => negb (String.eqb s "")
  | VList l => match l with [] => false | _ :: _ => true end
  | VDict d => negb (bool_decide (d = ∅))
  | VCmd _ => true
  end.

(** [a or b] *)
Definition py_or (a b : value) : value := if truthy a then a else b.

(** [d.get(k)] and [d.get(k, dflt)] on a real dictionary. *)
Definition dict_get (d : dict) (k : string) (dflt : value) : value :=
  default dflt (d !! k).

(** [k in d] on a real dictionary. *)
Definition dict_has (d : dict) (k : string) : bool :=
  bool_decide (is_Some (d !! k)).

(** [v.get(k)] on an arbitrary object: only dictionaries have the method. *)
Definition py_get (v : value) (k : string) : result value :=
  match v with
  | VDict d => Ok (dict_get d k VNone)
  | _ => Raise AttributeError
  end.

(** *** Strings

    A text is the string of its characters, one [ascii] each.  The
    functions below are Python's on ASCII text, i.e. when
    [s.isascii()]; Python's case mapping, white space and digit classes
    go beyond ASCII and are not modelled there, so what is stated about
    the text functions that read a whole command is stated for ASCII
    commands. *)

(** [s.isascii()] *)
Definition is_ascii (s : string) : bool :=
  forallb (fun c => (nat_of_ascii c <? 128)%nat) (list_ascii_of_string s).

Definition is_upper (c : ascii) : bool :=
  let n := nat_of_ascii c in ((65 <=? n) && (n <=? 90))%nat.

Definition lower_char (c : ascii) : ascii :=
  if is_upper c then ascii_of_nat (nat_of_ascii c + 32) else c.

(** [s.lower()] on ASCII text *)
Fixpoint lower (s : string) : string :=
  match s with
  | EmptyString => EmptyString
  | String c s' => String (lower_char c) (lower s')
  end.

(** [s.startswith(p)] *)
Fixpoint startswith (p s : string) : bool :=
  match p, s with
  | EmptyString, _ => true
  | String _ _, EmptyString => false
  | String a p', String b s' => Ascii.eqb a b && startswith p' s'
  end.

(** [p in s] for two strings: [p] occurs in [s]. *)
Fixpoint str_in (p s : string) : bool :=
  startswith p s ||
  match s with
  | EmptyString => false
  | String _ s' => str_in p s'
  end.

(** [s.find(p)]: index of the first occurrence, [-1] when there is none. *)
Fixpoint find (p s : string) : Z :=
  if startswith p s then 0
  else match s with
       | EmptyString => -1
       | String _ s' => let i := find p s' in if i <? 0 then -1 else i + 1
       end.

(** [s[i:]] for [0 <= i] *)
Fixpoint drop_str (i : nat) (s : string) : string :=
  match i, s with
  | O, _ => s
  | S _, EmptyString => EmptyString
  | S i', String _ s' => drop_str i' s'
  end.

(** White space as [str.isspace], [str.strip], [str.split] and the [\s]
    of [re] see it among the ASCII characters. *)
Definition is_space (c : ascii) : bool :=
  let n := nat_of_ascii c in
  (((9 <=? n) && (n <=? 13)) || ((28 <=? n) && (n <=? 32)))%nat.

(** Decimal digits as the [\d] of [re] and [int] see them among the
    ASCII characters. *)
Definition is_digit (c : ascii) : bool :=
  let n := nat_of_ascii c in ((48 <=? n) && (n <=? 57))%nat.

(** Longest prefix of [s] whose characters satisfy [p], and the rest. *)
Fixpoint span (p : ascii -> bool) (s : string) : string * string :=
  match s with
  | EmptyString => (EmptyString, EmptyString)
  | String c s' =>
      if p c then let '(a, b) := span p s' in (String c a, b)
      else (EmptyString, s)
  end.

Definition lstrip (s : string) : string := snd (span is_space s).

Fixpoint rev_str (acc s : string) : string :=
  match s with
  | EmptyString => acc
  | String c s' => rev_str (String c acc) s'
  end.

Definition rstrip (s : string) : string :=
  rev_str EmptyString (lstrip (rev_str EmptyString s)).

(** [s.strip()] *)
Definition strip (s : string) : string := rstrip (lstrip s).

(** [s.split()[0]] for a string that starts with no white space. *)
Definition first_word (s : string) : string :=
  fst (span (fun c => negb (is_space c)) s).

(** The number a string of decimal digits stands for; integers are
    unbounded. *)
Fixpoint int_of_digits (acc : N) (s : string) : N :=
  match s with
  | EmptyString => acc
  | String c s' =>
      int_of_digits (10 * acc + N.of_nat (nat_of_ascii c - 48))%N s'
  end.

(** The decimal text of a natural number. *)
Definition str_of_int (n : N) : string :=
  NilEmpty.string_of_uint (N.to_uint n).

(** [sys.get_int_max_str_digits()], at its default: the interpreter
    refuses to convert between text and an integer of more decimal
    digits. *)
Definition int_max_str_digits : N := 4300.

(** [int(s)] for a non-empty string of decimal digits: [ValueError]
    when there are more than [int_max_str_digits] of them (leading
    zeros count). *)
Definition py_int (s : string) : result N :=
  if (int_max_str_digits <? N.of_nat (String.length s))%N
  then Raise ValueError
  else Ok (int_of_digits 0 s).

(** [str(n)], also as [f"{n}"], for a natural number: [ValueError] when
    the text would have more than [int_max_str_digits] digits. *)
Definition py_str_int (n : N) : result string :=
  let s := str_of_int n in
  if (int_max_str_digits <? N.of_nat (String.length s))%N
  then Raise ValueError
  else Ok s.

(** [re.search(r'last\s+(\d+)\s+UNITs?', s)] where [UNIT] is a literal
    word: the text of group 1 of the leftmost match.  The character
    classes [\s] and [\d] are disjoint and the literal begins with a
    letter, so each greedy run is the only way to match and the optional
    [s] decides neither the match nor the group. *)
Definition match_last_n (unit_ s : string) : option string :=
  if startswith "last" s then
    let '(ws1, r1) := span is_space (drop_str 4 s) in
    let '(ds, r2) := span is_digit r1 in
    let '(ws2, r3) := span is_space r2 in
    if negb (String.eqb ws1 "") && negb (String.eqb ds "")
       && negb (String.eqb ws2 "") && startswith unit_ r3
    then Some ds else None
  else None.

Fixpoint search_last_n (unit_ s : string) : option string :=
  match match_last_n unit_ s with
  | Some ds => Some ds
  | None =>
      match s with
      | EmptyString => None
      | String _ s' => search_last_n unit_ s'
      end
  end.

(** [s in l] for a list of strings, as in [intent in ["a", "b"]]. *)
Definition str_in_list (s : string) (l : list string) : bool :=
  existsb (String.eqb s) l.

(** *** Operators on arbitrary objects *)

(** [k in v] for a string [k]. *)
Definition py_contains (k : string) (v : value) : result bool :=
  match v with
  | VDict d => Ok (dict_has d k)
  | VList l =>
      Ok (existsb (fun x => match x with
                            | VStr s => String.eqb s k
                            | _ => false
                            end) l)
  | VStr s => Ok (str_in k s)
  | _ => Raise TypeError
  end.

(** [v[k]] for a string [k]. *)
Definition py_getitem (v : value) (k : string) : result value :=
  match v with
  | VDict d => match d !! k with Some x => Ok x | None => Raise KeyError end
  | _ => Raise TypeError
  end.

(** [v[i]] for a literal index [i >= 0]. *)
Definition py_index (v : value) (i : nat) : result value :=
  match v with
  | VList l => match l !! i with Some x => Ok x | None => Raise IndexError end
  | VStr s =>
      match String.get i s with
      | Some c => Ok (VStr (String c EmptyString))
      | None => Raise IndexError
      end
  | VDict _ => Raise KeyError
  | _ => Raise TypeError
  end.

Fixpoint chars (s : string) : list value :=
  match s with
  | EmptyString => []
  | String c s' => VStr (String c EmptyString) :: chars s'
  end.

(** The elements [for x in v] runs over. *)
Definition py_iter (v : value) : result (list value) :=
  match v with
  | VList l => Ok l
  | VStr s => Ok (chars s)
  | VDict d => Ok (VStr <$> (map_to_list d).*1)
  | _ => Raise TypeError
  end.

(** [[a.get('email') for a in l if 'email' in a]], the comprehension
    used by [inject_context], [_infer_attendees] and [_resolve_pronouns]. *)
Fixpoint attendee_emails (l : list value) : result (list value) :=
  match l with
  | [] => Ok []
  | a :: l' =>
      b ← py_contains "email" a;
      if b : bool then
        e ← py_get a "email";
        es ← attendee_emails l';
        Ok (e :: es)
      else attendee_emails l'
  end.

(** [v += s] for a string [s]: strings are concatenated, a list is
    extended by the characters of [s], nothing else supports it. *)
Definition py_iadd_str (v : value) (s : string) : result value :=
  match v with
  | VStr q => Ok (VStr (q +:+ s))
  | VList l => Ok (VList (l ++ chars s)%list)
  | _ => Raise TypeError
  end.

(** [l[start:]] for a list: a negative [start] counts from the end and
    is clipped at the beginning of the list. *)
Definition slice_from {A} (start : Z) (l : list A) : list A :=
  if start <? 0 then drop (Z.to_nat (Z.of_nat (length l) + start)) l
  else drop (Z.to_nat start) l.

End Py.

(** ** [src/utils/safety.py] *)

Module Safety.
Import Py.

Inductive ActionType :=
| SEND_EMAIL | DELETE_EMAIL | CREATE_EVENT | DELETE_EVENT
| SHARE_FILE | DELETE_FILE | MOVE_FILE.

Record UndoAction := mkUndoAction {
  action_type : ActionType;
  timestamp : Z;
  resource_id : string;
  details : dict;
  service : string;
  undo_data : option dict
}.

Record SafetyManager := mkSafetyManager {
  dry_run : bool;
  undo_stack : list UndoAction;
  max_undo_actions : nat
}.

(** [SafetyManager(dry_run)] *)
Definition init (dry_run : bool) : SafetyManager :=
  {| dry_run := dry_run; undo_stack := []; max_undo_actions := 10 |}.

Definition destructive_intents : list string :=
  [ "delete_email"; "delete_event"; "delete_file"; "move_file";
    "send_email"; "share_file"; "update_event"; "update_file" ].

Definition is_destructive (intent : string) : bool :=
  str_in_list intent destructive_intents.

Definition _is_internal_email (email : value) : result bool :=
  match email with
  | VStr s => Ok (str_in "@example.com" (lower s))
  | _ => Raise AttributeError
  end.

Definition requires_confirmation (intent : string) (parameters : dict)
  : result bool :=
  if is_destructive intent then Ok true
  else if String.eqb intent "send_email"
          && match dict_get parameters "to" (VList []) with
             | VList recipients => (3 <? length recipients)%nat
             | _ => false
             end
  then Ok true
  else if String.eqb intent "share_file" then
    let email := dict_get parameters "email" (VStr "") in
    if truthy email then
      internal ← _is_internal_email email;
      if negb internal then Ok true else Ok false
    else Ok false
  else Ok false.

(** [record_action]; [now] is what [datetime.now()] returns in the call. *)
Definition record_action (self : SafetyManager) (now : Z)
    (action_type : ActionType) (resource_id service : string)
    (details : dict) (undo_data : option dict) : SafetyManager :=
  let action := mkUndoAction action_type now resource_id details service
                             undo_data in
  let stack := (undo_stack self ++ [action])%list in
  let stack := if (max_undo_actions self <? length stack)%nat
               then drop 1 stack else stack in
  {| dry_run := dry_run self;
     undo_stack := stack;
     max_undo_actions := max_undo_actions self |}.

Definition get_last_action (self : SafetyManager) : option UndoAction :=
  last (undo_stack self).

Definition get_undo_stack (self : SafetyManager) : list UndoAction :=
  undo_stack self.

Definition pop_last_action (self : SafetyManager)
  : option UndoAction * SafetyManager :=
  match undo_stack self with
  | [] => (None, self)
  | _ :: _ =>
      (last (undo_stack self),
       {| dry_run := dry_run self;
          undo_stack := removelast (undo_stack self);
          max_undo_actions := max_undo_actions self |})
  end.

Definition clear_undo_stack (self : SafetyManager) : SafetyManager :=
  {| dry_run := dry_run self;
     undo_stack := [];
     max_undo_actions := max_undo_actions self |}.

(** One call of [record_action], with the clock reading it sees. *)
Record call := mkCall {
  c_now : Z;
  c_action_type : ActionType;
  c_resource_id : string;
  c_service : string;
  c_details : dict;
  c_undo_data : option dict
}.

(** The [UndoAction] a call builds. *)
Definition action_of (c : call) : UndoAction :=
  mkUndoAction (c_action_type c) (c_now c) (c_resource_id c) (c_details c)
               (c_service c) (c_undo_data c).

Definition record_call (self : SafetyManager) (c : call) : SafetyManager :=
  record_action self (c_now c) (c_action_type c) (c_resource_id c)
                (c_service c) (c_details c) (c_undo_data c).

(** The calls in [cs], one after the other. *)
Definition record_all (self : SafetyManager) (cs : list call)
  : SafetyManager :=
  foldl record_call self cs.

#[global] Instance ActionType_eq_dec : EqDecision ActionType.
Proof. solve_decision. Defined.

Definition set_dry_run (self : SafetyManager) (enabled : bool)
  : SafetyManager :=
  {| dry_run := enabled;
     undo_stack := undo_stack self;
     max_undo_actions := max_undo_actions self |}.

(** [can_undo]; a member of the enumeration is true in a condition, so
    [if action_type:] tests that a type was given. *)
Definition can_undo (self : SafetyManager) (action_type : option ActionType)
  : bool :=
  match undo_stack self with
  | [] => false
  | _ :: _ =>
      match action_type with
      | Some t =>
          existsb (fun a => bool_decide (Safety.action_type a = t))
                  (undo_stack self)
      | None => true
      end
  end.

Definition get_risk_level (intent : string) (parameters : dict) : string :=
  if str_in_list intent ["delete_email"; "delete_file"; "delete_event"]
  then "high"
  else if str_in_list intent ["send_email"; "share_file"] then "medium"
  else "low".

End Safety.

(** ** [src/utils/session.py] *)

Module Session.
Import Py.

Abbreviation CommandResult := (CommandResult_ value).

Record SessionContext := mkSessionContext {
  session_id : string;
  started_at : Z;
  history : list CommandResult;
  references : dict
}.

(** [SessionContext(session_id=...)], created when the clock reads [now]. *)
Definition init (session_id : string) (now : Z) : SessionContext :=
  {| session_id := session_id; started_at := now;
     history := []; references := ∅ |}.

Definition set_references (self : SessionContext) (refs : dict)
  : SessionContext :=
  {| session_id := session_id self; started_at := started_at self;
     history := history self; references := refs |}.

(** The first element of a non-empty list:
    [isinstance(r, list) and len(r) > 0], then [r[0]]. *)
Definition first_of_list (r : value) : option value :=
  match r with
  | VList (x :: _) => Some x
  | _ => None
  end.

Definition _update_references (self : SessionContext)
    (cmd_result : CommandResult) : SessionContext :=
  let refs := references self in
  let refs := <["last_" +:+ service cmd_result +:+ "_command"
                 := VCmd cmd_result]> refs in
  let refs := <["last_command" := VCmd cmd_result]> refs in
  let res := result_ cmd_result in
  let refs :=
    if success cmd_result && truthy res then
      if String.eqb (service cmd_result) "gmail" then
        if String.eqb (intent cmd_result) "search_email" then
          let refs := <["last_emails" := res]> refs in
          match first_of_list res with
          | Some x => <["last_email" := x]> refs
          | None => refs
          end
        else if String.eqb (intent cmd_result) "send_email" then
          <["last_sent_email" := res]> refs
        else refs
      else if String.eqb (service cmd_result) "calendar" then
        if String.eqb (intent cmd_result) "list_events"
           || String.eqb (intent cmd_result) "search_event" then
          let refs := <["last_events" := res]> refs in
          match first_of_list res with
          | Some x => <["next_meeting" := x]> (<["last_event" := x]> refs)
          | None => refs
          end
        else if String.eqb (intent cmd_result) "create_event" then
          <["last_created_event" := res]> refs
        else refs
      else if String.eqb (service cmd_result) "drive" then
        if String.eqb (intent cmd_result) "search_file" then
          let refs := <["last_files" := res]> refs in
          match first_of_list res with
          | Some x => <["last_file" := x]> refs
          | None => refs
          end
        else refs
      else refs
    else refs in
  set_references self refs.

(** [add_command]; [now] is what [datetime.now()] returns in the call. *)
Definition add_command (self : SessionContext) (now : Z)
    (command service intent : string) (parameters : dict) (result : value)
    (success : bool) (error : option string) : SessionContext :=
  let cmd_result := mkCommandResult command now service intent parameters
                                    result success error in
  let self := {| session_id := session_id self;
                 started_at := started_at self;
                 history := (history self ++ [cmd_result])%list;
                 references := references self |} in
  _update_references self cmd_result.

(** Reading the session.  [resolve_reference] touches [self] only
    through [self.references.get] and [self.get_last_command]; both are
    written as computations over the session so that what they do to it
    is part of the model. *)
Definition St (A : Type) : Type := SessionContext -> A * SessionContext.

#[global] Instance St_ret : MRet St := fun A a s => (a, s).
#[global] Instance St_bind : MBind St := fun A B f m s =>
  let '(a, s') := m s in f a s'.

(** [self.history[-1] if self.history else None] *)
Definition get_last_command : St (option CommandResult) :=
  fun self => (last (history self), self).

(** [self.references.get(key)] *)
Definition get_reference (key : string) : St value :=
  fun self => (dict_get (references self) key VNone, self).

(** [any(phrase in text for phrase in phrases)] *)
Definition any_in (phrases : list string) (text : string) : bool :=
  existsb (fun phrase => str_in phrase text) phrases.

(** The pair [resolve_reference] returns: the kind ([None] or a string)
    and the entity. *)
Definition resolved : Type := option string * value.

(** The bare-pronoun rule; [None] when control falls through. *)
Definition resolve_pronoun (text_lower : string) : St (option resolved) :=
  if str_in_list text_lower ["it"; "that"; "this"] then
    last_cmd ← get_last_command;
    match last_cmd with
    | Some last_cmd =>
        if String.eqb (service last_cmd) "gmail" then
          e ← get_reference "last_email"; mret (Some (Some "email", e))
        else if String.eqb (service last_cmd) "calendar" then
          e ← get_reference "last_event"; mret (Some (Some "event", e))
        else if String.eqb (service last_cmd) "drive" then
          e ← get_reference "last_file"; mret (Some (Some "file", e))
        else mret None
    | None => mret None
    end
  else mret None.

(** The positional rules ("first", "second"): element [i] of the last
    command's result; [None] when control falls through. *)
Definition resolve_position (triggered : bool) (i : nat)
  : St (option resolved) :=
  if triggered then
    last_cmd ← get_last_command;
    match last_cmd with
    | Some last_cmd =>
        if truthy (result_ last_cmd) then
          match result_ last_cmd with
          | VList l =>
              match l !! i with
              | Some x => mret (Some (Some (service last_cmd), x))
              | None => mret None
              end
          | _ => mret None
          end
        else mret None
    | None => mret None
    end
  else mret None.

Definition resolve_reference (text : string) : St resolved :=
  let text_lower := lower text in
  if any_in ["that email"; "the email"; "this email"] text_lower then
    e ← get_reference "last_email"; mret (Some "email", e)
  else if str_in "last email" text_lower then
    e ← get_reference "last_email"; mret (Some "email", e)
  else if any_in ["that meeting"; "the meeting"; "this meeting"] text_lower then
    e ← get_reference "last_event"; mret (Some "event", e)
  else if any_in ["next meeting"; "upcoming meeting"] text_lower then
    e ← get_reference "next_meeting"; mret (Some "event", e)
  else if any_in ["that file"; "the file"; "this file"] text_lower then
    e ← get_reference "last_file"; mret (Some "file", e)
  else
    r ← resolve_pronoun text_lower;
    match r with
    | Some a => mret a
    | None =>
        r ← resolve_position
              (str_in "first one" text_lower || str_in "first" text_lower) 0;
        match r with
        | Some a => mret a
        | None =>
            r ← resolve_position
                  (str_in "second one" text_lower
                   || str_in "second" text_lower) 1;
            match r with
            | Some a => mret a
            | None => mret (None, VNone)
            end
        end
    end.

(** One call of [add_command], with the clock reading it sees. *)
Record call := mkCall {
  c_now : Z;
  c_command : string;
  c_service : string;
  c_intent : string;
  c_parameters : dict;
  c_result : value;
  c_success : bool;
  c_error : option string
}.

(** The [CommandResult] a call builds. *)
Definition record_of (c : call) : CommandResult :=
  mkCommandResult (c_command c) (c_now c) (c_service c) (c_intent c)
                  (c_parameters c) (c_result c) (c_success c) (c_error c).

Definition add_call (self : SessionContext) (c : call) : SessionContext :=
  add_command self (c_now c) (c_command c) (c_service c) (c_intent c)
              (c_parameters c) (c_result c) (c_success c) (c_error c).

(** The calls in [cs], one after the other. *)
Definition add_all (self : SessionContext) (cs : list call)
  : SessionContext :=
  foldl add_call self cs.

(** [self.history[-n:] if self.history else []] *)
Definition get_last_n_commands (self : SessionContext) (n : Z)
  : list CommandResult :=
  match history self with
  | [] => []
  | _ :: _ => slice_from (- n) (history self)
  end.

Definition clear_history (self : SessionContext) : SessionContext :=
  {| session_id := session_id self; started_at := started_at self;
     history := []; references := ∅ |}.

End Session.

(** ** [src/llm/client.py] and [src/orchestrator/workflow_engine.py] *)

Module Workflow.
Import Py.

Record WorkflowStep := mkWorkflowStep {
  service : string;
  intent : string;
  parameters : dict;
  depends_on : option Z;
  result : option value;
  status : string
}.

(** [confidence] is a float in the source; no function below reads it. *)
Record MultiServiceIntent := mkMultiServiceIntent {
  multi_service : bool;
  services : list string;
  operations : list dict;
  reasoning : string;
  confidence : Q
}.

(** What one pass through the body of the retry loop of
    [LLMClient.parse_intent] ends in: the request to the language model,
    [json.loads] and [model_validate] are outside the core, so their
    outcome is an input. *)
Inductive attempt_outcome (A : Type) :=
| EmptyContent                (* [not content]: log, [continue] *)
| JSONDecodeError             (* caught, next attempt *)
| ValidationError             (* caught, next attempt *)
| OtherError                  (* caught, [break] *)
| Validated (r : A).          (* [return result] *)
Arguments EmptyContent {A}.
Arguments JSONDecodeError {A}.
Arguments ValidationError {A}.
Arguments OtherError {A}.
Arguments Validated {A} r.

(** The language model seen from [parse_intent]: the outcome of attempt
    number [attempt] for a system prompt and a user message. *)
Definition LLMClient (A : Type) : Type :=
  string -> string -> nat -> attempt_outcome A.

(** [for attempt in range(...)]: [n] attempts are left, the next one has
    number [attempt]. *)
Fixpoint attempts {A} (f : nat -> attempt_outcome A) (attempt n : nat)
  : option A :=
  match n with
  | O => None
  | S n' =>
      match f attempt with
      | Validated r => Some r
      | OtherError => None
      | EmptyContent | JSONDecodeError | ValidationError =>
          attempts f (S attempt) n'
      end
  end.

Definition parse_intent {A} (self : LLMClient A)
    (user_message system_prompt : string) (max_retries : nat) : option A :=
  attempts (self system_prompt user_message) 0 (max_retries + 1).

Section Engine.

(** [prompts.MULTI_SERVICE_PROMPT], a constant text. *)
Variable MULTI_SERVICE_PROMPT : string.

(** [WorkflowEngine.llm] *)
Variable llm : LLMClient MultiServiceIntent.

(** A pydantic model is always true in a condition, so [intent and
    intent.multi_service] tests that there is a result and its flag. *)
Definition detect_multi_service (user_message : string)
  : option MultiServiceIntent :=
  match parse_intent llm user_message MULTI_SERVICE_PROMPT 2 with
  | Some intent => if multi_service intent then Some intent else None
  | None => None
  end.

End Engine.

Definition can_execute_step (step : WorkflowStep)
    (completed_steps : list Z) : bool :=
  match depends_on step with
  | None => true
  | Some k => bool_decide (k ∈ completed_steps)
  end.

Definition set_parameters (step : WorkflowStep) (p : dict) : WorkflowStep :=
  {| service := service step; intent := intent step; parameters := p;
     depends_on := depends_on step; result := result step;
     status := status step |}.

(** [inject_context] assigns into [step.parameters]: the first component
    is the step object when the call ends, the second says whether the
    call returned (the step) or raised. *)
Definition inject_context (step : WorkflowStep)
    (previous_results : gmap Z value) : WorkflowStep * Py.result unit :=
  match depends_on step with
  | Some k =>
      match previous_results !! k with
      | Some dependency_result =>
          match dependency_result with
          | VDict dep =>
              let step :=
                match dep !! "id" with
                | Some i =>
                    if negb (dict_has (parameters step) "id")
                    then set_parameters step (<["id" := i]> (parameters step))
                    else step
                | None => step
                end in
              match dep !! "attendees" with
              | Some att =>
                  if negb (dict_has (parameters step) "emails") then
                    match att with
                    | VList l =>
                        match attendee_emails l with
                        | Ok emails =>
                            (set_parameters step
                               (<["emails" := VList emails]> (parameters step)),
                             Ok tt)
                        | Raise e => (step, Raise e)
                        end
                    | _ => (step, Ok tt)
                    end
                  else (step, Ok tt)
              | None => (step, Ok tt)
              end
          | VList _ =>
              if negb (dict_has (parameters step) "ids")
              then (set_parameters step
                      (<["items" := dependency_result]> (parameters step)),
                    Ok tt)
              else (step, Ok tt)
          | _ => (step, Ok tt)
          end
      | None => (step, Ok tt)
      end
  | None => (step, Ok tt)
  end.

(** [WorkflowContext] *)
Record WorkflowContext := mkWorkflowContext {
  results : gmap Z value;
  completed_steps : list Z;
  failed_steps : list Z
}.

(** [WorkflowContext()] *)
Definition new_context : WorkflowContext :=
  {| results := ∅; completed_steps := []; failed_steps := [] |}.

Definition add_result (self : WorkflowContext) (step_index : Z)
    (result : value) : WorkflowContext :=
  {| results := <[step_index := result]> (results self);
     completed_steps := (completed_steps self ++ [step_index])%list;
     failed_steps := failed_steps self |}.

Definition mark_failed (self : WorkflowContext) (step_index : Z)
  : WorkflowContext :=
  {| results := results self;
     completed_steps := completed_steps self;
     failed_steps := (failed_steps self ++ [step_index])%list |}.

End Workflow.

(** ** [src/orchestrator/intent_parser.py] *)

Module Router.
Import Py Workflow.

(** [confidence] is a float in the source; [parse_command] does not
    read it. *)
Record Intent := mkIntent {
  intent : string;
  parameters : dict;
  confidence : Q;
  reasoning : option string
}.

Definition calendar_keywords : list string :=
  ["meeting"; "event"; "schedule"; "calendar"; "appointment";
   "remind"; "tomorrow"; "next week"; "today at"].

Definition drive_keywords : list string :=
  ["file"; "folder"; "document"; "drive"; "upload"; "download";
   "share"; "pdf"; "doc"; "spreadsheet"].

Section Parser.

(** The three system prompts of [prompts.py], constant texts. *)
Variable GMAIL_SYSTEM_PROMPT : string.
Variable CALENDAR_SYSTEM_PROMPT : string.
Variable DRIVE_SYSTEM_PROMPT : string.

(** [IntentParser.llm] *)
Variable llm : LLMClient Intent.

Definition parse_gmail_command (user_message : string) : option Intent :=
  parse_intent llm user_message GMAIL_SYSTEM_PROMPT 2.

Definition parse_calendar_command (user_message : string) : option Intent :=
  parse_intent llm user_message CALENDAR_SYSTEM_PROMPT 2.

Definition parse_drive_command (user_message : string) : option Intent :=
  parse_intent llm user_message DRIVE_SYSTEM_PROMPT 2.

Definition parse_command (user_message : string) : option Intent * string :=
  let message_lower := lower user_message in
  if Session.any_in calendar_keywords message_lower then
    (parse_calendar_command user_message, "calendar")
  else if Session.any_in drive_keywords message_lower then
    (parse_drive_command user_message, "drive")
  else (parse_gmail_command user_message, "gmail").

End Parser.

End Router.

(** ** [src/main.py]: the loop that runs a workflow *)

Module Main.
Import Py Workflow.

Section Workflow.

(** What [self._execute_step(step)] gives when it is called for the
    step at position [i]: the value a back end returns, or an exception.
    The back ends are outside the core, so this is an input. *)
Variable _execute_step : Z -> WorkflowStep -> Py.result value.

(** [Orchestrator.auto_confirm] *)
Variable auto_confirm : bool.

(** The answer to "Continue with remaining steps?" after the step at
    position [i] failed. *)
Variable confirm : Z -> bool.

(** The [for i, step in enumerate(steps)] loop of [_execute_workflow],
    from position [i] on: the context when the loop ends, and whether
    the call went on normally or an exception of [inject_context]
    escaped. *)
Fixpoint run_steps (i : Z) (steps : list WorkflowStep)
    (context : WorkflowContext) : WorkflowContext * Py.result unit :=
  match steps with
  | [] => (context, Ok tt)
  | step :: rest =>
      if negb (can_execute_step step (completed_steps context))
      then run_steps (i + 1) rest context
      else
        match inject_context step (results context) with
        | (_, Raise e) => (context, Raise e)
        | (step, Ok _) =>
            match _execute_step i step with
            | Ok result => run_steps (i + 1) rest (add_result context i result)
            | Raise _ =>
                let context := mark_failed context i in
                if negb auto_confirm && negb (confirm i)
                then (context, Ok tt)
                else run_steps (i + 1) rest context
            end
        end
  end.

(** [_execute_workflow] on the steps [create_workflow] has made. *)
Definition _execute_workflow (steps : list WorkflowStep)
  : WorkflowContext * Py.result unit :=
  run_steps 0 steps new_context.

End Workflow.

End Main.

(** ** [src/utils/context_inference.py] *)

Module Inference.
Import Py.
Import Session.

(** The read-only lookups the engine sends to the back ends. *)
Inductive service_call :=
| list_events (days_ahead max_results : Z)
| search_emails (query : string) (max_results : Z).

(** The collaborators of the engine other than the session: a back end
    is absent ([None]) or answers a lookup with a value or an exception.
    The session is a shared mutable object and lives in the state below;
    [drive_service] is stored by the constructor and never used. *)
Record ContextInferenceEngine := mkEngine {
  gmail_service : option (string -> Z -> result value);
  calendar_service : option (Z -> Z -> result value)
}.

(** What a call of [infer_parameters] can change or emit: the session
    object the engine points to (if any), the dictionary [enhanced_params]
    that every rule updates in place, and the lookups sent so far. *)
Record state := mkState {
  session : option SessionContext;
  params : dict;
  calls : list service_call
}.

Definition M (A : Type) : Type := state -> result A * state.

#[global] Instance M_ret : MRet M := fun A a s => (Ok a, s).
#[global] Instance M_bind : MBind M := fun A B f m s =>
  match m s with
  | (Ok a, s') => f a s'
  | (Raise e, s') => (Raise e, s')
  end.

Definition lift {A} (r : result A) : M A := fun s => (r, s).

Definition get_params : M dict := fun s => (Ok (params s), s).

Definition get_session : M (option SessionContext) :=
  fun s => (Ok (session s), s).

(** [params[k] = v] *)
Definition set_param (k : string) (v : value) : M unit := fun s =>
  (Ok tt, {| session := session s; params := <[k := v]> (params s);
             calls := calls s |}).

(** [self.session.references[k] = v] *)
Definition set_session_reference (k : string) (v : value) : M unit := fun s =>
  (Ok tt,
   {| session := (fun ctx => set_references ctx (<[k := v]> (references ctx)))
                   <$> session s;
      params := params s; calls := calls s |}).

(** Send lookup [c], whose answer is [r]. *)
Definition lookup (c : service_call) (r : result value) : M value := fun s =>
  (r, {| session := session s; params := params s;
         calls := (calls s ++ [c])%list |}).

(** [try: body  except Exception: log]: what [body] did before it raised
    stays done. *)
Definition try_except (body : M unit) : M unit := fun s =>
  match body s with
  | (Ok _, s') => (Ok tt, s')
  | (Raise _, s') => (Ok tt, s')
  end.

(** [self.session.references.get(k)] for an engine with session [ctx]. *)
Definition ref_get (ctx : SessionContext) (k : string) : value :=
  dict_get (references ctx) k VNone.

Section Engine.

Variable self : ContextInferenceEngine.

(** First block of [_infer_meeting_params]: the lookup of the next
    meeting. *)
Definition lookup_next_meeting (command : string) : M unit :=
  if str_in "next meeting" command || str_in "upcoming meeting" command then
    match calendar_service self with
    | Some calendar =>
        try_except (
          events ← lookup (list_events 7 1) (calendar 7 1);
          if truthy events then
            next_event ← lift (py_index events 0);
            _ ← lift (py_get next_event "summary");
            ctx ← get_session;
            (if ctx is Some _
             then set_session_reference "next_meeting" next_event
             else mret tt);;
            set_param "inferred_event" next_event;;
            event_id ← lift (py_get next_event "id");
            set_param "event_id" event_id;;
            summary ← lift (py_get next_event "summary");
            set_param "summary" summary
          else mret tt)
    | None => mret tt
    end
  else mret tt.

(** Second block: the coarse date windows. *)
Definition infer_days (command : string) : M unit :=
  if str_in "today" command && str_in "meeting" command then
    set_param "days" (VInt 1)
  else if str_in "this week" command then
    set_param "days" (VInt 7)
  else if str_in "next week" command then
    set_param "days" (VInt 14)
  else mret tt.

Definition _infer_meeting_params (command : string) : M unit :=
  lookup_next_meeting command;;
  infer_days command.

(** The four lines the source repeats for every filter token:
    [if 'query' in params and params['query']: params['query'] += " " + tok
     else: params['query'] = tok]. *)
Definition add_filter (tok : string) : M unit :=
  p ← get_params;
  match p !! "query" with
  | Some q =>
      if truthy q then
        q' ← lift (py_iadd_str q (" " +:+ tok));
        set_param "query" q'
      else set_param "query" (VStr tok)
  | None => set_param "query" (VStr tok)
  end.

(** First block of [_infer_email_params]: the lookup of the last mail of
    a sender. *)
Definition lookup_last_email (command : string) : M unit :=
  if str_in "last email" command && str_in "from" command then
    let from_idx := find "from" command in
    if negb (from_idx =? -1) then
      let sender_part := strip (drop_str (Z.to_nat (from_idx + 5)) command) in
      let sender := if negb (String.eqb sender_part "")
                    then Some (first_word sender_part) else None in
      match sender, gmail_service self with
      | Some sender, Some gmail =>
          if negb (String.eqb sender "") then
            try_except (
              emails ← lookup (search_emails ("from:" +:+ sender) 1)
                              (gmail ("from:" +:+ sender) 1);
              if truthy emails then
                last_email ← lift (py_index emails 0);
                set_param "inferred_email" last_email;;
                email_id ← lift (py_get last_email "id");
                set_param "email_id" email_id
              else mret tt)
          else mret tt
      | _, _ => mret tt
      end
    else mret tt
  else mret tt.

(** The lines the source repeats for weeks (7 days each) and months
    (30 days each): [count = int(match.group(1))], [days = count * k],
    [date_filter = f"newer_than:{days}d"], and the filter is added.
    Both conversions are outside any [try], so their [ValueError]
    escapes. *)
Definition add_count_filter (count : string) (k : N) : M unit :=
  count ← lift (py_int count);
  let days := (count * k)%N in
  days ← lift (py_str_int days);
  add_filter ("newer_than:" +:+ days +:+ "d").

(** The remaining blocks: one filter token per recognised phrase. *)
Definition infer_filters (command : string) : M unit :=
  (if str_in "unread" command then add_filter "is:unread" else mret tt);;
  (if str_in "important" command || str_in "priority" command
   then add_filter "is:important" else mret tt);;
  let days_match := search_last_n "day" command in
  (match days_match with
   | Some days => add_filter ("newer_than:" +:+ days +:+ "d")
   | None => mret tt
   end);;
  let weeks_match := search_last_n "week" command in
  (match weeks_match with
   | Some weeks => add_count_filter weeks 7
   | None => mret tt
   end);;
  let months_match := search_last_n "month" command in
  (match months_match with
   | Some months => add_count_filter months 30
   | None => mret tt
   end);;
  (if str_in "last week" command && negb (bool_decide (is_Some weeks_match))
   then add_filter "newer_than:7d" else mret tt);;
  (if str_in "last month" command && negb (bool_decide (is_Some months_match))
   then add_filter "newer_than:30d" else mret tt).

Definition _infer_email_params (command : string) : M unit :=
  lookup_last_email command;;
  infer_filters command.

(** [[a.get('email') for a in event['attendees'] if 'email' in a]] *)
Definition emails_of (event : value) : result (list value) :=
  att ← py_getitem event "attendees";
  l ← py_iter att;
  attendee_emails l.

(** [self.session.references.get('next_meeting') or
     self.session.references.get('last_event')] *)
Definition meeting_or_last_event (ctx : SessionContext) : value :=
  py_or (ref_get ctx "next_meeting") (ref_get ctx "last_event").

(** The loop over the events of the last calendar command. *)
Fixpoint all_attendees (events : list value) : result (list value) :=
  match events with
  | [] => Ok []
  | event :: events' =>
      b ← py_contains "attendees" event;
      here ← (if b : bool then emails_of event else Ok []);
      rest ← all_attendees events';
      Ok (here ++ rest)%list
  end.

(** First block of [_infer_attendees]: the list [attendees]. *)
Definition gather_attendees (command : string) : M (list value) :=
  if str_in "meeting attendees" command
     || str_in "event attendees" command then
    ctx ← get_session;
    match ctx with
    | Some ctx =>
        let last_event := meeting_or_last_event ctx in
        if truthy last_event then
          b ← lift (py_contains "attendees" last_event);
          if b : bool then lift (emails_of last_event) else mret []
        else mret []
    | None => mret []
    end
  else if str_in "the attendees" command
          || str_in "all attendees" command then
    ctx ← get_session;
    match ctx with
    | Some ctx =>
        match last (history ctx) with
        | Some last_cmd =>
            if String.eqb (Py.service last_cmd) "calendar" then
              match result_ last_cmd with
              | VList (e :: l) => lift (all_attendees (e :: l))
              | _ => mret []
              end
            else mret []
        | None => mret []
        end
    | None => mret []
    end
  else mret [].

(** Second block: [attendees] goes into ['to'].  The model follows the
    value of ['to'] in the dictionary returned.  When ['to'] holds a
    non-empty list the source extends that list object in place
    ([params['to'].extend]), and [params] is a shallow copy, so the
    caller's dictionary and whatever else shares the list see the
    longer list too; the same holds for a ['query'] that is a list
    ([+=]).  What is stated about anything but the dictionary returned
    is stated for parameters without such a list. *)
Definition add_recipients (attendees : list value) : M unit :=
  match attendees with
  | [] => mret tt
  | _ :: _ =>
      p ← get_params;
      (match p !! "to" with
       | Some to =>
           if negb (truthy to) then set_param "to" (VList attendees)
           else match to with
                | VList l => set_param "to" (VList (l ++ attendees)%list)
                | _ => set_param "to" (VList (to :: attendees))
                end
       | None => set_param "to" (VList attendees)
       end);;
      set_param "inferred_attendees" (VBool true)
  end.

Definition _infer_attendees (command : string) : M unit :=
  attendees ← gather_attendees command;
  add_recipients attendees.

(** [k in f" {command} "] *)
Definition word_in (k command : string) : bool :=
  str_in k (" " +:+ command +:+ " ").

(** One branch of the pronoun rule: reference [ref] fills [id_key] and
    [inferred_key]. *)
Definition resolve_it (ctx : SessionContext) (ref id_key inferred_key : string)
  : M unit :=
  let entity := ref_get ctx ref in
  if truthy entity then
    id ← lift (py_get entity "id");
    set_param id_key id;;
    set_param inferred_key entity
  else mret tt.

(** [command in ["it", "that", "this"] or " it " in f" {command} " or ...] *)
Definition bare_pronoun (command : string) : bool :=
  str_in_list command ["it"; "that"; "this"]
  || word_in " it " command || word_in " that " command
  || word_in " this " command.

(** First block of [_resolve_pronouns], for a session [ctx]. *)
Definition resolve_it_that_this (ctx : SessionContext)
    (command intent : string) : M unit :=
  if bare_pronoun command then
    if str_in_list intent ["share_file"; "download_file"; "delete_file"]
    then resolve_it ctx "last_file" "file_id" "inferred_file"
    else if str_in_list intent ["read_email"; "delete_email"]
    then resolve_it ctx "last_email" "email_id" "inferred_email"
    else if str_in_list intent ["update_event"; "delete_event"]
    then resolve_it ctx "last_event" "event_id" "inferred_event"
    else mret tt
  else mret tt.

(** Second block, for a session [ctx]. *)
Definition resolve_them (ctx : SessionContext) (command intent : string)
  : M unit :=
  if word_in " them " command || startswith "them" command then
    let last_event := meeting_or_last_event ctx in
    if truthy last_event then
      b ← lift (py_contains "attendees" last_event);
      if b : bool then
        attendees ← lift (emails_of last_event);
        match attendees with
        | [] => mret tt
        | a :: rest =>
            if String.eqb intent "send_email" then
              set_param "to" (VList attendees)
            else if String.eqb intent "share_file" then
              set_param "emails" (VList attendees);;
              set_param "email"
                (match rest with [] => a | _ :: _ => VList attendees end)
            else mret tt
        end
      else mret tt
    else mret tt
  else mret tt.

Definition _resolve_pronouns (command intent : string) : M unit :=
  ctx ← get_session;
  match ctx with
  | None => mret tt
  | Some ctx =>
      resolve_it_that_this ctx command intent;;
      resolve_them ctx command intent
  end.

Definition event_intents : list string :=
  ["search_event"; "update_event"; "delete_event"; "list_events"].

Definition email_intents : list string :=
  ["send_email"; "read_email"; "delete_email"; "search_email"].

(** The body of [infer_parameters], on the copy [enhanced_params]. *)
Definition infer_body (command intent : string) : M dict :=
  let command_lower := lower command in
  (if str_in_list intent event_intents
   then _infer_meeting_params command_lower else mret tt);;
  (if str_in_list intent email_intents
   then _infer_email_params command_lower else mret tt);;
  (if String.eqb intent "send_email" && str_in "attendees" command_lower
   then _infer_attendees command_lower else mret tt);;
  _resolve_pronouns command_lower intent;;
  get_params.

(** [infer_parameters] for an engine whose session is [ctx]: the
    dictionary returned (or the exception that escapes) and the state
    the call leaves. *)
Definition infer_parameters (ctx : option SessionContext)
    (command intent : string) (parameters : dict) : result dict * state :=
  infer_body command intent
    {| session := ctx; params := parameters; calls := [] |}.

End Engine.

End Inference.

(** * Vocabulary of the properties

    The predicates and the sample inputs the statements below are
    written with. *)

Section SafetyVocabulary.
Import Py Safety.

(** What the specification lists as the triggers of a confirmation:
    a destructive intent, a mail to more than three recipients, a file
    shared with an address that does not end in the internal domain. *)
Definition confirmation_trigger (intent : string) (parameters : dict) : Prop :=
  is_destructive intent = true
  \/ (intent = "send_email"
      /\ exists l, parameters !! "to" = Some (VList l) /\ (3 < length l)%nat)
  \/ (intent = "share_file"
      /\ exists e, parameters !! "email" = Some (VStr e) /\ e <> ""
                   /\ forall pre, e <> pre +:+ "@example.com").

(** The [n] most recent elements of [l], oldest first. *)
Definition most_recent {A} (n : nat) (l : list A) : list A :=
  drop (length l - n) l.

End SafetyVocabulary.

Section SessionVocabulary.
Import Py Session.

(** The phrases of the rules of [resolve_reference], in their order. *)
Definition email_phrase (t : string) : bool :=
  any_in ["that email"; "the email"; "this email"] t || str_in "last email" t.

Definition meeting_phrase (t : string) : bool :=
  any_in ["that meeting"; "the meeting"; "this meeting"] t.

Definition next_meeting_phrase (t : string) : bool :=
  any_in ["next meeting"; "upcoming meeting"] t.

Definition file_phrase (t : string) : bool :=
  any_in ["that file"; "the file"; "this file"] t.

End SessionVocabulary.

Section WorkflowVocabulary.
Import Py Workflow.

(** The outcomes after which [parse_intent] tries again. *)
Definition retryable {A} (o : attempt_outcome A) : bool :=
  match o with
  | EmptyContent | JSONDecodeError | ValidationError => true
  | OtherError | Validated _ => false
  end.

(** A workflow the language model may answer with: the flag is set and
    the list of operations is empty. *)
Definition flagged_without_operations : MultiServiceIntent :=
  {| multi_service := true; services := []; operations := [];
     reasoning := "nothing to do"; confidence := 1%Q |}.

(** A step that already names its items by ['ids'], and depends on a
    step whose result is a list. *)
Definition step_with_ids : WorkflowStep :=
  {| service := "gmail"; intent := "delete_email";
     parameters := {[ "ids" := VList [VStr "m1"] ]};
     depends_on := Some 0; result := None; status := "pending" |}.

End WorkflowVocabulary.

Section InferenceVocabulary.
Import Py Session Inference.

(** [keeps R m]: every run of [m], whether it returns or raises, ends
    in a state related by [R] to the one it started in. *)
Definition keeps {A} (R : state -> state -> Prop) (m : M A) : Prop :=
  forall s, R s (m s).2.

(** The session and the lookups sent are the same, and so is every
    parameter whose key is not in [K]. *)
Definition same_but (K : list string) (s s' : state) : Prop :=
  session s' = session s /\ calls s' = calls s
  /\ forall k, k ∉ K -> params s' !! k = params s !! k.

(** [m] assigns no parameter outside [K], reaches no back end and
    leaves the session alone. *)
Definition touches_only {A} (K : list string) (m : M A) : Prop :=
  keeps (same_but K) m.

(** The keys rule 3 may assign. *)
Definition attendee_keys : list string := ["to"; "inferred_attendees"].

(** The keys rule 4 may assign. *)
Definition pronoun_keys : list string :=
  ["file_id"; "inferred_file"; "email_id"; "inferred_email";
   "event_id"; "inferred_event"; "to"; "emails"; "email"].

(** [isinstance(v, dict)] *)
Definition is_dict (v : value) : bool :=
  match v with VDict _ => true | _ => false end.

(** An event: a mapping whose ['attendees'], if any, is a list of
    mappings. *)
Definition event_ok (v : value) : bool :=
  match v with
  | VDict d =>
      match d !! "attendees" with
      | None => true
      | Some (VList l) => forallb is_dict l
      | Some _ => false
      end
  | _ => false
  end.

(** Reference [k] of [ctx] is absent, null or empty, or satisfies [ok]. *)
Definition slot_ok (ok : value -> bool) (ctx : SessionContext) (k : string)
  : bool :=
  negb (truthy (ref_get ctx k)) || ok (ref_get ctx k).

(** If the last command went to the calendar and its result is a list,
    it is a list of events. *)
Definition last_result_ok (ctx : SessionContext) : bool :=
  match last (history ctx) with
  | Some c =>
      if String.eqb (Py.service c) "calendar" then
        match result_ c with
        | VList l => forallb event_ok l
        | _ => true
        end
      else true
  | None => true
  end.

(** The entities rules 3 and 4 read have the shape the back ends give
    them. *)
Definition session_ok (ctx : SessionContext) : bool :=
  slot_ok event_ok ctx "next_meeting" && slot_ok event_ok ctx "last_event"
  && slot_ok is_dict ctx "last_email" && slot_ok is_dict ctx "last_file"
  && last_result_ok ctx.

(** The engine has no session, or a well-formed one. *)
Definition well_formed (ctx : option SessionContext) : Prop :=
  forall c, ctx = Some c -> session_ok c = true.

(** The text of the ['query'] parameter: empty when there is none, and
    undefined when the parameter is not a string. *)
Definition query_of (p : dict) : option string :=
  match p !! "query" with
  | None => Some ""
  | Some (VStr q) => Some q
  | Some _ => None
  end.

(** Token [tok] joined to the query text [q] by a space. *)
Definition join (q tok : string) : string :=
  if String.eqb q "" then tok else q +:+ " " +:+ tok.

(** The tokens recognised in a (lower-cased) command, in the order of
    the rules: "is:unread" for "unread", "is:important" for "important"
    or "priority", "newer_than:<days>d" for the date phrases. *)
Definition filter_tokens (command : string) : list string :=
  (if str_in "unread" command then ["is:unread"] else [])
  ++ (if str_in "important" command || str_in "priority" command
      then ["is:important"] else [])
  ++ match search_last_n "day" command with
     | Some days => ["newer_than:" +:+ days +:+ "d"]
     | None => []
     end
  ++ match search_last_n "week" command with
     | Some weeks =>
         ["newer_than:" +:+ str_of_int (int_of_digits 0 weeks * 7) +:+ "d"]
     | None => []
     end
  ++ match search_last_n "month" command with
     | Some months =>
         ["newer_than:" +:+ str_of_int (int_of_digits 0 months * 30) +:+ "d"]
     | None => []
     end
  ++ (if str_in "last week" command
         && negb (bool_decide (is_Some (search_last_n "week" command)))
      then ["newer_than:7d"] else [])
  ++ (if str_in "last month" command
         && negb (bool_decide (is_Some (search_last_n "month" command)))
      then ["newer_than:30d"] else []).

(** The text of the number of days that [count] weeks or months of [k]
    days stand for, [f"{int(count) * k}"]. *)
Definition days_text (count : string) (k : N) : result string :=
  n ← py_int count;
  py_str_int (n * k).

(** Both conversions succeed for the count found, if any. *)
Definition converts (count : option string) (k : N) : bool :=
  match count with
  | Some c => match days_text c k with Ok _ => true | Raise _ => false end
  | None => true
  end.

(** The counts of weeks and of months a command names, and the numbers
    of days they stand for, have at most [int_max_str_digits] digits. *)
Definition counts_fit (command : string) : bool :=
  converts (search_last_n "week" command) 7
  && converts (search_last_n "month" command) 30.

(** A non-empty list. *)
Definition nonempty_list (v : option value) : bool :=
  match v with
  | Some (VList (_ :: _)) => true
  | _ => false
  end.

(** The parameters hold a list that a rule would extend in place:
    ['to'] ([params['to'].extend]) or ['query'] ([params['query'] +=]).
    Without one, [infer_parameters] mutates no object it was given
    other than the session's references. *)
Definition updated_in_place (p : dict) : bool :=
  nonempty_list (p !! "to") || nonempty_list (p !! "query").

(** Rules 3 and 4 read no entity of the session: there is no session,
    or the (lower-cased) command has neither "attendees" nor a pronoun
    ("it", "that", "this", "them"). *)
Definition reads_no_entity (ctx : option SessionContext) (command : string)
  : bool :=
  match ctx with
  | None => true
  | Some _ =>
      negb (str_in "attendees" command) && negb (bare_pronoun command)
      && negb (word_in " them " command || startswith "them" command)
  end.

(** [filtered toks m]: on a state whose query is a text [q] (or absent),
    [m] returns, leaves the query [q] with the tokens [toks] joined to
    it, and changes nothing else. *)
Definition filtered (toks : list string) (m : M unit) : Prop :=
  forall s q, query_of (params s) = Some q ->
  exists p', m s = (Ok tt, mkState (session s) p' (calls s))
             /\ query_of p' = Some (foldl join q toks)
             /\ forall k, k <> "query" -> p' !! k = params s !! k.

(** The session is the same and so are the parameters outside [K]; the
    lookups sent may have grown. *)
Definition same_params_but (K : list string) (s s' : state) : Prop :=
  session s' = session s
  /\ forall k, k ∉ K -> params s' !! k = params s !! k.

(** The lookups sent are the same. *)
Definition same_calls (s s' : state) : Prop := calls s' = calls s.

(** The state rule 1 leaves when the calendar answers with a list that
    starts with the event [ev]. *)
Definition with_next_meeting (ev : dict) (s : state) : state :=
  {| session :=
       (fun c => set_references c (<["next_meeting" := VDict ev]> (references c)))
         <$> session s;
     params :=
       <["summary" := dict_get ev "summary" VNone]>
         (<["event_id" := dict_get ev "id" VNone]>
            (<["inferred_event" := VDict ev]> (params s)));
     calls := (calls s ++ [list_events 7 1])%list |}.

(** Rule 4 for an event-class intent: the pronoun "it"/"that"/"this"
    applies when the intent updates or deletes an event and the session
    has a "last_event". *)
Definition event_pronoun_applies (ctx : option SessionContext)
    (command intent : string) : bool :=
  match ctx with
  | Some c =>
      bare_pronoun command
      && str_in_list intent ["update_event"; "delete_event"]
      && truthy (ref_get c "last_event")
  | None => false
  end.

(** An event of the calendar. *)
Definition standup : dict :=
  {[ "id" := VStr "e1"; "summary" := VStr "Standup" ]}.

(** An engine whose calendar answers every lookup with that event. *)
Definition engine_with_calendar : ContextInferenceEngine :=
  {| gmail_service := None;
     calendar_service := Some (fun _ _ => Ok (VList [VDict standup])) |}.

(** A session that remembers an older event. *)
Definition session_with_last_event : SessionContext :=
  {| session_id := "cli"; started_at := 0; history := [];
     references := {[ "last_event" := VDict {[ "id" := VStr "e0" ]} ]} |}.

End InferenceVocabulary.

Section SafetyMutators.
Import Py Safety.

(** The operations that change a manager. *)
Inductive mutation :=
| DoRecord (c : call)
| DoPop
| DoClear
| DoSetDryRun (enabled : bool).

Definition mutate (self : SafetyManager) (m : mutation) : SafetyManager :=
  match m with
  | DoRecord c => record_call self c
  | DoPop => (pop_last_action self).2
  | DoClear => clear_undo_stack self
  | DoSetDryRun b => set_dry_run self b
  end.

End SafetyMutators.

Section SessionKeys.
Import Py Session.

(** The key [f"last_{service}_command"]. *)
Definition command_key (service : string) : string :=
  "last_" +:+ service +:+ "_command".

(** The keys of [references] that [_update_references] assigns by name. *)
Definition named_keys : list string :=
  ["last_command"; "last_emails"; "last_email"; "last_sent_email";
   "last_events"; "last_event"; "next_meeting"; "last_created_event";
   "last_files"; "last_file"].

(** [text_lower in ["it", "that", "this"]] *)
Definition is_bare_pronoun (t : string) : bool :=
  str_in_list t ["it"; "that"; "this"].

(** No phrase rule of [resolve_reference] matches [t]. *)
Definition no_phrase (t : string) : bool :=
  negb (email_phrase t) && negb (meeting_phrase t)
  && negb (next_meeting_phrase t) && negb (file_phrase t).

(** [u.endswith(t)] *)
Fixpoint ends_with (t u : string) : bool :=
  String.eqb t u ||
  match u with
  | EmptyString => false
  | String _ u' => ends_with t u'
  end.

End SessionKeys.

Section WorkflowShapes.
Import Py Workflow.

(** [[a.get('email') for a in l if 'email' in a]] when every element of
    [l] is a mapping. *)
Definition emails_in (l : list value) : list value :=
  omap (fun a => match a with VDict m => m !! "email" | _ => None end) l.

(** The parameters [inject_context] may assign. *)
Definition injected_keys : list string := ["id"; "emails"; "items"].

(** The context of a run and the position [i] the loop has reached:
    the results are those of the completed steps, every step taken is
    before [i], the two lists are in increasing order and share nothing. *)
Definition context_ok (i : Z) (context : WorkflowContext) : Prop :=
  (forall j, j ∈ completed_steps context <-> is_Some (results context !! j))
  /\ (forall j, j ∈ (completed_steps context ++ failed_steps context)%list ->
                0 <= j < i)
  /\ StronglySorted Z.lt (completed_steps context)
  /\ StronglySorted Z.lt (failed_steps context)
  /\ (forall j, j ∈ completed_steps context -> j ∉ failed_steps context).

(** Every step taken (completed or failed) had no dependency, or one on
    an earlier step that had completed. *)
Definition dependencies_met (steps : list WorkflowStep)
    (context : WorkflowContext) : Prop :=
  forall j, j ∈ (completed_steps context ++ failed_steps context)%list ->
  exists step, steps !! Z.to_nat j = Some step
    /\ forall k, depends_on step = Some k ->
                 k ∈ completed_steps context /\ k < j.

(** Every step that was ready when the loop reached it (no dependency,
    or one on an earlier completed step) has been taken. *)
Definition ready_taken (steps : list WorkflowStep)
    (context : WorkflowContext) : Prop :=
  forall (j : nat) step, steps !! j = Some step ->
    (forall k, depends_on step = Some k ->
               k ∈ completed_steps context /\ k < Z.of_nat j) ->
    Z.of_nat j ∈ (completed_steps context ++ failed_steps context)%list.

End WorkflowShapes.

Section InferenceShapes.
Import Py Session Inference.

(** The parameters the rules of [infer_parameters] assign. *)
Definition inferred_keys : list string :=
  ["inferred_event"; "event_id"; "summary"; "days";
   "inferred_email"; "email_id"; "query";
   "to"; "inferred_attendees";
   "file_id"; "inferred_file"; "emails"; "email"].

(** A lookup that asks for one result. *)
Definition single_result (c : service_call) : bool :=
  match c with
  | list_events _ max_results => max_results =? 1
  | search_emails _ max_results => max_results =? 1
  end.

(** The session [c'] is the session [c] up to its "next_meeting"
    reference. *)
Definition session_but_next_meeting (c c' : option SessionContext) : Prop :=
  match c, c' with
  | None, None => True
  | Some c, Some c' =>
      session_id c' = session_id c /\ started_at c' = started_at c
      /\ history c' = history c
      /\ forall k, k <> "next_meeting" ->
                   references c' !! k = references c !! k
  | _, _ => False
  end.

(** From [s] to [s']: the session changed in "next_meeting" at most,
    the lookups sent since ask for one result each, the parameters
    outside [inferred_keys] are the same and no parameter was removed. *)
Definition inference_frame (s s' : state) : Prop :=
  session_but_next_meeting (session s) (session s')
  /\ (exists extra, calls s' = (calls s ++ extra)%list
                    /\ forallb single_result extra = true)
  /\ (forall k, k ∉ inferred_keys -> params s' !! k = params s !! k)
  /\ (forall k, is_Some (params s !! k) -> is_Some (params s' !! k)).

(** The sender rule 2 reads from a command: the first word after
    "from". *)
Definition sender_of (command : string) : string :=
  first_word (strip (drop_str (Z.to_nat (find "from" command + 5)) command)).

(** The lookups a command and an intent lead to, given which back ends
    the engine has. *)
Definition lookups_of (has_calendar has_gmail : bool)
    (command intent : string) : list service_call :=
  (if str_in_list intent event_intents
      && (str_in "next meeting" command || str_in "upcoming meeting" command)
      && has_calendar
   then [list_events 7 1] else [])
  ++ (if str_in_list intent email_intents
         && (str_in "last email" command && str_in "from" command)
         && negb (String.eqb (sender_of command) "")
         && has_gmail
      then [search_emails ("from:" +:+ sender_of command) 1] else []).

(** Whenever the calendar answers the lookup of rule 1 with a list that
    starts with a mapping, that mapping is a well-formed event. *)
Definition calendar_ok (self : ContextInferenceEngine) : Prop :=
  forall calendar ev rest,
    calendar_service self = Some calendar ->
    calendar 7 1 = Ok (VList (VDict ev :: rest)) ->
    event_ok (VDict ev) = true.

(** The search (service and intent) whose first result a bare pronoun
    stands for under an intent: the reference that holds it and the two
    parameters rule 4 fills from it. *)
Definition pronoun_target (service search_intent intent : string)
  : option (string * string * string) :=
  if str_in_list intent ["share_file"; "download_file"; "delete_file"] then
    if String.eqb service "drive" && String.eqb search_intent "search_file"
    then Some ("last_file", "file_id", "inferred_file") else None
  else if str_in_list intent ["read_email"; "delete_email"] then
    if String.eqb service "gmail" && String.eqb search_intent "search_email"
    then Some ("last_email", "email_id", "inferred_email") else None
  else if str_in_list intent ["update_event"; "delete_event"] then
    if String.eqb service "calendar"
       && (String.eqb search_intent "list_events"
           || String.eqb search_intent "search_event")
    then Some ("last_event", "event_id", "inferred_event") else None
  else None.

(** The recipients the ['to'] parameter holds, as a list: none when the
    parameter is absent or empty, the value itself when it is not a
    list. *)
Definition recipients (p : dict) : list value :=
  match p !! "to" with
  | Some to =>
      if truthy to then match to with VList l => l | _ => [to] end else []
  | None => []
  end.

(** A value whose formatting in a log message cannot fail: null, a
    boolean or a text. *)
Definition printable (v : value) : bool :=
  match v with
  | VNone | VBool _ | VStr _ => true
  | _ => false
  end.

(** Field [field] of the mapping in slot [slot], if any, is printable. *)
Definition field_printable (c : SessionContext) (slot field : string) : bool :=
  match ref_get c slot with
  | VDict d => printable (dict_get d field VNone)
  | _ => true
  end.

(** What rule 4 writes to the log when it resolves a pronoun (the name
    and id of the last file, the id of the last mail, the summary of
    the last event) is printable. *)
Definition log_ok (ctx : option SessionContext) : bool :=
  match ctx with
  | None => true
  | Some c =>
      field_printable c "last_file" "name"
      && field_printable c "last_file" "id"
      && field_printable c "last_email" "id"
      && field_printable c "last_event" "summary"
  end.

End InferenceShapes.
(** * Properties *)

(** ** Safety and undo engine *)

Section SafetyProperties.
Import Py Safety.

Lemma is_destructive_send_email : is_destructive "send_email" = true.
Proof. reflexivity. Qed.

Lemma is_destructive_share_file : is_destructive "share_file" = true.
Proof. reflexivity. Qed.

Lemma destructive_requires_confirmation intent parameters :
  is_destructive intent = true ->
  requires_confirmation intent parameters = Ok true.
Proof. intros H. unfold requires_confirmation. by rewrite H. Qed.

(** C1, as stated, fails: a mail to three recipients does require
    confirmation, because [send_email] is a destructive intent. *)
Lemma requires_confirmation_three_recipients :
  requires_confirmation "send_email"
    {[ "to" := VList [VStr "a@x.org"; VStr "b@x.org"; VStr "c@x.org"] ]}
  = Ok true
  /\ Ok true <> Ok false.
Proof. split; [reflexivity | discriminate]. Qed.

(** C1 (amended): [requires_confirmation "send_email"] is true for a
    ['to'] list of four addresses and also for one of three (or any other
    parameters), since [send_email] is itself destructive; and
    [requires_confirmation] is true whenever the intent is destructive, or
    is [send_email] with more than 3 recipients, or is [share_file] with a
    non-empty ['email'] that lacks the internal domain suffix. *)
Theorem requires_confirmation_amended (intent : string) (parameters : dict)
    (to : list value) :
  requires_confirmation "send_email" (<["to" := VList to]> parameters)
    = Ok true
  /\ (confirmation_trigger intent parameters ->
      requires_confirmation intent parameters = Ok true).
Proof.
  split.
  - apply destructive_requires_confirmation, is_destructive_send_email.
  - intros [H | [[-> _] | [-> _]]];
      apply destructive_requires_confirmation;
      [exact H | exact is_destructive_send_email
      | exact is_destructive_share_file].
Qed.

(** C1 at a mail to four recipients. *)
Lemma requires_confirmation_amended_witness :
  requires_confirmation "send_email"
    {[ "to" := VList [VStr "a@x.org"; VStr "b@x.org";
                      VStr "c@x.org"; VStr "d@x.org"] ]} = Ok true.
Proof.
  apply (proj2 (requires_confirmation_amended "send_email" _ [])).
  right; left. split; [reflexivity |].
  eexists. split; [reflexivity | simpl; lia].
Defined.

Lemma most_recent_snoc {A} n (l : list A) a :
  (0 < n)%nat ->
  (let stack := most_recent n l ++ [a] in
   if (n <? length stack)%nat then drop 1 stack else stack)%list
  = most_recent n (l ++ [a]).
Proof.
  intros Hn. cbv zeta. unfold most_recent.
  rewrite !length_app, length_drop. simpl.
  destruct (Nat.ltb_spec n (length l - (length l - n) + 1)) as [H | H].
  - rewrite drop_app_le by (rewrite length_drop; lia).
    rewrite drop_drop.
    rewrite drop_app_le by lia.
    do 2 f_equal. lia.
  - replace (length l - n)%nat with 0%nat by lia.
    replace (length l + 1 - n)%nat with 0%nat by lia.
    reflexivity.
Qed.

Lemma record_all_stack (cs : list call) : forall (self : SafetyManager) L,
  max_undo_actions self = 10%nat ->
  undo_stack self = most_recent 10 L ->
  undo_stack (record_all self cs) = most_recent 10 (L ++ (action_of <$> cs)).
Proof.
  induction cs as [| c cs IH]; intros self L Hmax Hst; simpl.
  - by rewrite app_nil_r.
  - rewrite (IH (record_call self c) (L ++ [action_of c])%list).
    + by rewrite <- app_assoc.
    + exact Hmax.
    + unfold record_call, record_action. simpl.
      rewrite Hmax, Hst. apply (most_recent_snoc 10). lia.
Qed.

(** C4: on a fresh manager, whatever calls of [record_action] are made,
    the undo stack holds at most 10 actions, namely the most recent ones
    in the order they were recorded (the oldest are the ones evicted);
    after 15 calls it holds exactly the last 10. *)
Theorem undo_stack_bounded (dry : bool) (cs : list call) :
  let stack := get_undo_stack (record_all (init dry) cs) in
  (length stack <= 10)%nat
  /\ stack = drop (length cs - 10) (action_of <$> cs)
  /\ (length cs = 15%nat ->
      length stack = 10%nat /\ stack = drop 5 (action_of <$> cs)).
Proof.
  cbv zeta. unfold get_undo_stack.
  rewrite (record_all_stack cs (init dry) []) by reflexivity.
  simpl. unfold most_recent. rewrite length_fmap.
  split; [| split].
  - rewrite length_drop, length_fmap. lia.
  - reflexivity.
  - intros H. rewrite length_drop, length_fmap, H. split; reflexivity.
Qed.

(** C4 at fifteen calls on a fresh manager. *)
Lemma undo_stack_bounded_witness :
  let cs := (fun i => mkCall (Z.of_nat i) SHARE_FILE "file" "drive" ∅ None)
              <$> seq 0 15 in
  length (get_undo_stack (record_all (init false) cs)) = 10%nat
  /\ get_undo_stack (record_all (init false) cs) = drop 5 (action_of <$> cs).
Proof.
  cbv zeta.
  apply (proj2 (proj2 (undo_stack_bounded false
           ((fun i => mkCall (Z.of_nat i) SHARE_FILE "file" "drive" ∅ None)
              <$> seq 0 15)))).
  reflexivity.
Defined.

End SafetyProperties.

(** ** Session memory and the reference resolver *)

Section SessionProperties.
Import Py Session.

Lemma add_all_snoc self cs c :
  add_all self (cs ++ [c]) = add_call (add_all self cs) c.
Proof. unfold add_all. by rewrite foldl_app. Qed.

Lemma history_add_call self c :
  history (add_call self c) = (history self ++ [record_of c])%list.
Proof. reflexivity. Qed.

Lemma history_add_all cs : forall self,
  history (add_all self cs) = (history self ++ (record_of <$> cs))%list.
Proof.
  induction cs as [| c cs IH]; intros self; simpl.
  - by rewrite app_nil_r.
  - unfold add_all in IH. rewrite IH, history_add_call.
    by rewrite <- app_assoc.
Qed.

(** Whatever else [_update_references] stores, the entry "last_command"
    is the record it was given. *)
Lemma last_command_update_references self r :
  references (_update_references self r) !! "last_command" = Some (VCmd r).
Proof.
  unfold _update_references, set_references. simpl.
  repeat match goal with
         | |- context [if ?b then _ else _] => destruct b
         | |- context [match first_of_list ?v with _ => _ end] =>
             destruct (first_of_list v)
         end;
    repeat (rewrite lookup_insert_ne by discriminate);
    apply lookup_insert_eq.
Qed.

(** C5: after [N >= 1] calls of [add_command] on a fresh session, the
    last of them being [c], the reference "last_command" is the record of
    [c], which is also the [N]th record of the history, whatever the
    services, intents and success flags of the calls. *)
Theorem last_command_recency (sid : string) (t0 : Z)
    (cs : list call) (c : call) :
  let self := add_all (init sid t0) (cs ++ [c]) in
  references self !! "last_command" = Some (VCmd (record_of c))
  /\ history self !! length cs = Some (record_of c)
  /\ length (history self) = S (length cs).
Proof.
  cbv zeta. rewrite add_all_snoc. split; [| split].
  - apply last_command_update_references.
  - rewrite history_add_call, history_add_all. simpl.
    rewrite lookup_app_r by (rewrite length_fmap; lia).
    rewrite length_fmap, Nat.sub_diag. reflexivity.
  - rewrite history_add_call, history_add_all. simpl.
    rewrite length_app, length_fmap. simpl. lia.
Qed.

(** C6, as stated, fails: a call that reports failure leaves
    "last_event" alone, whatever its result. *)
Lemma last_event_not_set_on_failure :
  references
    (add_command (init "s" 0) 1 "show my meetings" "calendar" "list_events" ∅
       (VList [VDict {[ "id" := VStr "e1" ]}]) false (Some "timeout"))
    !! "last_event" = None.
Proof. reflexivity. Qed.

(** C6 (amended): for every successful [add_command] call with service
    calendar and intent [list_events] or [search_event] whose result is a
    non-empty list, "last_event" is afterwards the first element of that
    list. *)
Theorem last_event_first_result (self : SessionContext) (now : Z)
    (command intent : string) (parameters : dict) (x : value)
    (l : list value) (error : option string) :
  intent = "list_events" \/ intent = "search_event" ->
  references
    (add_command self now command "calendar" intent parameters
       (VList (x :: l)) true error) !! "last_event" = Some x.
Proof.
  intros [-> | ->]; unfold add_command, _update_references; simpl;
    (rewrite lookup_insert_ne by discriminate); apply lookup_insert_eq.
Qed.

(** C6 at a successful listing of two events. *)
Lemma last_event_first_result_witness :
  references
    (add_command (init "s" 0) 1 "show my meetings" "calendar" "list_events" ∅
       (VList [VDict {[ "id" := VStr "e1" ]}; VDict {[ "id" := VStr "e2" ]}])
       true None)
    !! "last_event" = Some (VDict {[ "id" := VStr "e1" ]}).
Proof.
  apply (last_event_first_result (init "s" 0) 1 "show my meetings"
           "list_events" ∅ (VDict {[ "id" := VStr "e1" ]})
           [VDict {[ "id" := VStr "e2" ]}] None).
  left. reflexivity.
Defined.

(** The two reads leave the session as it is. *)
Lemma get_reference_run key self :
  get_reference key self = (dict_get (references self) key VNone, self).
Proof. reflexivity. Qed.

Lemma get_last_command_run self :
  get_last_command self = (last (history self), self).
Proof. reflexivity. Qed.

Lemma resolve_pronoun_pure t self : (resolve_pronoun t self).2 = self.
Proof.
  unfold resolve_pronoun.
  destruct (str_in_list t _); [| reflexivity].
  unfold mbind, St_bind. rewrite get_last_command_run.
  destruct (last (history self)) as [c |]; [| reflexivity].
  repeat (match goal with
          | |- context [if ?b then _ else _] => destruct b
          end; try reflexivity).
Qed.

Lemma resolve_position_pure b i self : (resolve_position b i self).2 = self.
Proof.
  unfold resolve_position.
  destruct b; [| reflexivity].
  unfold mbind, St_bind. rewrite get_last_command_run.
  destruct (last (history self)) as [c |]; [| reflexivity].
  destruct (truthy (result_ c)); [| reflexivity].
  destruct (result_ c); try reflexivity.
  destruct (l !! i); reflexivity.
Qed.

Lemma resolve_reference_pure text self :
  (resolve_reference text self).2 = self.
Proof.
  unfold resolve_reference.
  repeat (match goal with
          | |- context [if any_in ?l ?t then _ else _] => destruct (any_in l t)
          | |- context [if str_in ?l ?t then _ else _] => destruct (str_in l t)
          end; try reflexivity).
  unfold mbind, St_bind.
  pose proof (resolve_pronoun_pure (lower text) self) as H1.
  destruct (resolve_pronoun (lower text) self) as [[a |] s1];
    simpl in H1; subst s1; [reflexivity |].
  match goal with
  | |- context [resolve_position ?b 0 self] =>
      pose proof (resolve_position_pure b 0 self) as H2;
      destruct (resolve_position b 0 self) as [[a |] s2]
  end; simpl in H2; subst s2; [reflexivity |].
  match goal with
  | |- context [resolve_position ?b 1 self] =>
      pose proof (resolve_position_pure b 1 self) as H3;
      destruct (resolve_position b 1 self) as [[a |] s3]
  end; simpl in H3; subst s3; reflexivity.
Qed.

(** C9: [resolve_reference] reads the session and never writes it: a
    call leaves history and references as they were, and a second call
    with the same text returns the same (kind, entity) pair. *)
Theorem resolve_reference_deterministic_pure (self : SessionContext)
    (text : string) :
  let '(r1, s1) := resolve_reference text self in
  let '(r2, s2) := resolve_reference text s1 in
  r1 = r2 /\ s1 = self /\ s2 = self
  /\ history s2 = history self /\ references s2 = references self.
Proof.
  pose proof (resolve_reference_pure text self) as H1.
  destruct (resolve_reference text self) as [r1 s1] eqn:E1.
  simpl in H1. subst s1. rewrite E1. done.
Qed.

(** C10: when a phrase rule matches and its reference slot is absent,
    [resolve_reference] returns the kind of the rule with a null entity
    (not the pair of two nulls): for the mail phrases with no
    "last_email", and likewise for the meeting, next-meeting and file
    phrases when no earlier rule matches. *)
Theorem resolve_reference_absent_slot (self : SessionContext)
    (text : string) :
  let t := lower text in
  (email_phrase t = true -> references self !! "last_email" = None ->
   (resolve_reference text self).1 = (Some "email", VNone))
  /\ (email_phrase t = false -> meeting_phrase t = true ->
      references self !! "last_event" = None ->
      (resolve_reference text self).1 = (Some "event", VNone))
  /\ (email_phrase t = false -> meeting_phrase t = false ->
      next_meeting_phrase t = true ->
      references self !! "next_meeting" = None ->
      (resolve_reference text self).1 = (Some "event", VNone))
  /\ (email_phrase t = false -> meeting_phrase t = false ->
      next_meeting_phrase t = false -> file_phrase t = true ->
      references self !! "last_file" = None ->
      (resolve_reference text self).1 = (Some "file", VNone)).
Proof.
  cbv zeta.
  unfold email_phrase, meeting_phrase, next_meeting_phrase, file_phrase,
    resolve_reference.
  repeat split; intros;
    repeat match goal with
           | H : _ || _ = false |- _ => apply orb_false_iff in H as [? ?]
           | H : ?b = false |- context [if ?b then _ else _] => rewrite H
           | H : ?b = true |- context [if ?b then _ else _] => rewrite H
           end;
    repeat (match goal with
            | |- context [if ?b then _ else _] => destruct b eqn:?
            end; try discriminate);
    unfold mbind, St_bind; rewrite get_reference_run; unfold dict_get;
    simpl;
    match goal with H : references self !! _ = None |- _ => by rewrite H end.
Qed.

(** C10 at "that email" on a fresh session. *)
Lemma resolve_reference_absent_slot_witness :
  (resolve_reference "that email" (init "s" 0)).1 = (Some "email", VNone).
Proof.
  apply (proj1 (resolve_reference_absent_slot (init "s" 0) "that email"));
    reflexivity.
Defined.

End SessionProperties.

(** ** Workflow engine *)

Section WorkflowProperties.
Import Py Workflow.

(** [parse_intent] returns the first validated answer, provided every
    attempt before it ended in a way that is tried again. *)
Lemma attempts_Some {A} (f : nat -> attempt_outcome A) (n : nat) :
  forall (a : nat) (r : A),
  attempts f a n = Some r <->
  exists i, (i < n)%nat /\ f (a + i)%nat = Validated r
            /\ forall j, (j < i)%nat -> retryable (f (a + j)%nat) = true.
Proof.
  induction n as [| n IH]; intros a r; simpl.
  - split; [discriminate | intros (i & Hi & _); lia].
  - split.
    + intros H.
      destruct (f a) eqn:Ea; try discriminate;
        try (apply IH in H as (i & Hi & Hv & Hr);
             exists (S i); split; [lia |];
             split; [by replace (a + S i)%nat with (S a + i)%nat by lia |];
             intros [| j] Hj;
               [by rewrite Nat.add_0_r, Ea
               | replace (a + S j)%nat with (S a + j)%nat by lia;
                 apply Hr; lia]).
      exists 0%nat. rewrite Nat.add_0_r.
      split; [lia |]. split; [congruence | intros j Hj; lia].
    + intros ([| i] & Hi & Hv & Hr).
      * rewrite Nat.add_0_r in Hv. by rewrite Hv.
      * assert (retryable (f a) = true) as Ha.
        { specialize (Hr 0%nat). rewrite Nat.add_0_r in Hr. apply Hr. lia. }
        assert (attempts f (S a) n = Some r) as Hn.
        { apply IH. exists i. split; [lia |].
          split; [by replace (S a + i)%nat with (a + S i)%nat by lia |].
          intros j Hj. replace (S a + j)%nat with (a + S j)%nat by lia.
          apply Hr. lia. }
        destruct (f a); simpl in Ha; try discriminate; exact Hn.
Qed.




Lemma dict_has_true (d : dict) k : dict_has d k = true <-> is_Some (d !! k).
Proof. unfold dict_has. apply bool_decide_eq_true. Qed.

Lemma dict_has_None (d : dict) k : d !! k = None -> dict_has d k = false.
Proof.
  intros H. unfold dict_has. apply bool_decide_eq_false.
  rewrite H. by intros [? ?].
Qed.

Lemma dict_has_Some (d : dict) k v : d !! k = Some v -> dict_has d k = true.
Proof. intros H. apply dict_has_true. by rewrite H. Qed.

(** C8, as stated, fails: the list is not attached when the step has an
    ['ids'] parameter. *)
Lemma inject_context_ids_present :
  inject_context step_with_ids {[ 0 := VList [VStr "m7"; VStr "m8"] ]}
  = (step_with_ids, Ok tt)
  /\ parameters step_with_ids !! "items" = None.
Proof. split; reflexivity. Qed.

(** C8 (amended): for a step whose dependency has a result, if that
    result is a list it becomes the step's ['items'] parameter unchanged,
    unless the step has an ['ids'] parameter; and if it is a mapping with
    an ['id'], that value becomes the step's ['id'] parameter unless the
    step already has one, which is then kept. *)
Theorem inject_context_amended (step : WorkflowStep)
    (previous_results : gmap Z value) (k : Z) (dep : value) :
  depends_on step = Some k ->
  previous_results !! k = Some dep ->
  let step' := (inject_context step previous_results).1 in
  (forall l, dep = VList l -> parameters step !! "ids" = None ->
     inject_context step previous_results
       = (set_parameters step (<["items" := VList l]> (parameters step)),
          Ok tt)
     /\ parameters step' !! "items" = Some (VList l))
  /\ (forall d i, dep = VDict d -> d !! "id" = Some i ->
        parameters step !! "id" = None ->
        parameters step' !! "id" = Some i)
  /\ (forall d v, dep = VDict d -> parameters step !! "id" = Some v ->
        parameters step' !! "id" = Some v).
Proof.
  intros Hk Hdep. cbv zeta. unfold inject_context. rewrite Hk, Hdep.
  split; [| split].
  - intros l -> Hids. rewrite (dict_has_None _ _ Hids). simpl.
    split; [reflexivity | apply lookup_insert_eq].
  - intros d i -> Hi Hid. rewrite Hi, (dict_has_None _ _ Hid). simpl.
    destruct (d !! "attendees") as [att |]; [| apply lookup_insert_eq].
    destruct (dict_has _ "emails"); simpl; [apply lookup_insert_eq |].
    destruct att; try apply lookup_insert_eq.
    destruct (attendee_emails l); simpl; [| apply lookup_insert_eq].
    rewrite lookup_insert_ne by discriminate. apply lookup_insert_eq.
  - intros d v -> Hv.
    assert (forall s : WorkflowStep,
              (match d !! "id" with
               | Some i =>
                   if negb (dict_has (parameters step) "id")
                   then set_parameters step (<["id" := i]> (parameters step))
                   else step
               | None => step
               end) = step) as Hsame.
    { intros _. destruct (d !! "id"); [| reflexivity].
      by rewrite (dict_has_Some _ _ _ Hv). }
    rewrite (Hsame step).
    destruct (d !! "attendees") as [att |]; [| exact Hv].
    destruct (dict_has _ "emails"); simpl; [exact Hv |].
    destruct att; try exact Hv.
    destruct (attendee_emails l); simpl; [| exact Hv].
    by rewrite lookup_insert_ne by discriminate.
Qed.

(** C8 at a step that depends on an event with an identifier. *)
Lemma inject_context_amended_witness :
  parameters
    (inject_context
       {| service := "gmail"; intent := "send_email"; parameters := ∅;
          depends_on := Some 0; result := None; status := "pending" |}
       {[ 0 := VDict {[ "id" := VStr "e1" ]} ]}).1
    !! "id" = Some (VStr "e1").
Proof.
  destruct (inject_context_amended
              {| service := "gmail"; intent := "send_email"; parameters := ∅;
                 depends_on := Some 0; result := None; status := "pending" |}
              {[ 0 := VDict {[ "id" := VStr "e1" ]} ]} 0
              (VDict {[ "id" := VStr "e1" ]}))
    as (_ & H & _); [reflexivity | reflexivity |].
  apply (H {[ "id" := VStr "e1" ]} (VStr "e1")); reflexivity.
Defined.

End WorkflowProperties.

(** ** Parameter inference engine *)

Section InferenceFrames.
Import Py Session Inference.

Lemma bind_run {A B} (m : M A) (k : A -> M B) s a s' :
  m s = (Ok a, s') -> (m ≫= k) s = k a s'.
Proof. intros H. unfold mbind, M_bind. by rewrite H. Qed.

(** *** What a computation leaves alone *)
Section Keeps.

Variable R : state -> state -> Prop.
Hypothesis R_refl : forall s, R s s.
Hypothesis R_trans : forall a b c, R a b -> R b c -> R a c.

Lemma keeps_ret {A} (a : A) : keeps R (mret a).
Proof. intros s. apply R_refl. Qed.

Lemma keeps_lift {A} (r : result A) : keeps R (lift r).
Proof. intros s. apply R_refl. Qed.

Lemma keeps_get_params : keeps R get_params.
Proof. intros s. apply R_refl. Qed.

Lemma keeps_get_session : keeps R get_session.
Proof. intros s. apply R_refl. Qed.

Lemma keeps_bind {A B} (m : M A) (k : A -> M B) :
  keeps R m -> (forall a, keeps R (k a)) -> keeps R (m ≫= k).
Proof.
  intros Hm Hk s. unfold mbind, M_bind.
  specialize (Hm s). destruct (m s) as [[a | e] s']; simpl in *.
  - eapply R_trans; [exact Hm | apply Hk].
  - exact Hm.
Qed.

End Keeps.

Lemma same_but_refl K s : same_but K s s.
Proof. done. Qed.

Lemma same_but_trans K a b c :
  same_but K a b -> same_but K b c -> same_but K a c.
Proof.
  intros (H1 & H2 & H3) (H4 & H5 & H6). repeat split; try congruence.
  intros k Hk. rewrite H6, H3; done.
Qed.

Lemma same_but_mono K K' s s' :
  K ⊆ K' -> same_but K s s' -> same_but K' s s'.
Proof.
  intros Hsub (H1 & H2 & H3). repeat split; try done.
  intros k Hk. apply H3. intros Hin. apply Hk, Hsub, Hin.
Qed.

Lemma touches_ret {A} K (a : A) : touches_only K (mret a).
Proof. apply keeps_ret, same_but_refl. Qed.

Lemma touches_lift {A} K (r : result A) : touches_only K (lift r).
Proof. apply keeps_lift, same_but_refl. Qed.

Lemma touches_get_params K : touches_only K get_params.
Proof. apply keeps_get_params, same_but_refl. Qed.

Lemma touches_get_session K : touches_only K get_session.
Proof. apply keeps_get_session, same_but_refl. Qed.

Lemma touches_bind {A B} K (m : M A) (k : A -> M B) :
  touches_only K m -> (forall a, touches_only K (k a)) ->
  touches_only K (m ≫= k).
Proof. apply keeps_bind, same_but_trans. Qed.

Lemma set_param_touches K k v : k ∈ K -> touches_only K (set_param k v).
Proof.
  intros Hk s. repeat split; try done. simpl.
  intros k' Hk'. apply lookup_insert_ne. intros ->. done.
Qed.

Lemma touches_mono {A} K K' (m : M A) :
  K ⊆ K' -> touches_only K m -> touches_only K' m.
Proof. intros Hsub Hm s. eapply same_but_mono; [exact Hsub | apply Hm]. Qed.

End InferenceFrames.

(** Break a goal [touches_only K m] down along the structure of [m]. *)
Ltac touch_step :=
  first
    [ apply touches_ret
    | apply touches_lift
    | apply touches_get_params
    | apply touches_get_session
    | apply set_param_touches; set_solver
    | apply touches_bind; [| intros ?]
    | match goal with
      | |- touches_only _ (if ?b then _ else _) => destruct b
      | |- touches_only _ (match ?x with _ => _ end) => destruct x
      end ].

(** A key that differs from every key of a list is not in the list. *)
Ltac not_in_keys :=
  let Hin := fresh "Hin" in
  intros Hin;
  repeat (apply elem_of_cons in Hin as [Hin | Hin]; [discriminate |]);
  by apply elem_of_nil in Hin.

(** A token that one of the appended lists consists of is in the whole. *)
Ltac in_tokens :=
  repeat first
    [ by left
    | apply in_or_app; left; by left
    | apply in_or_app; right ].

Section InferenceStages.
Import Py Session Inference.

Lemma resolve_it_touches ctx ref id_key inferred_key K :
  id_key ∈ K -> inferred_key ∈ K ->
  touches_only K (resolve_it ctx ref id_key inferred_key).
Proof.
  intros H1 H2. unfold resolve_it.
  destruct (truthy _); [| apply touches_ret].
  apply touches_bind; [apply touches_lift | intros id].
  apply touches_bind; [| intros _]; by apply set_param_touches.
Qed.

Lemma _infer_attendees_touches command :
  touches_only attendee_keys (_infer_attendees command).
Proof.
  unfold _infer_attendees, gather_attendees, add_recipients, attendee_keys.
  repeat touch_step.
Qed.

Lemma _resolve_pronouns_touches command intent :
  touches_only pronoun_keys (_resolve_pronouns command intent).
Proof.
  unfold _resolve_pronouns, resolve_it_that_this, resolve_them, pronoun_keys.
  apply touches_bind; [apply touches_get_session | intros [ctx |]];
    [| apply touches_ret].
  apply touches_bind; [| intros _].
  - repeat match goal with
           | |- touches_only _ (if ?b then _ else _) => destruct b
           end;
      try apply touches_ret; apply resolve_it_touches; set_solver.
  - repeat touch_step.
Qed.

End InferenceStages.

(** *** Well-formed sessions

    Rules 3 and 4 call dictionary methods on what the session holds; they
    return whenever the entities stored there have the shape the back
    ends give them. *)

Section InferenceReturns.
Import Py Session Inference.

Lemma event_ok_is_dict v : event_ok v = true -> is_dict v = true.
Proof. by destruct v. Qed.

Lemma session_ok_slots ctx :
  session_ok ctx = true ->
  slot_ok event_ok ctx "next_meeting" = true
  /\ slot_ok event_ok ctx "last_event" = true
  /\ slot_ok is_dict ctx "last_email" = true
  /\ slot_ok is_dict ctx "last_file" = true
  /\ last_result_ok ctx = true.
Proof.
  unfold session_ok. rewrite !andb_true_iff. tauto.
Qed.

Lemma slot_ok_truthy ok ctx k :
  slot_ok ok ctx k = true -> truthy (ref_get ctx k) = true ->
  ok (ref_get ctx k) = true.
Proof. unfold slot_ok. intros H E. by rewrite E in H. Qed.

Lemma meeting_or_last_event_ok ctx :
  session_ok ctx = true ->
  truthy (meeting_or_last_event ctx) = true ->
  event_ok (meeting_or_last_event ctx) = true.
Proof.
  intros (H1 & H2 & _)%session_ok_slots. unfold meeting_or_last_event, py_or.
  destruct (truthy (ref_get ctx "next_meeting")) eqn:E.
  - intros _. by apply slot_ok_truthy.
  - by apply slot_ok_truthy.
Qed.

Lemma attendee_emails_returns l :
  forallb is_dict l = true -> exists es, attendee_emails l = Ok es.
Proof.
  induction l as [| a l IH]; simpl; [by eexists |].
  intros [Ha Hl]%andb_true_iff. destruct (IH Hl) as [es Hes].
  destruct a; try discriminate. simpl.
  destruct (dict_has d "email"); simpl; rewrite Hes; by eexists.
Qed.

Lemma event_contains v :
  event_ok v = true -> exists b, py_contains "attendees" v = Ok b.
Proof. destruct v; try discriminate. by eexists. Qed.

Lemma emails_of_returns v :
  event_ok v = true -> py_contains "attendees" v = Ok true ->
  exists es, emails_of v = Ok es.
Proof.
  destruct v; try discriminate. simpl. intros Hok [= Hhas].
  apply bool_decide_eq_true in Hhas as [a Ha].
  unfold emails_of. simpl. rewrite Ha in *. simpl.
  destruct a; try discriminate. simpl.
  by apply attendee_emails_returns.
Qed.

Lemma all_attendees_returns l :
  forallb event_ok l = true -> exists es, all_attendees l = Ok es.
Proof.
  induction l as [| e l IH]; simpl; [by eexists |].
  intros [He Hl]%andb_true_iff. destruct (IH Hl) as [es Hes].
  destruct (event_contains e He) as [b Hb]. rewrite Hb. simpl.
  destruct b.
  - destruct (emails_of_returns e He Hb) as [here Hhere].
    rewrite Hhere. simpl. rewrite Hes. by eexists.
  - simpl. rewrite Hes. by eexists.
Qed.

Lemma lift_bind_run {A B} (r : result A) (k : A -> M B) a s :
  r = Ok a -> (lift r ≫= k) s = k a s.
Proof. intros ->. reflexivity. Qed.

Lemma resolve_it_returns ctx ref id_key inferred_key s :
  slot_ok is_dict ctx ref = true ->
  (resolve_it ctx ref id_key inferred_key s).1 = Ok tt.
Proof.
  unfold resolve_it, slot_ok.
  destruct (truthy (ref_get ctx ref)); simpl; [| reflexivity].
  intros H. destruct (ref_get ctx ref); try discriminate. reflexivity.
Qed.

Lemma resolve_it_that_this_returns ctx command intent s :
  session_ok ctx = true ->
  (resolve_it_that_this ctx command intent s).1 = Ok tt.
Proof.
  intros (_ & H2 & H3 & H4 & _)%session_ok_slots.
  unfold resolve_it_that_this.
  repeat (match goal with
          | |- context [if ?b then _ else _] => destruct b
          end; try reflexivity);
    apply resolve_it_returns; try done.
  unfold slot_ok in *. destruct (truthy _); simpl in *; [| done].
  by apply event_ok_is_dict.
Qed.

Lemma resolve_them_returns ctx command intent s :
  session_ok ctx = true ->
  (resolve_them ctx command intent s).1 = Ok tt.
Proof.
  intros Hok. unfold resolve_them.
  destruct (_ || _); [| reflexivity].
  destruct (truthy (meeting_or_last_event ctx)) eqn:Et; [| reflexivity].
  pose proof (meeting_or_last_event_ok ctx Hok Et) as He.
  destruct (event_contains _ He) as [b Hb].
  rewrite (lift_bind_run _ _ b) by exact Hb.
  destruct b; [| reflexivity].
  destruct (emails_of_returns _ He Hb) as [es Hes].
  rewrite (lift_bind_run _ _ es) by exact Hes.
  destruct es as [| a rest]; [reflexivity |].
  repeat (match goal with
          | |- context [if ?b then _ else _] => destruct b
          end; try reflexivity).
Qed.

(** A run that returns and keeps a relation, as one equation. *)
Lemma run_returns (m : M unit) s :
  (m s).1 = Ok tt -> m s = (Ok tt, (m s).2).
Proof. destruct (m s) as [r s']. simpl. by intros ->. Qed.

Lemma _resolve_pronouns_returns command intent s :
  well_formed (session s) ->
  (_resolve_pronouns command intent s).1 = Ok tt.
Proof.
  intros Hwf. unfold _resolve_pronouns.
  rewrite (bind_run _ _ s (session s) s) by reflexivity.
  destruct (session s) as [ctx |] eqn:Es; [| reflexivity].
  specialize (Hwf ctx eq_refl).
  erewrite bind_run
    by (apply run_returns, resolve_it_that_this_returns, Hwf).
  by apply resolve_them_returns.
Qed.

Lemma gather_attendees_returns command s :
  well_formed (session s) ->
  exists l, gather_attendees command s = (Ok l, s).
Proof.
  intros Hwf. unfold gather_attendees.
  destruct (_ || _).
  - rewrite (bind_run _ _ s (session s) s) by reflexivity.
    destruct (session s) as [ctx |] eqn:Es; [| by eexists].
    specialize (Hwf ctx eq_refl).
    destruct (truthy (meeting_or_last_event ctx)) eqn:Et; [| by eexists].
    pose proof (meeting_or_last_event_ok ctx Hwf Et) as He.
    destruct (event_contains _ He) as [b Hb].
    rewrite (lift_bind_run _ _ b) by exact Hb.
    destruct b; [| by eexists].
    destruct (emails_of_returns _ He Hb) as [es Hes].
    unfold lift. rewrite Hes. by eexists.
  - destruct (_ || _); [| by eexists].
    rewrite (bind_run _ _ s (session s) s) by reflexivity.
    destruct (session s) as [ctx |] eqn:Es; [| by eexists].
    specialize (Hwf ctx eq_refl).
    apply session_ok_slots in Hwf as (_ & _ & _ & _ & Hl).
    unfold last_result_ok in Hl.
    destruct (last (history ctx)) as [c |]; [| by eexists].
    destruct (String.eqb (Py.service c) "calendar"); [| by eexists].
    destruct (result_ c) as [| | | | l | |]; try by eexists.
    destruct l as [| e l]; [by eexists |].
    destruct (all_attendees_returns _ Hl) as [es Hes].
    unfold lift. rewrite Hes. by eexists.
Qed.

Lemma add_recipients_returns attendees s :
  (add_recipients attendees s).1 = Ok tt.
Proof.
  unfold add_recipients. destruct attendees; [reflexivity |].
  rewrite (bind_run _ _ s (params s) s) by reflexivity.
  destruct (params s !! "to") as [to |]; [| reflexivity].
  destruct (truthy to); simpl; [| reflexivity].
  destruct to; reflexivity.
Qed.

Lemma _infer_attendees_returns command s :
  well_formed (session s) ->
  (_infer_attendees command s).1 = Ok tt.
Proof.
  intros Hwf. unfold _infer_attendees.
  destruct (gather_attendees_returns command s Hwf) as [l Hl].
  rewrite (bind_run _ _ s l s) by exact Hl.
  apply add_recipients_returns.
Qed.

End InferenceReturns.

(** *** Strings *)

Section StringFacts.
Import Py.

Lemma append_cons x (a b : string) : String x a +:+ b = String x (a +:+ b).
Proof. reflexivity. Qed.

Lemma append_assoc (a b c : string) : (a +:+ b) +:+ c = a +:+ (b +:+ c).
Proof.
  induction a as [| x a IH]; [done |]. rewrite !append_cons. by f_equal.
Qed.

Lemma append_empty_r (a : string) : a +:+ "" = a.
Proof.
  induction a as [| x a IH]; [done |]. rewrite append_cons. by f_equal.
Qed.

Lemma startswith_empty_r p : startswith p "" = true -> p = "".
Proof. by destruct p. Qed.

Lemma startswith_append p s : startswith p (p +:+ s) = true.
Proof.
  induction p as [| x p IH]; [done |]. rewrite append_cons. simpl.
  by rewrite Ascii.eqb_refl, IH.
Qed.

Lemma startswith_append_l p s t :
  startswith p s = true -> startswith p (s +:+ t) = true.
Proof.
  revert s. induction p as [| x p IH]; intros s; simpl; [done |].
  destruct s as [| y s]; [done |]. rewrite append_cons. simpl.
  intros [-> H]%andb_true_iff. by rewrite IH.
Qed.

Lemma str_in_empty s : str_in "" s = true.
Proof. by destruct s. Qed.

Lemma str_in_append_l p s t : str_in p s = true -> str_in p (s +:+ t) = true.
Proof.
  induction s as [| y s IH].
  - simpl. rewrite orb_false_r. intros ->%startswith_empty_r.
    apply str_in_empty.
  - intros [H | H]%orb_true_iff; rewrite append_cons; apply orb_true_iff.
    + left. by apply (startswith_append_l p (String y s) t).
    + right. by apply IH.
Qed.

Lemma str_in_append_r p s t : str_in p t = true -> str_in p (s +:+ t) = true.
Proof.
  intros H. induction s as [| y s IH]; [done |].
  rewrite append_cons. simpl. rewrite IH. apply orb_true_r.
Qed.

Lemma str_in_refl p : str_in p p = true.
Proof.
  destruct p as [| x p]; simpl; [done |].
  rewrite Ascii.eqb_refl. simpl.
  pose proof (startswith_append p "") as H. rewrite append_empty_r in H.
  by rewrite H.
Qed.

(** Lower-casing the text keeps the occurrences of a phrase that is in
    lower case already. *)
Lemma startswith_lower p s :
  startswith p s = true -> startswith (lower p) (lower s) = true.
Proof.
  revert s. induction p as [| x p IH]; intros s; simpl; [done |].
  destruct s as [| y s]; simpl; [done |].
  intros [->%Ascii.eqb_eq H]%andb_true_iff.
  by rewrite Ascii.eqb_refl, IH.
Qed.

Lemma str_in_lower p s :
  str_in p s = true -> str_in (lower p) (lower s) = true.
Proof.
  induction s as [| y s IH].
  - simpl. rewrite !orb_false_r. apply (startswith_lower p "").
  - intros [H | H]%orb_true_iff.
    + apply (startswith_lower p (String y s)) in H.
      change (str_in (lower p) (lower (String y s)))
        with (startswith (lower p) (lower (String y s))
              || str_in (lower p) (lower s)).
      by rewrite H.
    + change (str_in (lower p) (lower (String y s)))
        with (startswith (lower p) (lower (String y s))
              || str_in (lower p) (lower s)).
      rewrite (IH H). apply orb_true_r.
Qed.

(** The string functions on the phrases of the tests. *)
Example lower_mixed_case :
  lower "Show IMPORTANT emails" = "show important emails".
Proof. reflexivity. Qed.

Example find_and_slice :
  find "from" "last email from  bob today" = 11
  /\ first_word (strip (drop_str 16 "last email from  bob today")) = "bob"
  /\ find "from" "unread" = -1.
Proof. repeat split. Qed.

Example search_last_n_days :
  search_last_n "day" "mail of the last 12 days and the last 3 days"
    = Some "12"
  /\ search_last_n "day" "mail of the last12 days" = None
  /\ search_last_n "week" "the last   2 weeks" = Some "2"
  /\ search_last_n "month" "last month" = None.
Proof. repeat split. Qed.

Example int_round_trip : str_of_int (int_of_digits 0 "002" * 7) = "14".
Proof. reflexivity. Qed.

End StringFacts.

(** *** Rule 2: the filter tokens *)

Section FilterTokens.
Import Py Session Inference.

Lemma join_prefix q tok : exists rest, join q tok = q +:+ rest.
Proof.
  unfold join. destruct (String.eqb_spec q "") as [-> | _]; by eexists.
Qed.

Lemma joined_prefix toks : forall q,
  exists rest, foldl join q toks = q +:+ rest.
Proof.
  induction toks as [| t toks IH]; intros q; simpl.
  - exists "". by rewrite append_empty_r.
  - destruct (IH (join q t)) as [r1 ->].
    destruct (join_prefix q t) as [r2 ->].
    exists (r2 +:+ r1). apply append_assoc.
Qed.

Lemma str_in_join_l t q tok : str_in t q = true -> str_in t (join q tok) = true.
Proof.
  unfold join. destruct (String.eqb_spec q "") as [-> | _].
  - simpl. rewrite orb_false_r. intros ->%startswith_empty_r.
    apply str_in_empty.
  - apply str_in_append_l.
Qed.

Lemma str_in_join_r q tok : str_in tok (join q tok) = true.
Proof.
  unfold join. destruct (String.eqb q ""); [apply str_in_refl |].
  apply str_in_append_r, (str_in_append_r tok " " tok), str_in_refl.
Qed.

Lemma str_in_joined_l t toks : forall q,
  str_in t q = true -> str_in t (foldl join q toks) = true.
Proof.
  induction toks as [| t' toks IH]; intros q H; simpl; [done |].
  by apply IH, str_in_join_l.
Qed.

Lemma joined_contains toks : forall q,
  Forall (fun tok => str_in tok (foldl join q toks) = true) toks.
Proof.
  induction toks as [| t toks IH]; intros q; simpl; constructor.
  - apply str_in_joined_l, str_in_join_r.
  - apply IH.
Qed.

Lemma filtered_nil : filtered [] (mret tt).
Proof. intros [se p c] q Hq. exists p. done. Qed.

Lemma filtered_one tok : filtered [tok] (add_filter tok).
Proof.
  intros [se p c] q Hq. simpl in Hq. unfold add_filter.
  rewrite (bind_run _ _ _ p (mkState se p c)) by reflexivity.
  unfold query_of in Hq.
  assert (forall v, query_of (<["query" := VStr v]> p) = Some v
                    /\ forall k, k <> "query" ->
                         <["query" := VStr v]> p !! k = p !! k) as Hset.
  { intros v. split.
    - unfold query_of. by rewrite lookup_insert_eq.
    - intros k Hk. by apply lookup_insert_ne. }
  destruct (p !! "query") as [v |] eqn:E.
  - destruct v; try discriminate. injection Hq as ->.
    unfold join. simpl.
    destruct (String.eqb q ""); simpl; eexists; (split; [reflexivity |]);
      apply Hset.
  - injection Hq as <-. eexists. split; [reflexivity |]. apply Hset.
Qed.

Lemma filtered_seq t1 t2 (m1 m2 : M unit) :
  filtered t1 m1 -> filtered t2 m2 -> filtered (t1 ++ t2) (m1 ;; m2).
Proof.
  intros H1 H2 s q Hq.
  destruct (H1 s q Hq) as (p1 & E1 & Q1 & F1).
  destruct (H2 (mkState (session s) p1 (calls s)) _ Q1) as (p2 & E2 & Q2 & F2).
  exists p2. rewrite (bind_run _ _ _ _ _ E1), E2. simpl in *.
  split; [reflexivity |]. split.
  - by rewrite foldl_app.
  - intros k Hk. by rewrite F2, F1.
Qed.

Lemma filtered_if (b : bool) tok :
  filtered (if b then [tok] else []) (if b then add_filter tok else mret tt).
Proof. destruct b; [apply filtered_one | apply filtered_nil]. Qed.

Lemma days_text_value count k d :
  days_text count k = Ok d -> d = str_of_int (int_of_digits 0 count * k).
Proof.
  unfold days_text, py_int, py_str_int.
  destruct (int_max_str_digits <? N.of_nat (String.length count))%N;
    [discriminate |].
  unfold mbind, result_bind. cbv zeta.
  destruct (int_max_str_digits <? _)%N; [discriminate |].
  by intros [= <-].
Qed.

Lemma days_text_error count k e : days_text count k = Raise e -> e = ValueError.
Proof.
  unfold days_text, py_int, py_str_int.
  destruct (int_max_str_digits <? N.of_nat (String.length count))%N;
    [by intros [= <-] |].
  unfold mbind, result_bind. cbv zeta.
  destruct (int_max_str_digits <? _)%N; [by intros [= <-] | discriminate].
Qed.

Lemma add_count_filter_ok count k d s :
  days_text count k = Ok d ->
  add_count_filter count k s = add_filter ("newer_than:" +:+ d +:+ "d") s.
Proof.
  unfold days_text, add_count_filter.
  destruct (py_int count) as [n | e]; [| discriminate].
  unfold mbind at 1, result_bind. intros H.
  rewrite (lift_bind_run _ _ n) by reflexivity. cbv zeta.
  by rewrite (lift_bind_run _ _ d) by exact H.
Qed.

Lemma add_count_filter_raise count k e s :
  days_text count k = Raise e ->
  add_count_filter count k s = (Raise ValueError, s).
Proof.
  intros H. rewrite (days_text_error _ _ _ H) in H. revert H.
  unfold days_text, add_count_filter.
  destruct (py_int count) as [n | e'].
  - unfold mbind at 1, result_bind. intros H.
    rewrite (lift_bind_run _ _ n) by reflexivity. cbv zeta.
    unfold mbind, M_bind, lift. by rewrite H.
  - unfold mbind at 1, result_bind. by intros [= ->].
Qed.

Lemma filtered_count count k :
  converts (Some count) k = true ->
  filtered ["newer_than:" +:+ str_of_int (int_of_digits 0 count * k) +:+ "d"]
           (add_count_filter count k).
Proof.
  unfold converts. destruct (days_text count k) as [d |] eqn:E;
    [intros _ | discriminate].
  intros s q Hq. rewrite (add_count_filter_ok _ _ _ _ E).
  rewrite <- (days_text_value _ _ _ E). by apply filtered_one.
Qed.

Lemma infer_filters_filtered command :
  counts_fit command = true ->
  filtered (filter_tokens command) (infer_filters command).
Proof.
  unfold counts_fit. intros [Hw Hm]%andb_true_iff.
  unfold infer_filters, filter_tokens. cbv zeta.
  apply filtered_seq; [apply filtered_if |].
  apply filtered_seq; [apply filtered_if |].
  apply filtered_seq;
    [destruct (search_last_n "day" command);
       [apply filtered_one | apply filtered_nil] |].
  apply filtered_seq;
    [destruct (search_last_n "week" command);
       [by apply filtered_count | apply filtered_nil] |].
  apply filtered_seq;
    [destruct (search_last_n "month" command);
       [by apply filtered_count | apply filtered_nil] |].
  apply filtered_seq; apply filtered_if.
Qed.

(** A block that raises, after blocks that add their tokens. *)
Lemma raises_after toks (m1 m2 : M unit) e :
  filtered toks m1 ->
  (forall s q, query_of (params s) = Some q -> (m2 s).1 = Raise e) ->
  forall s q, query_of (params s) = Some q -> ((m1;; m2) s).1 = Raise e.
Proof.
  intros H1 H2 s q Hq. destruct (H1 s q Hq) as (p1 & E1 & Q1 & _).
  rewrite (bind_run _ _ _ _ _ E1). by eapply H2.
Qed.

Lemma raises_first {A B} (m : M A) (k : A -> M B) e s :
  (m s).1 = Raise e -> ((m ≫= k) s).1 = Raise e.
Proof.
  unfold mbind, M_bind. destruct (m s) as [[a | e'] s']; [discriminate |].
  simpl. by intros [= ->].
Qed.

Lemma infer_filters_raises command s q :
  counts_fit command = false ->
  query_of (params s) = Some q ->
  (infer_filters command s).1 = Raise ValueError.
Proof.
  unfold counts_fit. intros Hfit. revert s q.
  unfold infer_filters. cbv zeta.
  eapply raises_after; [apply filtered_if |].
  eapply raises_after; [apply filtered_if |].
  apply (raises_after
           match search_last_n "day" command with
           | Some days => ["newer_than:" +:+ days +:+ "d"]
           | None => []
           end);
    [destruct (search_last_n "day" command);
       [apply filtered_one | apply filtered_nil] |].
  destruct (converts (search_last_n "week" command) 7) eqn:Hw.
  - apply (raises_after
             match search_last_n "week" command with
             | Some weeks =>
                 ["newer_than:" +:+ str_of_int (int_of_digits 0 weeks * 7)
                  +:+ "d"]
             | None => []
             end);
      [destruct (search_last_n "week" command);
         [by apply filtered_count | apply filtered_nil] |].
    intros s q _. apply raises_first.
    cbn [andb] in Hfit. unfold converts in Hfit.
    destruct (search_last_n "month" command) as [m |]; [| discriminate].
    destruct (days_text m 30) as [d | e] eqn:E; [discriminate |].
    by rewrite (add_count_filter_raise _ _ _ _ E).
  - intros s q _. apply raises_first. unfold converts in Hw.
    destruct (search_last_n "week" command) as [w |]; [| discriminate].
    destruct (days_text w 7) as [d | e] eqn:E; [discriminate |].
    by rewrite (add_count_filter_raise _ _ _ _ E).
Qed.

Lemma same_params_but_refl K s : same_params_but K s s.
Proof. done. Qed.

Lemma same_params_but_trans K a b c :
  same_params_but K a b -> same_params_but K b c -> same_params_but K a c.
Proof.
  intros (H1 & H2) (H3 & H4). split; [congruence |].
  intros k Hk. rewrite H4, H2; done.
Qed.

Lemma lookup_last_email_run self command s :
  exists s', lookup_last_email self command s = (Ok tt, s')
             /\ same_params_but ["inferred_email"; "email_id"] s s'.
Proof.
  unfold lookup_last_email.
  repeat (match goal with
          | |- context [if ?b then _ else _] => destruct b
          | |- context [match gmail_service self with _ => _ end] =>
              destruct (gmail_service self) as [gmail |]
          end; try (exists s; done)).
  match goal with |- context [try_except ?m] => set (body := m) end.
  assert (keeps (same_params_but ["inferred_email"; "email_id"]) body) as Hk.
  { assert (forall k v, k ∈ ["inferred_email"; "email_id"] ->
              keeps (same_params_but ["inferred_email"; "email_id"])
                    (set_param k v)) as Hset.
    { intros k v Hin st. split; [done |]. simpl.
      intros k' Hk'. apply lookup_insert_ne. intros ->. done. }
    unfold body.
    apply keeps_bind; [apply same_params_but_trans | by intros st |].
    intros emails. destruct (truthy emails);
      [| apply keeps_ret, same_params_but_refl].
    apply keeps_bind;
      [apply same_params_but_trans
      | apply keeps_lift, same_params_but_refl |].
    intros last_email.
    apply keeps_bind;
      [apply same_params_but_trans | apply Hset; set_solver |].
    intros _.
    apply keeps_bind;
      [apply same_params_but_trans
      | apply keeps_lift, same_params_but_refl |].
    intros email_id. apply Hset; set_solver. }
  specialize (Hk s). unfold try_except.
  destruct (body s) as [[[] | e] s']; exists s'; done.
Qed.

End FilterTokens.

Section InferenceRuns.
Import Py Session Inference.

Lemma query_of_ext (p p' : dict) :
  p' !! "query" = p !! "query" -> query_of p' = query_of p.
Proof. unfold query_of. by intros ->. Qed.

Lemma email_intent_cases intent :
  str_in_list intent email_intents = true ->
  intent = "send_email" \/ intent = "read_email"
  \/ intent = "delete_email" \/ intent = "search_email".
Proof.
  unfold str_in_list, email_intents. simpl.
  rewrite orb_false_r, !orb_true_iff, !String.eqb_eq. tauto.
Qed.

Lemma event_intent_cases intent :
  str_in_list intent event_intents = true ->
  intent = "search_event" \/ intent = "update_event"
  \/ intent = "delete_event" \/ intent = "list_events".
Proof.
  unfold str_in_list, event_intents. simpl.
  rewrite orb_false_r, !orb_true_iff, !String.eqb_eq. tauto.
Qed.

Lemma email_intent_not_event intent :
  str_in_list intent email_intents = true ->
  str_in_list intent event_intents = false.
Proof.
  intros H. by destruct (email_intent_cases intent H) as [-> | [-> | [-> | ->]]].
Qed.

(** Two rules followed by [return enhanced_params]. *)
Lemma get_params_result (m1 m2 : M unit) s p :
  ((m1;; m2;; get_params) s).1 = Ok p ->
  p = params ((m1;; m2;; get_params) s).2.
Proof.
  unfold mbind, M_bind, get_params.
  destruct (m1 s) as [[[] | e] s1]; simpl; [| discriminate].
  destruct (m2 s1) as [[[] | e] s2]; simpl; [| discriminate].
  by intros [= <-].
Qed.

Lemma get_params_returns (m1 m2 : M unit) s :
  (m1 s).1 = Ok tt -> (m2 (m1 s).2).1 = Ok tt ->
  exists p, ((m1;; m2;; get_params) s).1 = Ok p.
Proof.
  unfold mbind, M_bind, get_params.
  destruct (m1 s) as [[[] | e] s1]; simpl; [| discriminate]. intros _.
  destruct (m2 s1) as [[[] | e] s2]; simpl; [| discriminate]. by eexists.
Qed.

(** Rule 2 followed by rules 3 and 4, for a mail-class intent: the
    query of what the call returns, that it returns on a well-formed
    session when the counts fit, and that [ValueError] escapes when
    they do not. *)
Lemma infer_parameters_email self ctx command intent parameters q :
  str_in_list intent email_intents = true ->
  query_of parameters = Some q ->
  let out := infer_parameters self ctx command intent parameters in
  (forall p, out.1 = Ok p ->
     query_of p = Some (foldl join q (filter_tokens (lower command))))
  /\ (well_formed ctx \/ reads_no_entity ctx (lower command) = true ->
      counts_fit (lower command) = true ->
      exists p, out.1 = Ok p)
  /\ (counts_fit (lower command) = false -> out.1 = Raise ValueError).
Proof.
  intros Hint Hq. cbv zeta. unfold infer_parameters, infer_body.
  rewrite (email_intent_not_event intent Hint), Hint.
  set (s0 := {| session := ctx; params := parameters; calls := [] |}).
  rewrite (bind_run _ _ s0 tt s0) by reflexivity.
  (* rule 2 *)
  destruct (lookup_last_email_run self (lower command) s0)
    as (s1 & E1 & Hs1 & F1).
  assert (query_of (params s1) = Some q) as Q1.
  { rewrite <- Hq. apply query_of_ext, F1. not_in_keys. }
  destruct (counts_fit (lower command)) eqn:Hfit.
  2: { assert ((_infer_email_params self (lower command) s0).1
               = Raise ValueError) as Hr.
       { unfold _infer_email_params. rewrite (bind_run _ _ _ _ _ E1).
         by eapply infer_filters_raises. }
       pose proof (raises_first (_infer_email_params self (lower command))
                     (fun _ =>
                        (if String.eqb intent "send_email"
                            && str_in "attendees" (lower command)
                         then _infer_attendees (lower command)
                         else mret tt);;
                        _resolve_pronouns (lower command) intent;;
                        get_params) ValueError s0 Hr) as Hout.
       split; [| split].
       - intros p Hp. rewrite Hout in Hp. discriminate.
       - intros _ H. discriminate.
       - intros _. exact Hout. }
  destruct (infer_filters_filtered (lower command) Hfit s1 q Q1)
    as (p2 & E2 & Q2 & F2).
  set (s2 := {| session := session s1; params := p2; calls := calls s1 |}).
  assert (_infer_email_params self (lower command) s0 = (Ok tt, s2)) as E12.
  { unfold _infer_email_params. by rewrite (bind_run _ _ _ _ _ E1). }
  rewrite (bind_run _ _ _ _ _ E12).
  (* rules 3 and 4 *)
  set (rule3 := if String.eqb intent "send_email"
                   && str_in "attendees" (lower command)
                then _infer_attendees (lower command) else mret tt).
  set (rule4 := _resolve_pronouns (lower command) intent).
  assert (touches_only (attendee_keys ++ pronoun_keys) rule3) as T3.
  { unfold rule3. destruct (_ && _); [| apply touches_ret].
    eapply touches_mono; [| apply _infer_attendees_touches].
    by apply list_subseteq_app_l. }
  assert (touches_only (attendee_keys ++ pronoun_keys) rule4) as T4.
  { eapply touches_mono; [| apply _resolve_pronouns_touches].
    by apply list_subseteq_app_r. }
  split; [| split].
  - intros p Hp. rewrite (get_params_result _ _ _ _ Hp).
    rewrite <- Q2. apply query_of_ext.
    assert (touches_only (attendee_keys ++ pronoun_keys)
              (rule3;; rule4;; get_params)) as T.
    { apply touches_bind; [exact T3 | intros _].
      apply touches_bind; [exact T4 | intros _]. apply touches_get_params. }
    destruct (T s2) as (_ & _ & F). apply F.
    unfold attendee_keys, pronoun_keys. simpl. not_in_keys.
  - intros Hquiet _.
    assert (session s2 = ctx) as Hs2 by (simpl; by rewrite Hs1).
    assert (well_formed ctx
            \/ exists c, ctx = Some c
                 /\ str_in "attendees" (lower command) = false
                 /\ bare_pronoun (lower command) = false
                 /\ word_in " them " (lower command)
                    || startswith "them" (lower command) = false)
      as [Hwf | (c & -> & Hatt & Hbare & Hthem)].
    { destruct Hquiet as [Hwf | Hquiet]; [by left |].
      destruct ctx as [c |]; [| left; by intros c [=]].
      right. exists c. cbn in Hquiet.
      apply andb_true_iff in Hquiet as [[H1 H2]%andb_true_iff H3].
      apply negb_true_iff in H1, H2, H3. done. }
    + assert (well_formed (session s2)) as Hwf2 by (by rewrite Hs2).
      assert ((rule3 s2).1 = Ok tt) as R3.
      { unfold rule3. destruct (_ && _); [| reflexivity].
        by apply _infer_attendees_returns. }
      apply get_params_returns; [exact R3 |].
      apply _resolve_pronouns_returns.
      destruct (T3 s2) as (-> & _). exact Hwf2.
    + assert ((rule3 s2).1 = Ok tt) as R3.
      { unfold rule3. by rewrite Hatt, andb_false_r. }
      apply get_params_returns; [exact R3 |].
      unfold rule4, _resolve_pronouns.
      rewrite (bind_run _ _ _ (session (rule3 s2).2) (rule3 s2).2)
        by reflexivity.
      destruct (T3 s2) as (-> & _). rewrite Hs2.
      unfold resolve_it_that_this, resolve_them. by rewrite Hbare, Hthem.
  - discriminate.
Qed.



(** A count of weeks of 4301 digits: the conversion refuses it and the
    call raises. *)
Example weeks_count_too_long :
  let command :=
    "mail of the last " +:+ N.iter 4301 (String "1") "" +:+ " weeks" in
  is_ascii command = true
  /\ counts_fit (lower command) = false
  /\ (infer_parameters (mkEngine None None) None command "search_email" ∅).1
     = Raise ValueError.
Proof.
  cbv zeta.
  assert (counts_fit
            (lower ("mail of the last " +:+ N.iter 4301 (String "1") ""
                    +:+ " weeks")) = false) as Hfit
    by (vm_compute; reflexivity).
  split; [vm_compute; reflexivity |]. split; [exact Hfit |].
  destruct (infer_parameters_email (mkEngine None None) None
              ("mail of the last " +:+ N.iter 4301 (String "1") ""
               +:+ " weeks") "search_email" ∅ "")
    as (_ & _ & Hraise); [reflexivity | reflexivity |].
  exact (Hraise Hfit).
Qed.

End InferenceRuns.

(** *** Rule 1: the next meeting *)

Section NextMeeting.
Import Py Session Inference.

Lemma same_calls_refl s : same_calls s s.
Proof. done. Qed.

Lemma same_calls_trans a b c : same_calls a b -> same_calls b c -> same_calls a c.
Proof. unfold same_calls. congruence. Qed.

(** What follows the lookup in the [try] block of rule 1. *)
Lemma after_lookup_same_calls (events : value) (k : M unit) :
  k = (if truthy events then
         next_event ← lift (py_index events 0);
         _ ← lift (py_get next_event "summary");
         ctx ← get_session;
         (if ctx is Some _
          then set_session_reference "next_meeting" next_event
          else mret tt);;
         set_param "inferred_event" next_event;;
         event_id ← lift (py_get next_event "id");
         set_param "event_id" event_id;;
         summary ← lift (py_get next_event "summary");
         set_param "summary" summary
       else mret tt) ->
  keeps same_calls k.
Proof.
  intros ->.
  assert (forall k v, keeps same_calls (set_param k v)) as Hset by done.
  assert (forall k v, keeps same_calls (set_session_reference k v)) as Href
    by done.
  destruct (truthy events); [| by apply keeps_ret].
  repeat first
    [ apply Hset | apply Href
    | apply keeps_ret; apply same_calls_refl
    | apply keeps_lift; apply same_calls_refl
    | apply keeps_get_session; apply same_calls_refl
    | apply keeps_bind; [apply same_calls_trans | | intros ?]
    | match goal with
      | |- keeps _ (match ?x with _ => _ end) => destruct x
      end ].
Qed.

Lemma lookup_next_meeting_calls self command calendar s :
  str_in "next meeting" command || str_in "upcoming meeting" command = true ->
  calendar_service self = Some calendar ->
  exists s', lookup_next_meeting self command s = (Ok tt, s')
             /\ calls s' = (calls s ++ [list_events 7 1])%list.
Proof.
  intros Hc Hcal. unfold lookup_next_meeting. rewrite Hc, Hcal.
  unfold try_except, mbind at 1, M_bind, lookup.
  destruct (calendar 7 1) as [events | e].
  - match goal with
    | |- context [match ?k ?s1 with _ => _ end] =>
        pose proof (after_lookup_same_calls events k eq_refl s1) as Hk;
        destruct (k s1) as [[[] | e] s']
    end; exists s'; (split; [reflexivity | exact Hk]).
  - eexists. split; reflexivity.
Qed.

Lemma lookup_next_meeting_event self command calendar ev rest s :
  str_in "next meeting" command || str_in "upcoming meeting" command = true ->
  calendar_service self = Some calendar ->
  calendar 7 1 = Ok (VList (VDict ev :: rest)) ->
  lookup_next_meeting self command s = (Ok tt, with_next_meeting ev s).
Proof.
  intros Hc Hcal Hev. unfold lookup_next_meeting. rewrite Hc, Hcal.
  unfold try_except, mbind at 1, M_bind, lookup. rewrite Hev.
  destruct s as [[c |] p cs]; reflexivity.
Qed.

Lemma infer_days_run command s :
  exists s', infer_days command s = (Ok tt, s') /\ same_but ["days"] s s'.
Proof.
  unfold infer_days.
  repeat match goal with
         | |- context [if ?b then _ else _] => destruct b
         end;
    eexists; (split; [reflexivity |]);
    try apply same_but_refl;
    apply (set_param_touches ["days"] "days"); set_solver.
Qed.

Lemma resolve_it_that_this_event ctx command intent s :
  str_in_list intent event_intents = true ->
  resolve_it_that_this ctx command intent s
  = if event_pronoun_applies (Some ctx) command intent
    then resolve_it ctx "last_event" "event_id" "inferred_event" s
    else (Ok tt, s).
Proof.
  intros [-> | [-> | [-> | ->]]]%event_intent_cases;
    unfold resolve_it_that_this, event_pronoun_applies;
    destruct (bare_pronoun command); try reflexivity; simpl;
    unfold resolve_it; destruct (truthy _); reflexivity.
Qed.

Lemma resolve_them_event ctx command intent :
  str_in_list intent event_intents = true ->
  touches_only [] (resolve_them ctx command intent).
Proof.
  intros [-> | [-> | [-> | ->]]]%event_intent_cases;
    unfold resolve_them;
    repeat first
      [ progress simpl
      | apply touches_ret | apply touches_lift
      | apply touches_bind; [| intros ?]
      | match goal with
        | |- touches_only _ (if ?b then _ else _) => destruct b
        | |- touches_only _ (match ?x with _ => _ end) => destruct x
        end ].
Qed.

Lemma same_but_nil_params s s' :
  same_but [] s s' -> forall k, params s' !! k = params s !! k.
Proof. intros (_ & _ & H) k. apply H. by intros ?%elem_of_nil. Qed.

Lemma session_ok_next_meeting c ev :
  session_ok c = true -> event_ok (VDict ev) = true ->
  session_ok (set_references c (<["next_meeting" := VDict ev]> (references c)))
  = true.
Proof.
  intros (H1 & H2 & H3 & H4 & H5)%session_ok_slots Hev.
  unfold session_ok, slot_ok, ref_get, dict_get in *.
  change (references (set_references c ?r)) with r.
  rewrite lookup_insert_eq.
  rewrite !(lookup_insert_ne _ "next_meeting") by discriminate.
  change (default VNone (Some (VDict ev))) with (VDict ev).
  rewrite Hev, H2, H3, H4, orb_true_r. exact H5.
Qed.

End NextMeeting.

Section NextMeetingTheorem.
Import Py Session Inference.

Lemma event_intent_not_email intent :
  str_in_list intent event_intents = true ->
  str_in_list intent email_intents = false
  /\ String.eqb intent "send_email" = false.
Proof.
  intros H. by destruct (event_intent_cases intent H) as [-> | [-> | [-> | ->]]].
Qed.

(** For an event-class intent [infer_parameters] is rule 1 followed by
    rule 4. *)
Lemma infer_parameters_event self ctx command intent parameters :
  str_in_list intent event_intents = true ->
  infer_parameters self ctx command intent parameters
  = (_infer_meeting_params self (lower command);;
     _resolve_pronouns (lower command) intent;;
     get_params) {| session := ctx; params := parameters; calls := [] |}.
Proof.
  intros Hint. unfold infer_parameters, infer_body.
  destruct (event_intent_not_email intent Hint) as [-> ->]. rewrite Hint.
  simpl. unfold mbind, M_bind.
  destruct (_infer_meeting_params self (lower command) _) as [[[] | e] s1];
    reflexivity.
Qed.

Lemma then_get_params (m : M unit) s :
  ((m;; get_params) s).2 = (m s).2
  /\ ((m s).1 = Ok tt -> ((m;; get_params) s).1 = Ok (params (m s).2))
  /\ (forall p, ((m;; get_params) s).1 = Ok p ->
        (m s).1 = Ok tt /\ p = params (m s).2).
Proof.
  unfold mbind, M_bind. destruct (m s) as [[[] | e] s']; simpl;
    (split; [reflexivity |]); (split; [done |]); intros p Hp;
    [by injection Hp as <- | discriminate].
Qed.

Lemma last_event_after_next_meeting c ev :
  ref_get (set_references c (<["next_meeting" := VDict ev]> (references c)))
          "last_event"
  = ref_get c "last_event".
Proof.
  unfold ref_get, dict_get. simpl. by rewrite lookup_insert_ne.
Qed.

(** Rule 4 for an event-class intent on a session [c]: what it has
    done when it returns, and that it returns when [c] is well formed. *)
Lemma _resolve_pronouns_event c command intent s :
  str_in_list intent event_intents = true ->
  session s = Some c ->
  let r := _resolve_pronouns command intent s in
  (r.1 = Ok tt ->
   (event_pronoun_applies (Some c) command intent = false ->
    forall k, params r.2 !! k = params s !! k)
   /\ (event_pronoun_applies (Some c) command intent = true ->
       exists d, ref_get c "last_event" = VDict d
                 /\ params r.2 !! "event_id" = Some (dict_get d "id" VNone)
                 /\ params r.2 !! "inferred_event" = Some (VDict d)))
  /\ (session_ok c = true -> r.1 = Ok tt).
Proof.
  intros Hint Hs. cbv zeta. split.
  - unfold _resolve_pronouns.
    rewrite (bind_run _ _ s (session s) s) by reflexivity. rewrite Hs.
    pose proof (resolve_them_event c command intent Hint) as Hthem.
    unfold mbind, M_bind.
    rewrite (resolve_it_that_this_event c command intent s Hint).
    destruct (event_pronoun_applies (Some c) command intent) eqn:Ea.
    + assert (truthy (ref_get c "last_event") = true) as Ht.
      { simpl in Ea. by apply andb_true_iff in Ea as [_ ?]. }
      unfold resolve_it. rewrite Ht.
      destruct (ref_get c "last_event") as [| | | | | d |] eqn:Er;
        try (simpl; discriminate).
      simpl. intros _. split; [discriminate |]. intros _.
      exists d. split; [reflexivity |].
      match goal with
      | |- context [resolve_them c command intent ?s1] =>
          pose proof (same_but_nil_params _ _ (Hthem s1)) as F'
      end.
      rewrite !F'. simpl. split; [| apply lookup_insert_eq].
      rewrite lookup_insert_ne by discriminate. apply lookup_insert_eq.
    + intros _. split; [| discriminate]. intros _.
      apply same_but_nil_params, Hthem.
  - intros Hok. apply _resolve_pronouns_returns.
    intros c' Hc'. rewrite Hs in Hc'. by injection Hc' as <-.
Qed.




End NextMeetingTheorem.

(** * Further properties *)

(** ** Safety and undo engine *)

Section SafetyMore.
Import Py Safety.

Lemma str_in_list_true s l : str_in_list s l = true <-> In s l.
Proof.
  unfold str_in_list. rewrite existsb_exists. split.
  - intros (x & Hx & ->%String.eqb_eq). exact Hx.
  - intros H. exists s. split; [exact H | apply String.eqb_refl].
Qed.

(** X1: a risk level other than "low" is given to destructive intents
    only; "high" is exactly the three deletions; and three destructive
    intents (move_file, update_event, update_file) are rated "low". *)
Theorem risk_level_and_destructive (intent : string) (parameters : dict) :
  (get_risk_level intent parameters <> "low" -> is_destructive intent = true)
  /\ (get_risk_level intent parameters = "high" <->
      intent = "delete_email" \/ intent = "delete_file"
      \/ intent = "delete_event")
  /\ (is_destructive intent = true ->
      get_risk_level intent parameters = "low" <->
      intent = "move_file" \/ intent = "update_event"
      \/ intent = "update_file").
Proof.
  unfold get_risk_level, is_destructive, destructive_intents, str_in_list.
  simpl existsb.
  repeat match goal with
         | |- context [String.eqb intent ?s] =>
             destruct (String.eqb_spec intent s) as [-> | ?]; simpl
         end;
    repeat split; intros; try discriminate; try congruence;
    intuition (try discriminate; try congruence).
Qed.

Lemma risk_level_and_destructive_witness :
  is_destructive "delete_file" = true.
Proof.
  apply (proj1 (risk_level_and_destructive "delete_file" ∅)).
  discriminate.
Defined.

Lemma removelast_shorter {A} (l : list A) :
  (length (removelast l) <= length l)%nat.
Proof.
  induction l as [| x [| y l] IH]; simpl in *; lia.
Qed.

Lemma undo_stack_record_call self c :
  undo_stack (record_call self c)
  = if (max_undo_actions self <? length (undo_stack self ++ [action_of c]))%nat
    then drop 1 (undo_stack self ++ [action_of c])
    else (undo_stack self ++ [action_of c])%list.
Proof. reflexivity. Qed.

Lemma mutate_bounded self m :
  max_undo_actions self = 10%nat ->
  (length (undo_stack self) <= 10)%nat ->
  max_undo_actions (mutate self m) = 10%nat
  /\ (length (undo_stack (mutate self m)) <= 10)%nat.
Proof.
  intros Hmax Hlen. destruct m as [c | | | b].
  - split; [exact Hmax |]. unfold mutate.
    rewrite undo_stack_record_call, Hmax.
    destruct (Nat.ltb_spec 10 (length (undo_stack self ++ [action_of c])))
      as [H | H]; [| exact H].
    rewrite length_drop, length_app. simpl. lia.
  - unfold mutate, pop_last_action.
    destruct (undo_stack self) as [| x l] eqn:E.
    + cbn [snd]. rewrite E. split; [exact Hmax | simpl; lia].
    + cbn [snd undo_stack max_undo_actions]. split; [exact Hmax |].
      etransitivity; [apply removelast_shorter | exact Hlen].
  - simpl. split; [exact Hmax | lia].
  - simpl. split; [exact Hmax | exact Hlen].
Qed.

(** X2: whatever sequence of [record_action], [pop_last_action],
    [clear_undo_stack] and [set_dry_run] is applied to a fresh manager,
    its undo stack never holds more than 10 actions, and every
    [UndoAction] on it was recorded by one of the calls. *)
Theorem undo_stack_bounded_under_mutations (dry : bool)
    (ms : list mutation) :
  let self := foldl mutate (init dry) ms in
  (length (get_undo_stack self) <= 10)%nat
  /\ max_undo_actions self = 10%nat
  /\ forall a, In a (get_undo_stack self) ->
       exists c, In (DoRecord c) ms /\ a = action_of c.
Proof.
  cbv zeta. unfold get_undo_stack.
  assert (forall ms self,
            max_undo_actions self = 10%nat ->
            (length (undo_stack self) <= 10)%nat ->
            max_undo_actions (foldl mutate self ms) = 10%nat
            /\ (length (undo_stack (foldl mutate self ms)) <= 10)%nat)
    as Hbound.
  { clear. induction ms as [| m ms IH]; intros self Hmax Hlen; simpl;
      [done |].
    destruct (mutate_bounded self m Hmax Hlen) as [H1 H2]. by apply IH. }
  assert (forall ms self a,
            In a (undo_stack (foldl mutate self ms)) ->
            In a (undo_stack self)
            \/ exists c, In (DoRecord c) ms /\ a = action_of c) as Hfrom.
  { clear. induction ms as [| m ms IH]; intros self a Ha; simpl in *;
      [by left |].
    destruct (IH _ _ Ha) as [H | (c & Hc & ->)];
      [| right; exists c; split; [by right | done]].
    destruct m as [c | | | b]; simpl in H.
    - change (In a (undo_stack (record_call self c))) in H.
      rewrite undo_stack_record_call in H.
      assert (In a (undo_stack self ++ [action_of c])) as Hin.
      { destruct (_ <? _)%nat; [| exact H].
        apply list_elem_of_In. apply list_elem_of_In in H.
        apply (subseteq_drop 1). exact H. }
      apply in_app_or in Hin as [Hin | [<- | []]]; [by left |].
      right. exists c. split; [by left | done].
    - left. unfold pop_last_action in H.
      destruct (undo_stack self) as [| x l] eqn:E; simpl in H.
      + by rewrite E in H.
      + clear E. revert x H. induction l as [| y l IHl]; intros x H.
        * destruct H.
        * destruct H as [<- | H]; [by left |]. right. by apply IHl.
    - destruct H.
    - by left. }
  destruct (Hbound ms (init dry) eq_refl) as [H1 H2]; [simpl; lia |].
  split; [exact H2 |]. split; [exact H1 |].
  intros a Ha. destruct (Hfrom ms (init dry) a Ha) as [[] | H]. exact H.
Qed.

(** X3: on a manager with room for at least one action, right after
    [record_action] the new action is the last one, it can be undone by
    its type, [pop_last_action] returns it, and the pop leaves the old
    stack, less its oldest action when the old stack was full. *)
Theorem record_then_pop (self : SafetyManager) (now : Z) (t : ActionType)
    (resource_id service : string) (details : dict)
    (undo_data : option dict) :
  (0 < max_undo_actions self)%nat ->
  let action := mkUndoAction t now resource_id details service undo_data in
  let self' := record_action self now t resource_id service details
                             undo_data in
  get_last_action self' = Some action
  /\ can_undo self' None = true
  /\ can_undo self' (Some t) = true
  /\ (pop_last_action self').1 = Some action
  /\ undo_stack (pop_last_action self').2
     = if (max_undo_actions self <=? length (undo_stack self))%nat
       then drop 1 (undo_stack self) else undo_stack self.
Proof.
  intros Hmax. cbv zeta.
  set (a := mkUndoAction t now resource_id details service undo_data).
  set (old := if (max_undo_actions self <=? length (undo_stack self))%nat
              then drop 1 (undo_stack self) else undo_stack self).
  assert (undo_stack (record_action self now t resource_id service details
                        undo_data) = (old ++ [a])%list) as E.
  { unfold record_action, old. simpl. fold a.
    rewrite length_app. simpl.
    destruct (Nat.leb_spec (max_undo_actions self) (length (undo_stack self)))
      as [H | H].
    - destruct (Nat.ltb_spec (max_undo_actions self)
                  (length (undo_stack self) + 1)) as [_ | H']; [| lia].
      destruct (undo_stack self) as [| x l]; [simpl in H; lia |].
      reflexivity.
    - destruct (Nat.ltb_spec (max_undo_actions self)
                  (length (undo_stack self) + 1)) as [H' | _]; [lia |].
      reflexivity. }
  unfold get_last_action, can_undo, pop_last_action. rewrite E.
  assert (exists x l, (old ++ [a])%list = x :: l) as (x & l & Ex).
  { destruct old; simpl; eauto. }
  rewrite Ex. rewrite <- Ex. simpl.
  rewrite last_snoc, existsb_app, removelast_last. simpl.
  rewrite bool_decide_eq_true_2 by reflexivity.
  rewrite orb_true_r. done.
Qed.

Lemma record_then_pop_witness :
  (pop_last_action
     (record_action (init false) 7 DELETE_EMAIL "m1" "gmail" ∅ None)).1
  = Some (mkUndoAction DELETE_EMAIL 7 "m1" ∅ "gmail" None).
Proof.
  apply (record_then_pop (init false) 7 DELETE_EMAIL "m1" "gmail" ∅ None).
  simpl. lia.
Defined.

End SafetyMore.

(** ** Session memory and the reference resolver *)

Section SessionMore.
Import Py Session.

Lemma drop_all_but_one {A} (l : list A) :
  drop (length l - 1) l = option_list (last l).
Proof.
  induction l as [| x [| y l] IH]; try reflexivity.
  change (last (x :: y :: l)) with (last (y :: l)). rewrite <- IH.
  simpl. by rewrite Nat.sub_0_r.
Qed.

(** X4: [get_last_n_commands n] returns the last [n] records (all of
    them when there are fewer) for [n >= 1]; for [n = 0] it returns the
    whole history, not the empty list; for a negative [n] it drops the
    first [-n] records; and for [n = 1] it is the last command alone. *)
Theorem get_last_n_commands_slices (self : SessionContext) (n : Z) :
  (0 < n ->
   get_last_n_commands self n
   = drop (length (history self) - Z.to_nat n) (history self))
  /\ get_last_n_commands self 0 = history self
  /\ (n < 0 -> get_last_n_commands self n = drop (Z.to_nat (- n)) (history self))
  /\ get_last_n_commands self 1 = option_list (get_last_command self).1.
Proof.
  unfold get_last_n_commands, slice_from, get_last_command.
  cbn [fst].
  destruct (history self) as [| c h] eqn:E.
  - repeat split; intros; by rewrite ?drop_nil.
  - repeat split.
    + intros Hn. destruct (Z.ltb_spec (- n) 0) as [_ | H]; [| lia].
      f_equal. lia.
    + intros Hn. destruct (Z.ltb_spec (- n) 0) as [H | _]; [lia |].
      reflexivity.
    + rewrite <- drop_all_but_one.
      change (- 1 <? 0) with true. cbv iota. f_equal. lia.
Qed.

Lemma get_last_n_commands_slices_witness :
  get_last_n_commands
    (add_all (init "s" 0)
       [mkCall 1 "a" "gmail" "search_email" ∅ VNone true None;
        mkCall 2 "b" "drive" "search_file" ∅ VNone true None;
        mkCall 3 "c" "gmail" "send_email" ∅ VNone true None]) 2
  = [mkCommandResult "b" 2 "drive" "search_file" ∅ VNone true None;
     mkCommandResult "c" 3 "gmail" "send_email" ∅ VNone true None].
Proof.
  refine (eq_trans
            (proj1 (get_last_n_commands_slices _ 2) _) _);
    [lia | reflexivity].
Defined.

(** X5: a command that failed, or whose result is empty or null, leaves
    every reference alone except "last_command" and the slot of its
    service; its record is still appended to the history. *)
Theorem failed_command_keeps_entities (self : SessionContext) (now : Z)
    (command service intent : string) (parameters : dict) (result : value)
    (success : bool) (error : option string) (k : string) :
  success = false \/ truthy result = false ->
  k <> "last_command" -> k <> command_key service ->
  let self' := add_command self now command service intent parameters
                           result success error in
  references self' !! k = references self !! k
  /\ history self'
     = (history self
        ++ [mkCommandResult command now service intent parameters result
                            success error])%list.
Proof.
  intros Hfail Hk1 Hk2. cbv zeta.
  unfold add_command, _update_references, set_references.
  cbn [references history Py.success Py.result_ Py.service].
  assert (success && truthy result = false) as ->.
  { destruct Hfail as [-> | ->]; [reflexivity | apply andb_false_r]. }
  split; [| reflexivity].
  rewrite lookup_insert_ne by congruence.
  apply lookup_insert_ne. unfold command_key in Hk2. congruence.
Qed.

Lemma failed_command_keeps_entities_witness :
  references
    (add_command
       (add_command (init "s" 0) 1 "find mail" "gmail" "search_email" ∅
          (VList [VStr "m1"]) true None)
       2 "find mail again" "gmail" "search_email" ∅ (VList []) true None)
    !! "last_email" = Some (VStr "m1").
Proof.
  refine (eq_trans
            (proj1 (failed_command_keeps_entities _ 2 "find mail again"
                      "gmail" "search_email" ∅ (VList []) true None
                      "last_email" _ _ _)) _);
    [right; reflexivity | discriminate | discriminate | reflexivity].
Defined.

Lemma length_append (a b : string) :
  String.length (a +:+ b) = (String.length a + String.length b)%nat.
Proof.
  induction a as [| x a IH]; [reflexivity |].
  rewrite append_cons. simpl. by rewrite IH.
Qed.

Lemma append_empty_l (b : string) : "" +:+ b = b.
Proof. reflexivity. Qed.

Lemma append_inj_r (t : string) : forall s s', s +:+ t = s' +:+ t -> s = s'.
Proof.
  induction s as [| x s IH]; intros [| y s'] H; try reflexivity.
  - apply (f_equal String.length) in H.
    rewrite append_cons, append_empty_l in H. simpl in H.
    rewrite length_append in H. lia.
  - apply (f_equal String.length) in H.
    rewrite append_cons, append_empty_l in H. simpl in H.
    rewrite length_append in H. lia.
  - rewrite !append_cons in H. injection H as -> H. f_equal. by apply IH.
Qed.

Lemma command_key_inj s s' : command_key s = command_key s' -> s = s'.
Proof.
  unfold command_key. intros H.
  rewrite !append_cons, !append_empty_l in H. injection H as H.
  by apply append_inj_r in H.
Qed.

Lemma ends_with_append t s : ends_with t (s +:+ t) = true.
Proof.
  induction s as [| c s IH].
  - rewrite append_empty_l.
    destruct t as [| c t]; [reflexivity |].
    cbn [ends_with]. by rewrite String.eqb_refl.
  - rewrite append_cons. cbn [ends_with]. rewrite IH. apply orb_true_r.
Qed.

Lemma command_key_named service k :
  In k named_keys -> command_key service <> k.
Proof.
  unfold command_key. intros Hk H.
  assert (ends_with "_command" k = true) as He.
  { rewrite <- H, <- append_assoc. apply ends_with_append. }
  assert (13 <= String.length k)%nat as Hl.
  { rewrite <- H, !length_append. simpl. lia. }
  unfold named_keys in Hk. simpl in Hk.
  repeat (destruct Hk as [<- | Hk];
          [first [discriminate He | simpl in Hl; lia] |]).
  destruct Hk.
Qed.

(** X6: after [add_command] the slot "last_<service>_command" of the
    command's service holds the new record, and the slot of every other
    service is as it was. *)
Theorem service_slots_independent (self : SessionContext) (now : Z)
    (command service intent : string) (parameters : dict) (result : value)
    (success : bool) (error : option string) :
  let self' := add_command self now command service intent parameters
                           result success error in
  references self' !! command_key service
    = Some (VCmd (mkCommandResult command now service intent parameters
                                  result success error))
  /\ forall other, other <> service ->
       references self' !! command_key other
       = references self !! command_key other.
Proof.
  cbv zeta. unfold add_command, _update_references, set_references.
  cbn [references history Py.success Py.result_ Py.service Py.intent].
  assert (forall s k, In k named_keys -> k <> command_key s) as Hne.
  { intros s k Hk E. by apply (command_key_named s k). }
  split.
  - repeat match goal with
           | |- context [if ?b then _ else _] => destruct b
           | |- context [match first_of_list ?v with _ => _ end] =>
               destruct (first_of_list v)
           end;
      repeat (rewrite lookup_insert_ne
                by (apply Hne; unfold named_keys; simpl; tauto));
      apply lookup_insert_eq.
  - intros other Hother.
    assert (command_key service <> command_key other) as Hk.
    { intros E. apply Hother. symmetry. by apply command_key_inj. }
    repeat match goal with
           | |- context [if ?b then _ else _] => destruct b
           | |- context [match first_of_list ?v with _ => _ end] =>
               destruct (first_of_list v)
           end;
      repeat (rewrite lookup_insert_ne
                by (apply Hne; unfold named_keys; simpl; tauto));
      by rewrite lookup_insert_ne.
Qed.

(** *** The rules of [resolve_reference], one by one *)

Lemma email_phrase_split t :
  email_phrase t
  = any_in ["that email"; "the email"; "this email"] t
    || str_in "last email" t.
Proof. reflexivity. Qed.

Lemma resolve_reference_phrases (self : SessionContext) (text : string) :
  let t := lower text in
  let ref k := dict_get (references self) k VNone in
  let r := (resolve_reference text self).1 in
  (email_phrase t = true -> r = (Some "email", ref "last_email"))
  /\ (email_phrase t = false -> meeting_phrase t = true ->
      r = (Some "event", ref "last_event"))
  /\ (email_phrase t = false -> meeting_phrase t = false ->
      next_meeting_phrase t = true ->
      r = (Some "event", ref "next_meeting"))
  /\ (email_phrase t = false -> meeting_phrase t = false ->
      next_meeting_phrase t = false -> file_phrase t = true ->
      r = (Some "file", ref "last_file")).
Proof.
  cbv zeta.
  unfold email_phrase, meeting_phrase, next_meeting_phrase, file_phrase,
    resolve_reference.
  repeat split; intros;
    repeat match goal with
           | H : _ || _ = false |- _ => apply orb_false_iff in H as [? ?]
           | H : ?b = false |- context [if ?b then _ else _] => rewrite H
           | H : ?b = true |- context [if ?b then _ else _] => rewrite H
           end;
    repeat (match goal with
            | |- context [if ?b then _ else _] => destruct b eqn:?
            end; try discriminate);
    reflexivity.
Qed.

(** When no phrase rule matches, the answer is that of the pronoun rule,
    else of "first", else of "second", else the pair of nulls. *)
Lemma resolve_reference_no_phrase (self : SessionContext) (text : string) :
  let t := lower text in
  no_phrase t = true ->
  (resolve_reference text self).1
  = match (resolve_pronoun t self).1 with
    | Some a => a
    | None =>
        match (resolve_position
                 (str_in "first one" t || str_in "first" t) 0 self).1 with
        | Some a => a
        | None =>
            match (resolve_position
                     (str_in "second one" t || str_in "second" t) 1 self).1
            with
            | Some a => a
            | None => (None, VNone)
            end
        end
    end.
Proof.
  cbv zeta. unfold no_phrase, email_phrase, meeting_phrase,
    next_meeting_phrase, file_phrase.
  rewrite !andb_true_iff, !negb_true_iff, orb_false_iff.
  intros [[[[H1 H2] H3] H4] H5].
  unfold resolve_reference. rewrite H1, H2, H3, H4, H5.
  unfold mbind, St_bind.
  pose proof (resolve_pronoun_pure (lower text) self) as P1.
  destruct (resolve_pronoun (lower text) self) as [[a |] s1];
    simpl in P1; subst s1; [reflexivity |]. cbn [fst].
  match goal with
  | |- context [resolve_position ?b 0 self] =>
      pose proof (resolve_position_pure b 0 self) as P2;
      destruct (resolve_position b 0 self) as [[a |] s2]
  end; simpl in P2; subst s2; [reflexivity |]. cbn [fst].
  match goal with
  | |- context [resolve_position ?b 1 self] =>
      pose proof (resolve_position_pure b 1 self) as P3;
      destruct (resolve_position b 1 self) as [[a |] s3]
  end; simpl in P3; subst s3; reflexivity.
Qed.

Lemma bare_pronoun_no_phrase t :
  is_bare_pronoun t = true -> no_phrase t = true.
Proof.
  unfold is_bare_pronoun, str_in_list. simpl.
  rewrite orb_false_r, !orb_true_iff, !String.eqb_eq.
  intros [-> | [-> | ->]]; reflexivity.
Qed.

Lemma resolve_pronoun_last (self : SessionContext) (t : string) c :
  is_bare_pronoun t = true -> last (history self) = Some c ->
  (resolve_pronoun t self).1
  = if String.eqb (Py.service c) "gmail"
    then Some (Some "email", dict_get (references self) "last_email" VNone)
    else if String.eqb (Py.service c) "calendar"
    then Some (Some "event", dict_get (references self) "last_event" VNone)
    else if String.eqb (Py.service c) "drive"
    then Some (Some "file", dict_get (references self) "last_file" VNone)
    else None.
Proof.
  intros Ht Hc. unfold resolve_pronoun, is_bare_pronoun in *. rewrite Ht.
  unfold mbind, St_bind. rewrite get_last_command_run, Hc.
  repeat (match goal with
          | |- context [if ?b then _ else _] => destruct b
          end; try reflexivity).
Qed.

Lemma history_add_command_last self c :
  last (history (add_call self c)) = Some (record_of c).
Proof. rewrite history_add_call. apply last_snoc. Qed.

(** X7: what a successful search stores, the resolver finds.  After a
    successful [add_command] whose result is a non-empty list, a mail
    phrase or a bare pronoun resolves to the first mail found (service
    gmail, intent search_email), a meeting phrase or a bare pronoun to
    the first event (calendar, list_events or search_event), a file
    phrase or a bare pronoun to the first file (drive, search_file). *)
Theorem search_then_resolve (self : SessionContext) (c : call)
    (x : value) (l : list value) (text : string) :
  c_success c = true -> c_result c = VList (x :: l) ->
  let t := lower text in
  let r := (resolve_reference text (add_call self c)).1 in
  (c_service c = "gmail" -> c_intent c = "search_email" ->
   email_phrase t = true \/ is_bare_pronoun t = true ->
   r = (Some "email", x))
  /\ (c_service c = "calendar" ->
      c_intent c = "list_events" \/ c_intent c = "search_event" ->
      email_phrase t = false ->
      meeting_phrase t = true \/ next_meeting_phrase t = true
      \/ is_bare_pronoun t = true ->
      r = (Some "event", x))
  /\ (c_service c = "drive" -> c_intent c = "search_file" ->
      email_phrase t = false -> meeting_phrase t = false ->
      next_meeting_phrase t = false ->
      file_phrase t = true \/ is_bare_pronoun t = true ->
      r = (Some "file", x)).
Proof.
  intros Hs Hr. cbv zeta.
  destruct (resolve_reference_phrases (add_call self c) text)
    as (E1 & E2 & E3 & E4).
  pose proof (resolve_reference_no_phrase (add_call self c) text) as Enp.
  cbv zeta in E1, E2, E3, E4, Enp.
  pose proof (fun H => resolve_pronoun_last (add_call self c) (lower text)
                         _ H (history_add_command_last self c)) as Ep.
  destruct c as [now cmd service intent params result success error].
  simpl in Hs, Hr. subst success result.
  cbn [record_of Py.service c_service c_intent c_command c_now c_parameters
       c_result c_success c_error] in *.
  split; [| split].
  - intros -> -> Ht.
    assert (dict_get
              (references
                 (add_call self
                    (mkCall now cmd "gmail" "search_email" params
                       (VList (x :: l)) true error))) "last_email" VNone = x)
      as Hx.
    { unfold dict_get, add_call, add_command, _update_references. simpl.
      by rewrite lookup_insert_eq. }
    destruct (email_phrase (lower text)) eqn:Ee.
    + rewrite (E1 eq_refl). f_equal. exact Hx.
    + destruct Ht as [Ht | Ht]; [discriminate |].
      rewrite (Enp (bare_pronoun_no_phrase _ Ht)), (Ep Ht).
      etransitivity; [reflexivity | f_equal; exact Hx].
  - intros -> Hi He Ht.
    assert (dict_get
              (references
                 (add_call self
                    (mkCall now cmd "calendar" intent params
                       (VList (x :: l)) true error))) "last_event" VNone = x
            /\ dict_get
                 (references
                    (add_call self
                       (mkCall now cmd "calendar" intent params
                          (VList (x :: l)) true error))) "next_meeting" VNone
               = x) as [Hx Hy].
    { unfold dict_get, add_call, add_command, _update_references.
      destruct Hi as [-> | ->]; simpl;
        rewrite lookup_insert_eq;
        (rewrite lookup_insert_ne by discriminate);
        by rewrite lookup_insert_eq. }
    destruct (meeting_phrase (lower text)) eqn:Em.
    + rewrite (E2 He eq_refl). f_equal. exact Hx.
    + destruct (next_meeting_phrase (lower text)) eqn:En.
      * rewrite (E3 He eq_refl eq_refl). f_equal. exact Hy.
      * destruct Ht as [Ht | [Ht | Ht]]; try discriminate.
        rewrite (Enp (bare_pronoun_no_phrase _ Ht)), (Ep Ht).
        etransitivity; [reflexivity | f_equal; exact Hx].
  - intros -> -> He Hm Hn Ht.
    assert (dict_get
              (references
                 (add_call self
                    (mkCall now cmd "drive" "search_file" params
                       (VList (x :: l)) true error))) "last_file" VNone = x)
      as Hx.
    { unfold dict_get, add_call, add_command, _update_references. simpl.
      by rewrite lookup_insert_eq. }
    destruct (file_phrase (lower text)) eqn:Ef.
    + rewrite (E4 He Hm Hn eq_refl). f_equal. exact Hx.
    + destruct Ht as [Ht | Ht]; [discriminate |].
      rewrite (Enp (bare_pronoun_no_phrase _ Ht)), (Ep Ht).
      etransitivity; [reflexivity | f_equal; exact Hx].
Qed.

Lemma search_then_resolve_witness :
  (resolve_reference "Open THAT email"
     (add_call (init "s" 0)
        (mkCall 1 "find mail" "gmail" "search_email" ∅
           (VList [VStr "m1"; VStr "m2"]) true None))).1
  = (Some "email", VStr "m1").
Proof.
  apply (proj1 (search_then_resolve (init "s" 0)
                  (mkCall 1 "find mail" "gmail" "search_email" ∅
                     (VList [VStr "m1"; VStr "m2"]) true None)
                  (VStr "m1") [VStr "m2"] "Open THAT email"
                  eq_refl eq_refl)); [reflexivity | reflexivity |].
  left. reflexivity.
Defined.

Lemma startswith_append_inv p q : forall s,
  startswith (p +:+ q) s = true -> startswith p s = true.
Proof.
  induction p as [| x p IH]; intros s; [reflexivity |].
  rewrite append_cons. destruct s as [| y s]; simpl; [done |].
  intros [-> H]%andb_true_iff. by rewrite (IH s H).
Qed.

Lemma str_in_append_inv p q s :
  str_in (p +:+ q) s = true -> str_in p s = true.
Proof.
  induction s as [| y s IH]; cbn [str_in].
  - rewrite !orb_false_r. apply startswith_append_inv.
  - intros [H | H]%orb_true_iff.
    + by rewrite (startswith_append_inv p q _ H).
    + rewrite (IH H). apply orb_true_r.
Qed.

Lemma resolve_pronoun_not_bare (self : SessionContext) (t : string) :
  is_bare_pronoun t = false -> (resolve_pronoun t self).1 = None.
Proof.
  intros Ht. unfold resolve_pronoun, is_bare_pronoun in *. by rewrite Ht.
Qed.

Lemma resolve_position_last (self : SessionContext) (i : nat) c :
  last (history self) = Some c ->
  (resolve_position true i self).1
  = match result_ c with
    | VList l =>
        match l !! i with
        | Some x => Some (Some (Py.service c), x)
        | None => None
        end
    | _ => None
    end.
Proof.
  intros Hc. unfold resolve_position, mbind, St_bind.
  rewrite get_last_command_run, Hc.
  destruct (result_ c) as [| b | n | s | l | d | c'] eqn:E; cbn [truthy];
    try (destruct l as [| x l]);
    repeat (match goal with
            | |- context [if ?b then _ else _] => destruct b
            end);
    try reflexivity.
  destruct ((x :: l) !! i); reflexivity.
Qed.

(** X8: positional references.  When no phrase rule matches and the
    text is not a bare pronoun, a text with "first" resolves to the
    first element of the last command's result list, and one with
    "second" (and no "first") to its second element; the kind returned
    is the name of the last command's service; the command need not have
    succeeded; and a list that is too short resolves to the pair of
    nulls. *)
Theorem positional_reference (self : SessionContext) (c : call)
    (l : list value) (text : string) :
  let t := lower text in
  let r := (resolve_reference text (add_call self c)).1 in
  no_phrase t = true -> is_bare_pronoun t = false ->
  c_result c = VList l ->
  (str_in "first" t = true ->
   forall x, l !! 0%nat = Some x -> r = (Some (c_service c), x))
  /\ (str_in "first" t = false -> str_in "second" t = true ->
      forall y, l !! 1%nat = Some y -> r = (Some (c_service c), y))
  /\ (str_in "first" t = false -> str_in "second" t = true ->
      l !! 1%nat = None -> r = (None, VNone))
  /\ (str_in "first" t = true -> str_in "second" t = false ->
      l = [] -> r = (None, VNone)).
Proof.
  cbv zeta. intros Hnp Hbare Hl.
  rewrite (resolve_reference_no_phrase _ _ Hnp).
  rewrite (resolve_pronoun_not_bare _ _ Hbare).
  pose proof (history_add_command_last self c) as Hlast.
  pose proof (resolve_position_last _ 0 _ Hlast) as P0.
  pose proof (resolve_position_last _ 1 _ Hlast) as P1.
  assert (forall a b, str_in a (lower text) || b = false -> b = false)
    as Hor by (intros a b H; by apply orb_false_iff in H as [_ ?]).
  assert (str_in "first one" (lower text) = true ->
          str_in "first" (lower text) = true) as Hf1
    by apply (str_in_append_inv "first" " one").
  assert (str_in "second one" (lower text) = true ->
          str_in "second" (lower text) = true) as Hf2
    by apply (str_in_append_inv "second" " one").
  assert (result_ (record_of c) = VList l) as Hres by exact Hl.
  rewrite Hres in P0, P1.
  repeat split.
  - intros Hf x Hx. rewrite Hf, orb_true_r, P0, Hx. reflexivity.
  - intros Hf Hsec y Hy.
    assert (str_in "first one" (lower text) = false) as ->
      by (destruct (str_in "first one" (lower text)) eqn:E;
          [by rewrite (Hf1 eq_refl) in Hf | done]).
    rewrite Hf. cbn [orb resolve_position mret St_ret fst].
    rewrite Hsec, orb_true_r, P1, Hy. reflexivity.
  - intros Hf Hsec Hy.
    assert (str_in "first one" (lower text) = false) as ->
      by (destruct (str_in "first one" (lower text)) eqn:E;
          [by rewrite (Hf1 eq_refl) in Hf | done]).
    rewrite Hf. cbn [orb resolve_position mret St_ret fst].
    rewrite Hsec, orb_true_r, P1, Hy. reflexivity.
  - intros Hf Hsec ->. rewrite Hf, orb_true_r, P0. cbn [lookup].
    assert (str_in "second one" (lower text) = false) as ->
      by (destruct (str_in "second one" (lower text)) eqn:E;
          [by rewrite (Hf2 eq_refl) in Hsec | done]).
    rewrite Hsec. reflexivity.
Qed.

Lemma positional_reference_witness :
  (resolve_reference "open the second one"
     (add_call (init "s" 0)
        (mkCall 1 "find files" "drive" "search_file" ∅
           (VList [VStr "f1"; VStr "f2"]) false (Some "partial")))).1
  = (Some "drive", VStr "f2").
Proof.
  destruct (positional_reference (init "s" 0)
              (mkCall 1 "find files" "drive" "search_file" ∅
                 (VList [VStr "f1"; VStr "f2"]) false (Some "partial"))
              [VStr "f1"; VStr "f2"] "open the second one")
    as (_ & H & _); [reflexivity | reflexivity | reflexivity |].
  apply H; reflexivity.
Defined.

Lemma resolve_pronoun_shape (self : SessionContext) (t : string) :
  (resolve_pronoun t self).1 = None
  \/ exists k e, (resolve_pronoun t self).1 = Some (Some k, e)
                 /\ In k ["email"; "event"; "file"]
                 /\ is_Some (last (history self)).
Proof.
  unfold resolve_pronoun.
  destruct (str_in_list t _); [| by left].
  unfold mbind, St_bind. rewrite get_last_command_run.
  destruct (last (history self)) as [c |]; [| by left].
  repeat (match goal with
          | |- context [if ?b then _ else _] => destruct b
          end);
    try (by left);
    right; eexists _, _; (split; [reflexivity |]); simpl; eauto.
Qed.

Lemma resolve_position_shape (self : SessionContext) (b : bool) (i : nat) :
  (resolve_position b i self).1 = None
  \/ exists c l x, (resolve_position b i self).1
                    = Some (Some (Py.service c), x)
                   /\ last (history self) = Some c
                   /\ result_ c = VList l /\ l !! i = Some x.
Proof.
  destruct b; [| by left].
  destruct (last (history self)) as [c |] eqn:Ec.
  - rewrite (resolve_position_last self i c Ec).
    destruct (result_ c) as [| | | | l | |] eqn:Er; try by left.
    destruct (l !! i) as [x |] eqn:El; [| by left].
    right. by exists c, l, x.
  - left. unfold resolve_position, mbind, St_bind.
    by rewrite get_last_command_run, Ec.
Qed.

(** X9: the shape of what [resolve_reference] returns.  A null kind
    comes with a null entity; a kind is "email", "event" or "file", or
    else the service name of the last command, and then the entity is
    the first or second element of that command's result list. *)
Theorem resolve_reference_shape (self : SessionContext) (text : string) :
  let r := (resolve_reference text self).1 in
  (r.1 = None -> r.2 = VNone)
  /\ forall k, r.1 = Some k ->
       In k ["email"; "event"; "file"]
       \/ exists c l i, last (history self) = Some c
                       /\ k = Py.service c /\ result_ c = VList l
                       /\ (i < 2)%nat /\ l !! i = Some r.2.
Proof.
  cbv zeta.
  destruct (resolve_reference_phrases self text) as (E1 & E2 & E3 & E4).
  pose proof (resolve_reference_no_phrase self text) as Enp.
  cbv zeta in E1, E2, E3, E4, Enp. unfold no_phrase in Enp.
  destruct (email_phrase (lower text));
    [rewrite (E1 eq_refl); split; [discriminate |];
     intros k [= <-]; left; simpl; tauto |].
  destruct (meeting_phrase (lower text));
    [rewrite (E2 eq_refl eq_refl); split; [discriminate |];
     intros k [= <-]; left; simpl; tauto |].
  destruct (next_meeting_phrase (lower text));
    [rewrite (E3 eq_refl eq_refl eq_refl); split; [discriminate |];
     intros k [= <-]; left; simpl; tauto |].
  destruct (file_phrase (lower text));
    [rewrite (E4 eq_refl eq_refl eq_refl eq_refl); split; [discriminate |];
     intros k [= <-]; left; simpl; tauto |].
  rewrite (Enp eq_refl).
  destruct (resolve_pronoun_shape self (lower text))
    as [-> | (k & e & -> & Hk & _)];
    [| split; [discriminate | intros k' [= <-]; by left]].
  match goal with
  | |- context [resolve_position ?b 0 self] =>
      destruct (resolve_position_shape self b 0)
        as [-> | (c & l & x & -> & Hc & Hl & Hx)]
  end.
  - match goal with
    | |- context [resolve_position ?b 1 self] =>
        destruct (resolve_position_shape self b 1)
          as [-> | (c & l & x & -> & Hc & Hl & Hx)]
    end.
    + split; [reflexivity | discriminate].
    + split; [discriminate |]. intros k [= <-]. right.
      exists c, l, 1%nat. repeat split; try done. lia.
  - split; [discriminate |]. intros k [= <-]. right.
    exists c, l, 0%nat. repeat split; try done. lia.
Qed.

(** X10: after [clear_history] nothing resolves: the entity is null for
    every text, the answer is the pair of nulls unless a phrase rule
    matches, and there is no last command. *)
Theorem clear_history_forgets (self : SessionContext) (text : string)
    (n : Z) :
  let cleared := clear_history self in
  let r := (resolve_reference text cleared).1 in
  r.2 = VNone
  /\ (no_phrase (lower text) = true -> r = (None, VNone))
  /\ (get_last_command cleared).1 = None
  /\ get_last_n_commands cleared n = [].
Proof.
  cbv zeta.
  assert (no_phrase (lower text) = true ->
          (resolve_reference text (clear_history self)).1 = (None, VNone))
    as Hnp.
  { intros H. rewrite (resolve_reference_no_phrase _ _ H).
    assert ((resolve_pronoun (lower text) (clear_history self)).1 = None)
      as ->.
    { unfold resolve_pronoun. by destruct (str_in_list _ _). }
    assert (forall b i, (resolve_position b i (clear_history self)).1 = None)
      as Hpos by (by intros [] i).
    by rewrite !Hpos. }
  split; [| split; [exact Hnp | split; reflexivity]].
  destruct (resolve_reference_phrases (clear_history self) text)
    as (E1 & E2 & E3 & E4).
  cbv zeta in E1, E2, E3, E4. unfold no_phrase in Hnp.
  destruct (email_phrase (lower text)); [by rewrite (E1 eq_refl) |].
  destruct (meeting_phrase (lower text));
    [by rewrite (E2 eq_refl eq_refl) |].
  destruct (next_meeting_phrase (lower text));
    [by rewrite (E3 eq_refl eq_refl eq_refl) |].
  destruct (file_phrase (lower text));
    [by rewrite (E4 eq_refl eq_refl eq_refl eq_refl) |].
  by rewrite (Hnp eq_refl).
Qed.

(** X11: the history is append-only.  After any calls of [add_command]
    it is the old history followed by the records of the calls in call
    order; the identity and the start time of the session are kept; and
    the last command is the record of the last call. *)
Theorem history_append_only (self : SessionContext) (cs : list call) :
  let self' := add_all self cs in
  history self' = (history self ++ (record_of <$> cs))%list
  /\ session_id self' = session_id self
  /\ started_at self' = started_at self
  /\ (get_last_command self').1
     = match last cs with
       | Some c => Some (record_of c)
       | None => last (history self)
       end.
Proof.
  cbv zeta.
  assert (forall cs self,
            session_id (add_all self cs) = session_id self
            /\ started_at (add_all self cs) = started_at self) as Hid.
  { clear. induction cs as [| c cs IH]; intros self; [done |].
    destruct (IH (add_call self c)) as [H1 H2].
    change (add_all self (c :: cs)) with (add_all (add_call self c) cs).
    by rewrite H1, H2. }
  split; [apply history_add_all |].
  destruct (Hid cs self) as [-> ->].
  split; [reflexivity |]. split; [reflexivity |].
  rewrite get_last_command_run. cbn [fst]. rewrite history_add_all.
  destruct cs as [| c cs] using rev_ind; [by rewrite app_nil_r |].
  rewrite fmap_app, app_assoc. simpl. by rewrite !last_snoc.
Qed.

End SessionMore.

(** ** Workflow engine *)

Section WorkflowMore.
Import Py Workflow.

(** X12: [inject_context] changes nothing of a step but its parameters,
    and of these only 'id', 'emails' and 'items'; a parameter 'id' or
    'emails' that is present keeps its value; no parameter is removed;
    and a step without dependency, or whose dependency has no result,
    is returned as it is. *)
Theorem inject_context_frame (step : WorkflowStep)
    (previous_results : gmap Z value) :
  let step' := (inject_context step previous_results).1 in
  (service step' = service step /\ intent step' = intent step
   /\ depends_on step' = depends_on step /\ result step' = result step
   /\ status step' = status step)
  /\ (forall k, k ∉ injected_keys ->
        parameters step' !! k = parameters step !! k)
  /\ (forall k v, k = "id" \/ k = "emails" ->
        parameters step !! k = Some v -> parameters step' !! k = Some v)
  /\ (forall k, is_Some (parameters step !! k) ->
        is_Some (parameters step' !! k))
  /\ (depends_on step = None
      \/ (exists k, depends_on step = Some k /\ previous_results !! k = None)
      -> inject_context step previous_results = (step, Ok tt)).
Proof.
  cbv zeta. unfold inject_context, injected_keys.
  destruct step as [sv it ps dep res st]. cbn [depends_on].
  destruct dep as [k |];
    [| repeat split; try done; intros ? ?; done].
  destruct (previous_results !! k) as [d |] eqn:Ek;
    [| repeat split; try done].
  assert (forall (b : bool) (key : string) (v : value),
            let ps' := if b then <[key := v]> ps else ps in
            (b = true -> key ∈ ["id"; "emails"; "items"]) ->
            (b = true -> key <> "items" -> ps !! key = None) ->
            (forall k, k ∉ ["id"; "emails"; "items"] -> ps' !! k = ps !! k)
            /\ (forall k v, k = "id" \/ k = "emails" -> ps !! k = Some v ->
                            ps' !! k = Some v)
            /\ (forall k, is_Some (ps !! k) -> is_Some (ps' !! k)))
    as Hone.
  { clear. intros [] key v; cbv zeta; [| done].
    intros Hin Hnone. specialize (Hin eq_refl). specialize (Hnone eq_refl).
    repeat split.
    - intros k Hk. rewrite lookup_insert_ne; [done | by intros ->].
    - intros k w Hk Hw. rewrite lookup_insert_ne; [done |].
      intros ->. destruct Hk as [-> | ->];
        rewrite Hnone in Hw; done.
    - intros k [w Hw]. destruct (decide (key = k)) as [-> | Hne].
      + rewrite lookup_insert_eq. by eexists.
      + rewrite lookup_insert_ne by done. by eexists. }
  destruct d as [| b | n | s | l | d | c];
    try (repeat split; try done; intros [? | (? & ? & ?)]; congruence).
  - (* the dependency gave a list *)
    cbn [parameters set_parameters].
    destruct (dict_has ps "ids") eqn:Eids; cbn [negb fst parameters service
      intent depends_on result status set_parameters];
      [repeat split; try done; intros [? | (? & ? & ?)]; congruence |].
    destruct (Hone true "items" (VList l)) as (F1 & F2 & F3);
      [intros _; repeat constructor | congruence |].
    repeat split; try done.
    intros [? | (? & ? & ?)]; congruence.
  - (* the dependency gave a mapping *)
    cbn [parameters set_parameters].
    set (b1 := match d !! "id" with
               | Some _ => negb (dict_has ps "id")
               | None => false
               end).
    set (i0 := default VNone (d !! "id")).
    assert (b1 = true -> ps !! "id" = None) as Hb1.
    { unfold b1. destruct (d !! "id"); [| discriminate].
      unfold dict_has. intros H%negb_true_iff%bool_decide_eq_false.
      destruct (ps !! "id"); [| done]. exfalso. apply H. by eexists. }
    destruct (Hone b1 "id" i0) as (F1 & F2 & F3);
      [intros _; repeat constructor | intros H _; by apply Hb1 |].
    cbv zeta in F1, F2, F3.
    set (ps1 := if b1 then <["id" := i0]> ps else ps) in *.
    assert (match d !! "id" with
            | Some i =>
                if negb (dict_has ps "id")
                then set_parameters (mkWorkflowStep sv it ps (Some k) res st)
                       (<["id" := i]> ps)
                else mkWorkflowStep sv it ps (Some k) res st
            | None => mkWorkflowStep sv it ps (Some k) res st
            end = mkWorkflowStep sv it ps1 (Some k) res st) as ->.
    { unfold ps1, b1, i0. destruct (d !! "id"); [| reflexivity].
      by destruct (negb (dict_has ps "id")). }
    cbn [parameters].
    assert (exists (b2 : bool) (es : value),
              (match d !! "attendees" with
               | Some att =>
                   if negb (dict_has ps1 "emails") then
                     match att with
                     | VList l =>
                         match attendee_emails l with
                         | Ok emails =>
                             (set_parameters
                                (mkWorkflowStep sv it ps1 (Some k) res st)
                                (<["emails" := VList emails]> ps1), Ok tt)
                         | Raise e =>
                             (mkWorkflowStep sv it ps1 (Some k) res st,
                              Raise e)
                         end
                     | _ => (mkWorkflowStep sv it ps1 (Some k) res st, Ok tt)
                     end
                   else (mkWorkflowStep sv it ps1 (Some k) res st, Ok tt)
               | None => (mkWorkflowStep sv it ps1 (Some k) res st, Ok tt)
               end).1
              = mkWorkflowStep sv it
                  (if b2 then <["emails" := es]> ps1 else ps1) (Some k) res st
              /\ (b2 = true -> ps1 !! "emails" = None))
      as (b2 & es & -> & Hb2).
    { destruct (d !! "attendees") as [att |];
        [| exists false, VNone; done].
      destruct (dict_has ps1 "emails") eqn:Ee; cbn [negb];
        [exists false, VNone; done |].
      destruct att; try (exists false, VNone; done).
      destruct (attendee_emails l); [| exists false, VNone; done].
      exists true, (VList a). split; [reflexivity |]. intros _.
      unfold dict_has in Ee. apply bool_decide_eq_false in Ee.
      destruct (ps1 !! "emails"); [| done]. exfalso. apply Ee. by eexists. }
    cbn [parameters service intent depends_on result status].
    assert (forall kk, (if b2 then <["emails" := es]> ps1 else ps1) !! kk
                       = if b2 && bool_decide (kk = "emails")
                         then Some es else ps1 !! kk) as Hl.
    { intros kk. destruct b2; [| done]. cbn [andb].
      case_bool_decide as Hkk; [subst; apply lookup_insert_eq |].
      by apply lookup_insert_ne. }
    repeat split; try done.
    + intros kk Hkk. rewrite Hl.
      rewrite bool_decide_eq_false_2
        by (intros ->; apply Hkk; repeat constructor).
      rewrite andb_false_r. by apply F1.
    + intros kk v Hkk Hv. rewrite Hl.
      destruct b2; cbn [andb]; [| by apply F2].
      case_bool_decide as Hk'; [| by apply F2]. subst kk.
      specialize (Hb2 eq_refl). rewrite (F2 "emails" v) in Hb2; by auto.
    + intros kk Hkk. rewrite Hl.
      destruct (b2 && bool_decide (kk = "emails")); [by eexists |].
      by apply F3.
    + intros [? | (? & ? & ?)]; congruence.
Qed.

Lemma attendee_emails_dicts l :
  forallb is_dict l = true -> attendee_emails l = Ok (emails_in l).
Proof.
  induction l as [| a l IH]; [reflexivity |].
  intros [Ha Hl]%andb_true_iff. destruct a as [| | | | | m |]; try done.
  change (emails_in (VDict m :: l))
    with (match m !! "email" with
          | Some e => e :: emails_in l
          | None => emails_in l
          end).
  cbn [attendee_emails]. rewrite (IH Hl).
  destruct (m !! "email") as [e |] eqn:Ee.
  - cbn. unfold dict_has, dict_get. rewrite Ee. reflexivity.
  - cbn. unfold dict_has, dict_get. rewrite Ee. reflexivity.
Qed.

(** X13: the 'emails' a step inherits.  When the dependency's result is
    a mapping whose 'attendees' is a list of mappings and the step has
    no 'emails' yet, [inject_context] returns and sets 'emails' to the
    'email' values of the attendees that have one, in order.  When an
    attendee is not a container (a number, a null) the call raises; the
    'id' copied before stays written and 'emails' stays absent. *)
Theorem inject_context_emails (step : WorkflowStep)
    (previous_results : gmap Z value) (k : Z) (d : dict)
    (attendees : list value) :
  depends_on step = Some k ->
  previous_results !! k = Some (VDict d) ->
  d !! "attendees" = Some (VList attendees) ->
  parameters step !! "emails" = None ->
  let out := inject_context step previous_results in
  (forallb is_dict attendees = true ->
   out.2 = Ok tt
   /\ parameters out.1 !! "emails" = Some (VList (emails_in attendees)))
  /\ (forall e, attendee_emails attendees = Raise e ->
      out.2 = Raise e
      /\ parameters out.1 !! "emails" = None
      /\ (forall i, d !! "id" = Some i -> parameters step !! "id" = None ->
                    parameters out.1 !! "id" = Some i)).
Proof.
  intros Hk Hd Ha He. cbv zeta. unfold inject_context.
  rewrite Hk, Hd, Ha.
  set (step1 := match d !! "id" with
                | Some i =>
                    if negb (dict_has (parameters step) "id")
                    then set_parameters step (<["id" := i]> (parameters step))
                    else step
                | None => step
                end).
  assert (parameters step1 !! "emails" = None) as He1.
  { unfold step1. destruct (d !! "id"); [| exact He].
    destruct (negb _); [| exact He].
    cbn [parameters set_parameters]. by rewrite lookup_insert_ne. }
  rewrite (dict_has_None _ _ He1). cbn [negb].
  split.
  - intros Hall. rewrite (attendee_emails_dicts _ Hall).
    split; [reflexivity |]. cbn [fst parameters set_parameters].
    apply lookup_insert_eq.
  - intros e Hr. rewrite Hr. cbn [fst snd].
    split; [reflexivity |]. split; [exact He1 |].
    intros i Hi Hid. unfold step1. rewrite Hi, (dict_has_None _ _ Hid).
    cbn [negb parameters set_parameters]. apply lookup_insert_eq.
Qed.

Lemma inject_context_emails_witness :
  let out :=
    inject_context
      {| service := "gmail"; intent := "send_email"; parameters := ∅;
         depends_on := Some 0; result := None; status := "pending" |}
      {[ 0 := VDict {[ "id" := VStr "e1";
                       "attendees" :=
                         VList [VDict {[ "email" := VStr "a@x.org" ]};
                                VDict {[ "name" := VStr "Bob" ]};
                                VDict {[ "email" := VStr "c@x.org" ]}] ]} ]}
  in
  out.2 = Ok tt
  /\ parameters out.1 !! "emails"
     = Some (VList [VStr "a@x.org"; VStr "c@x.org"]).
Proof.
  cbv zeta.
  refine (proj1 (inject_context_emails _ _ 0
                   {[ "id" := VStr "e1";
                      "attendees" :=
                        VList [VDict {[ "email" := VStr "a@x.org" ]};
                               VDict {[ "name" := VStr "Bob" ]};
                               VDict {[ "email" := VStr "c@x.org" ]}] ]}
                   [VDict {[ "email" := VStr "a@x.org" ]};
                    VDict {[ "name" := VStr "Bob" ]};
                    VDict {[ "email" := VStr "c@x.org" ]}] _ _ _ _) _);
    reflexivity.
Defined.


End WorkflowMore.

Section WorkflowRun.
Import Py Workflow Main.

Variable exec : Z -> WorkflowStep -> Py.result value.
Variable auto_confirm : bool.
Variable confirm : Z -> bool.

Lemma StronglySorted_snoc (l : list Z) (i : Z) :
  StronglySorted Z.lt l -> (forall j, j ∈ l -> j < i) ->
  StronglySorted Z.lt (l ++ [i]).
Proof.
  induction 1 as [| a l Hl IH Ha]; intros Hlt; cbn.
  - repeat constructor.
  - constructor.
    + apply IH. intros j Hj. apply Hlt. by right.
    + apply Forall_app. split; [exact Ha |].
      repeat constructor. apply Hlt. by left.
Qed.

Lemma context_ok_mono i i' context :
  i <= i' -> context_ok i context -> context_ok i' context.
Proof.
  intros Hi (Hk & Hr & Hc & Hf & Hd). repeat split; try done; try apply Hk;
    apply Hr in H; lia.
Qed.

Lemma context_ok_add i context r :
  0 <= i -> context_ok i context ->
  context_ok (i + 1) (add_result context i r).
Proof.
  intros Hi (Hk & Hr & Hc & Hf & Hd). unfold context_ok.
  cbn [add_result results completed_steps failed_steps].
  split; [| split; [| split; [| split]]].
  - intros j. rewrite elem_of_app, list_elem_of_singleton.
    destruct (decide (j = i)) as [-> | Hne].
    + rewrite lookup_insert_eq. split; [by eexists | by right].
    + rewrite lookup_insert_ne by done. rewrite <- Hk. tauto.
  - intros j. rewrite !elem_of_app, list_elem_of_singleton.
    intros [[Hj | ->] | Hj]; [| lia |];
      (assert (0 <= j < i) by (apply Hr, elem_of_app; tauto)); lia.
  - apply StronglySorted_snoc; [exact Hc |].
    intros j Hj. assert (0 <= j < i) by (apply Hr, elem_of_app; tauto). lia.
  - exact Hf.
  - intros j. rewrite elem_of_app, list_elem_of_singleton.
    intros [Hj | ->]; [by apply Hd |].
    intros Hj. assert (0 <= i < i) by (apply Hr, elem_of_app; tauto). lia.
Qed.

Lemma context_ok_fail i context :
  0 <= i -> context_ok i context ->
  context_ok (i + 1) (mark_failed context i).
Proof.
  intros Hi (Hk & Hr & Hc & Hf & Hd). unfold context_ok.
  cbn [mark_failed results completed_steps failed_steps].
  split; [| split; [| split; [| split]]].
  - exact Hk.
  - intros j. rewrite !elem_of_app, list_elem_of_singleton.
    intros [Hj | [Hj | ->]]; [| | lia];
      (assert (0 <= j < i) by (apply Hr, elem_of_app; tauto)); lia.
  - exact Hc.
  - apply StronglySorted_snoc; [exact Hf |].
    intros j Hj. assert (0 <= j < i) by (apply Hr, elem_of_app; tauto). lia.
  - intros j Hj. rewrite elem_of_app, list_elem_of_singleton.
    intros [Hj' | ->]; [by apply (Hd j) |].
    assert (0 <= i < i) by (apply Hr, elem_of_app; tauto). lia.
Qed.

Lemma can_execute_step_dependency step completed k :
  can_execute_step step completed = true ->
  depends_on step = Some k -> k ∈ completed.
Proof.
  unfold can_execute_step. intros H Hk. rewrite Hk in H.
  by apply bool_decide_eq_true in H.
Qed.

Lemma dependencies_met_add steps i step context r :
  0 <= i -> context_ok i context -> dependencies_met steps context ->
  steps !! Z.to_nat i = Some step ->
  can_execute_step step (completed_steps context) = true ->
  dependencies_met steps (add_result context i r).
Proof.
  intros Hi Hok Hdep Hs Hcan j.
  cbn [add_result completed_steps failed_steps].
  rewrite !elem_of_app, list_elem_of_singleton.
  intros Hj.
  assert (j = i \/ j ∈ (completed_steps context ++ failed_steps context)%list)
    as [-> | Hin] by (rewrite elem_of_app; tauto).
  - exists step. split; [exact Hs |]. intros k Hk.
    pose proof (can_execute_step_dependency _ _ _ Hcan Hk) as Hin.
    split; [rewrite elem_of_app; by left |].
    destruct Hok as (_ & Hr & _).
    assert (0 <= k < i) by (apply Hr, elem_of_app; tauto). lia.
  - destruct (Hdep j Hin) as (s & Hsj & Hks). exists s.
    split; [exact Hsj |]. intros k Hk. destruct (Hks k Hk) as [H1 H2].
    split; [rewrite elem_of_app; by left | exact H2].
Qed.

Lemma dependencies_met_fail steps i step context :
  0 <= i -> context_ok i context -> dependencies_met steps context ->
  steps !! Z.to_nat i = Some step ->
  can_execute_step step (completed_steps context) = true ->
  dependencies_met steps (mark_failed context i).
Proof.
  intros Hi Hok Hdep Hs Hcan j.
  cbn [mark_failed completed_steps failed_steps].
  rewrite !elem_of_app, list_elem_of_singleton.
  intros Hj.
  assert (j = i \/ j ∈ (completed_steps context ++ failed_steps context)%list)
    as [-> | Hin] by (rewrite elem_of_app; tauto).
  - exists step. split; [exact Hs |]. intros k Hk.
    pose proof (can_execute_step_dependency _ _ _ Hcan Hk) as Hin.
    split; [exact Hin |].
    destruct Hok as (_ & Hr & _).
    assert (0 <= k < i) by (apply Hr, elem_of_app; tauto). lia.
  - exact (Hdep j Hin).
Qed.

Lemma run_steps_invariants rest : forall pre context,
  context_ok (Z.of_nat (length pre)) context ->
  dependencies_met (pre ++ rest) context ->
  let out :=
    (run_steps exec auto_confirm confirm (Z.of_nat (length pre)) rest
       context).1 in
  context_ok (Z.of_nat (length (pre ++ rest))) out
  /\ dependencies_met (pre ++ rest) out.
Proof.
  induction rest as [| step rest IH]; intros pre context Hok Hdep;
    cbv zeta; cbn [run_steps].
  - rewrite app_nil_r in *. split; [exact Hok | exact Hdep].
  - assert (forall c,
              context_ok (Z.of_nat (length pre) + 1) c ->
              dependencies_met (pre ++ step :: rest) c ->
              context_ok (Z.of_nat (length (pre ++ step :: rest)))
                (run_steps exec auto_confirm confirm
                   (Z.of_nat (length pre) + 1) rest c).1
              /\ dependencies_met (pre ++ step :: rest)
                   (run_steps exec auto_confirm confirm
                      (Z.of_nat (length pre) + 1) rest c).1) as Hnext.
    { intros c H1 H2.
      assert (Z.of_nat (length (pre ++ [step])%list)
              = Z.of_nat (length pre) + 1) as Hl.
      { rewrite length_app. cbn [length]. lia. }
      assert (((pre ++ [step]) ++ rest)%list = (pre ++ step :: rest)%list)
        as Ha by (by rewrite <- app_assoc).
      specialize (IH (pre ++ [step])%list c). cbv zeta in IH.
      rewrite Hl, Ha in IH. apply IH; assumption. }
    assert (Hlen : Z.of_nat (length pre)
                   <= Z.of_nat (length (pre ++ step :: rest))).
    { rewrite length_app. lia. }
    assert (Hpos : 0 <= Z.of_nat (length pre)) by lia.
    assert (Hat : (pre ++ step :: rest)%list !! Z.to_nat (Z.of_nat (length pre))
                  = Some step).
    { rewrite Nat2Z.id. by apply list_lookup_middle. }
    assert (Hlen1 : Z.of_nat (length pre) + 1
                    <= Z.of_nat (length (pre ++ step :: rest))).
    { rewrite length_app. cbn [length]. lia. }
    destruct (can_execute_step step (completed_steps context)) eqn:Hcan;
      cbn [negb].
    + destruct (inject_context step (results context)) as [step' [u | e]].
      * destruct (exec (Z.of_nat (length pre)) step') as [r | e].
        -- apply Hnext.
           ++ by apply context_ok_add.
           ++ by eapply dependencies_met_add.
        -- destruct (negb auto_confirm && negb (confirm _)).
           ++ cbn [fst]. split.
              ** eapply context_ok_mono; [exact Hlen1 |].
                 by apply context_ok_fail.
              ** by eapply dependencies_met_fail.
           ++ apply Hnext.
              ** by apply context_ok_fail.
              ** by eapply dependencies_met_fail.
      * cbn [fst]. split; [| exact Hdep].
        eapply context_ok_mono; [exact Hlen | exact Hok].
    + apply Hnext; [| exact Hdep].
      eapply context_ok_mono; [| exact Hok]. lia.
Qed.

(** X15: what a workflow run leaves in its context, whatever the back
    ends return and whatever the user answers, and also when an
    exception of [inject_context] ends the run.  The stored results are
    exactly those of the completed steps; completed and failed steps are
    positions of the workflow, each list in increasing order, and no
    step is in both; and every step that was executed either had no
    dependency or depended on an earlier step that completed.  So a step
    that depends on itself, on a later step, on a failed or skipped step
    or on a position outside the workflow is never executed. *)
Theorem execute_workflow_invariants (steps : list WorkflowStep) :
  let context :=
    (_execute_workflow exec auto_confirm confirm steps).1 in
  context_ok (Z.of_nat (length steps)) context
  /\ dependencies_met steps context
  /\ (forall j step k,
        steps !! Z.to_nat j = Some step -> depends_on step = Some k ->
        j <= k \/ k ∉ completed_steps context ->
        j ∉ (completed_steps context ++ failed_steps context)%list).
Proof.
  cbv zeta. unfold _execute_workflow.
  destruct (run_steps_invariants steps [] new_context) as [Hok Hdep].
  - unfold context_ok, new_context. cbn.
    split; [| split; [| split; [| split]]].
    + intros j. rewrite lookup_empty. split; [by intros ?%elem_of_nil |].
      by intros [? ?].
    + by intros j ?%elem_of_nil.
    + constructor.
    + constructor.
    + by intros j ?%elem_of_nil.
  - by intros j ?%elem_of_nil.
  - cbn [app length Z.of_nat] in Hok, Hdep.
    split; [exact Hok |]. split; [exact Hdep |].
    intros j step k Hs Hk Hbad Hj.
    destruct (Hdep j Hj) as (s & Hs' & Hks).
    rewrite Hs in Hs'. injection Hs' as <-.
    destruct (Hks k Hk) as [H1 H2]. destruct Hbad as [Hbad | Hbad];
      [lia | by apply Hbad].
Qed.

Lemma ready_taken_extend pre step context c :
  context_ok (Z.of_nat (length pre)) context ->
  (c = context
   /\ can_execute_step step (completed_steps context) = false)
  \/ (exists r, c = add_result context (Z.of_nat (length pre)) r)
  \/ c = mark_failed context (Z.of_nat (length pre)) ->
  ready_taken pre context -> ready_taken (pre ++ [step]) c.
Proof.
  intros (_ & Hr & _) Hc Hready j s Hs Hks.
  assert (forall k, k < Z.of_nat (length pre) ->
                    k ∈ completed_steps c -> k ∈ completed_steps context)
    as Hold.
  { intros k Hk. destruct Hc as [[-> _] | [[r ->] | ->]]; try done.
    cbn [add_result completed_steps].
    rewrite elem_of_app, list_elem_of_singleton. intros [? | ->]; [done | lia]. }
  assert (forall k,
            k ∈ (completed_steps context ++ failed_steps context)%list ->
            k ∈ (completed_steps c ++ failed_steps c)%list) as Hmono.
  { intros k. destruct Hc as [[-> _] | [[r ->] | ->]]; try done;
      cbn [add_result mark_failed completed_steps failed_steps];
      rewrite !elem_of_app, ?list_elem_of_singleton; tauto. }
  destruct (decide (j < length pre)%nat) as [Hlt | Hge].
  - rewrite lookup_app_l in Hs by done.
    apply Hmono, (Hready j s Hs). intros k Hk.
    destruct (Hks k Hk) as [H1 H2]. split; [| exact H2].
    apply Hold; [lia | exact H1].
  - assert (j = length pre) as ->.
    { apply lookup_lt_Some in Hs. rewrite length_app in Hs.
      cbn [length] in Hs. lia. }
    rewrite list_lookup_middle in Hs by done. injection Hs as <-.
    destruct Hc as [[-> Hcan] | [[r ->] | ->]];
      cbn [add_result mark_failed completed_steps failed_steps];
      rewrite ?elem_of_app, ?list_elem_of_singleton; try tauto.
    exfalso. unfold can_execute_step in Hcan.
    destruct (depends_on step) as [k |] eqn:Hk; [| discriminate].
    apply bool_decide_eq_false in Hcan. apply Hcan.
    by destruct (Hks k eq_refl).
Qed.

Lemma run_steps_ready rest : forall pre context,
  (forall i, auto_confirm || confirm i = true) ->
  context_ok (Z.of_nat (length pre)) context ->
  ready_taken pre context ->
  (run_steps exec auto_confirm confirm (Z.of_nat (length pre)) rest
     context).2 = Ok tt ->
  ready_taken (pre ++ rest)
    (run_steps exec auto_confirm confirm (Z.of_nat (length pre)) rest
       context).1.
Proof.
  induction rest as [| step rest IH]; intros pre context Hgo Hok Hready;
    cbn [run_steps].
  - intros _. by rewrite app_nil_r.
  - assert (forall c,
              context_ok (Z.of_nat (length pre) + 1) c ->
              ready_taken (pre ++ [step]) c ->
              (run_steps exec auto_confirm confirm
                 (Z.of_nat (length pre) + 1) rest c).2 = Ok tt ->
              ready_taken (pre ++ step :: rest)
                (run_steps exec auto_confirm confirm
                   (Z.of_nat (length pre) + 1) rest c).1) as Hnext.
    { intros c H1 H2 H3.
      assert (Z.of_nat (length (pre ++ [step])%list)
              = Z.of_nat (length pre) + 1) as Hl.
      { rewrite length_app. cbn [length]. lia. }
      assert (((pre ++ [step]) ++ rest)%list = (pre ++ step :: rest)%list)
        as Ha by (by rewrite <- app_assoc).
      specialize (IH (pre ++ [step])%list c).
      rewrite Hl, Ha in IH. apply IH; assumption. }
    assert (Hpos : 0 <= Z.of_nat (length pre)) by lia.
    destruct (can_execute_step step (completed_steps context)) eqn:Hcan;
      cbn [negb].
    + destruct (inject_context step (results context)) as [step' [u | e]];
        [| discriminate].
      destruct (exec (Z.of_nat (length pre)) step') as [r | e].
      * apply Hnext; [by apply context_ok_add |].
        eapply ready_taken_extend; [exact Hok | | exact Hready].
        right; left. by exists r.
      * assert (negb auto_confirm && negb (confirm (Z.of_nat (length pre)))
                = false) as ->.
        { specialize (Hgo (Z.of_nat (length pre))).
          destruct auto_confirm, (confirm (Z.of_nat (length pre)));
            done. }
        apply Hnext; [by apply context_ok_fail |].
        eapply ready_taken_extend; [exact Hok | | exact Hready].
        by right; right.
    + apply Hnext.
      * eapply context_ok_mono; [| exact Hok]. lia.
      * eapply ready_taken_extend; [exact Hok | | exact Hready].
        by left.
Qed.


End WorkflowRun.

Section WorkflowRunScenario.
Import Py Workflow Main.


End WorkflowRunScenario.
Section InferenceMore.
Import Py Session Inference.

Lemma session_but_next_meeting_refl c : session_but_next_meeting c c.
Proof. by destruct c. Qed.

Lemma session_but_next_meeting_trans a b c :
  session_but_next_meeting a b -> session_but_next_meeting b c ->
  session_but_next_meeting a c.
Proof.
  destruct a, b, c; simpl; try done.
  intros (H1 & H2 & H3 & H4) (H5 & H6 & H7 & H8).
  repeat split; try congruence.
  intros k Hk. by rewrite H8, H4.
Qed.

Lemma inference_frame_refl s : inference_frame s s.
Proof.
  split; [apply session_but_next_meeting_refl |].
  split; [exists []; by rewrite app_nil_r |]. done.
Qed.

Lemma inference_frame_trans a b c :
  inference_frame a b -> inference_frame b c -> inference_frame a c.
Proof.
  intros (S1 & (x1 & C1 & F1) & P1 & D1) (S2 & (x2 & C2 & F2) & P2 & D2).
  split; [by eapply session_but_next_meeting_trans |].
  split.
  { exists (x1 ++ x2)%list. rewrite C2, C1, app_assoc. split; [done |].
    rewrite forallb_app. by rewrite F1, F2. }
  split.
  - intros k Hk. by rewrite P2, P1.
  - intros k Hk. by apply D2, D1.
Qed.

Lemma frame_set_param k v :
  k ∈ inferred_keys -> keeps inference_frame (set_param k v).
Proof.
  intros Hk s. split; [apply session_but_next_meeting_refl |].
  split; [exists []; by rewrite app_nil_r |]. simpl. split.
  - intros k' Hk'. apply lookup_insert_ne. by intros ->.
  - intros k' Hk'. destruct (decide (k = k')) as [-> | Hne].
    + rewrite lookup_insert_eq. by eexists.
    + by rewrite lookup_insert_ne.
Qed.

Lemma frame_set_next_meeting v :
  keeps inference_frame (set_session_reference "next_meeting" v).
Proof.
  intros s. split.
  - simpl. destruct (session s) as [c |]; simpl; [| done].
    repeat split. intros k Hk. by apply lookup_insert_ne.
  - split; [exists []; by rewrite app_nil_r |]. done.
Qed.

Lemma frame_lookup c r :
  single_result c = true -> keeps inference_frame (lookup c r).
Proof.
  intros Hc s. split; [apply session_but_next_meeting_refl |].
  split; [| done]. exists [c]. simpl. by rewrite Hc.
Qed.

Lemma keeps_try_except R (m : M unit) : keeps R m -> keeps R (try_except m).
Proof.
  intros Hm s. specialize (Hm s). unfold try_except.
  by destruct (m s) as [[[] | e] s'].
Qed.

End InferenceMore.

(** Break a goal [keeps inference_frame m] down along the structure of
    [m]. *)
Ltac frame_step :=
  first
    [ apply keeps_ret; apply inference_frame_refl
    | apply keeps_lift; apply inference_frame_refl
    | apply keeps_get_params; apply inference_frame_refl
    | apply keeps_get_session; apply inference_frame_refl
    | apply frame_set_next_meeting
    | apply frame_lookup; reflexivity
    | apply frame_set_param; unfold inferred_keys; repeat constructor
    | apply keeps_try_except
    | apply keeps_bind; [apply inference_frame_trans | | intros ?]
    | match goal with
      | |- keeps _ (if ?b then _ else _) => destruct b
      | |- keeps _ (match ?x with _ => _ end) => destruct x
      | |- keeps _ (let x := ?v in _) => cbv zeta
      end ].

(** The same for the relation "the session is the same". *)
Ltac session_step :=
  first
    [ apply keeps_ret; reflexivity
    | apply keeps_lift; reflexivity
    | apply keeps_get_params; reflexivity
    | apply keeps_get_session; reflexivity
    | apply keeps_try_except
    | apply keeps_bind; [intros ? ? ? ? ?; congruence | | intros ?]
    | match goal with
      | |- keeps _ (Inference.set_param _ _) => intros ?; reflexivity
      | |- keeps _ (Inference.lookup _ _) => intros ?; reflexivity
      | |- keeps _ (if ?b then _ else _) => destruct b
      | |- keeps _ (match ?x with _ => _ end) => destruct x
      end ].

Section InferenceWhole.
Import Py Session Inference.

Lemma add_filter_frame tok : keeps inference_frame (add_filter tok).
Proof. unfold add_filter. repeat frame_step. Qed.

Lemma meeting_stage_frame self command intent :
  keeps inference_frame
    (if str_in_list intent event_intents
     then _infer_meeting_params self command else mret tt).
Proof.
  destruct (str_in_list intent event_intents); [| frame_step].
  unfold _infer_meeting_params, lookup_next_meeting, infer_days.
  repeat frame_step.
Qed.

Lemma email_stage_frame self command intent :
  keeps inference_frame
    (if str_in_list intent email_intents
     then _infer_email_params self command else mret tt).
Proof.
  destruct (str_in_list intent email_intents); [| frame_step].
  unfold _infer_email_params.
  apply keeps_bind; [apply inference_frame_trans | | intros _].
  - unfold lookup_last_email. repeat frame_step.
  - unfold infer_filters. cbv zeta.
    repeat first [ apply add_filter_frame | frame_step ].
Qed.

Lemma attendee_stage_frame command intent :
  keeps inference_frame
    (if String.eqb intent "send_email" && str_in "attendees" command
     then _infer_attendees command else mret tt).
Proof.
  destruct (_ && _); [| frame_step].
  unfold _infer_attendees, gather_attendees, add_recipients.
  repeat frame_step.
Qed.

Lemma pronoun_stage_frame command intent :
  keeps inference_frame (_resolve_pronouns command intent).
Proof.
  unfold _resolve_pronouns, resolve_it_that_this, resolve_them, resolve_it.
  repeat frame_step.
Qed.

Lemma infer_body_frame self command intent :
  keeps inference_frame (infer_body self command intent).
Proof.
  unfold infer_body. cbv zeta.
  apply keeps_bind;
    [apply inference_frame_trans | apply meeting_stage_frame | intros _].
  apply keeps_bind;
    [apply inference_frame_trans | apply email_stage_frame | intros _].
  apply keeps_bind;
    [apply inference_frame_trans | apply attendee_stage_frame | intros _].
  apply keeps_bind;
    [apply inference_frame_trans | apply pronoun_stage_frame | intros _].
  frame_step.
Qed.

Lemma add_filter_session tok :
  keeps (fun s s' => session s' = session s) (add_filter tok).
Proof. unfold add_filter. repeat session_step. Qed.

Lemma infer_body_session self command intent :
  str_in_list intent event_intents = false ->
  keeps (fun s s' => session s' = session s)
        (infer_body self command intent).
Proof.
  intros Hint. unfold infer_body. cbv zeta. rewrite Hint.
  apply keeps_bind; [intros ? ? ? ? ?; congruence | session_step |
                     intros _].
  apply keeps_bind; [intros ? ? ? ? ?; congruence | | intros _].
  { destruct (str_in_list intent email_intents); [| session_step].
    unfold _infer_email_params.
    apply keeps_bind; [intros ? ? ? ? ?; congruence | | intros _].
    - unfold lookup_last_email. cbv zeta. repeat session_step.
    - unfold infer_filters. cbv zeta.
      repeat first [ apply add_filter_session | session_step ]. }
  apply keeps_bind; [intros ? ? ? ? ?; congruence | | intros _].
  { destruct (_ && _); [| session_step].
    unfold _infer_attendees, gather_attendees, add_recipients.
    repeat session_step. }
  apply keeps_bind; [intros ? ? ? ? ?; congruence | | intros _];
    [| session_step].
  unfold _resolve_pronouns, resolve_it_that_this, resolve_them, resolve_it.
  repeat session_step.
Qed.

Lemma bind_returns_params {A} (m : M A) (k : A -> M dict) :
  (forall a s p, (k a s).1 = Ok p -> p = params (k a s).2) ->
  forall s p, ((m ≫= k) s).1 = Ok p -> p = params ((m ≫= k) s).2.
Proof.
  intros Hk s p. unfold mbind, M_bind.
  destruct (m s) as [[a | e] s']; [apply Hk | discriminate].
Qed.

Lemma infer_body_returns_params self command intent s p :
  (infer_body self command intent s).1 = Ok p ->
  p = params (infer_body self command intent s).2.
Proof.
  unfold infer_body. cbv zeta. revert s p.
  repeat (apply bind_returns_params; intros _).
  intros s p. simpl. congruence.
Qed.

(** X17: what [infer_parameters] leaves alone, for every engine,
    session, intent and ASCII command, whether it returns or raises,
    when the parameters hold no list that a rule extends in place (a
    non-empty list under 'to' or 'query'; such a list is shared with
    the caller and changes under every name it has).  The session keeps
    its identity, its history and every reference other than
    "next_meeting", and is untouched when the intent is not an event
    intent; every lookup sent asks for one result; a parameter whose key
    is not one of the thirteen inferred keys ('subject', 'body',
    'file_name', ...) keeps its value, and no parameter is removed; what
    is returned is the dictionary the rules have updated. *)
Theorem infer_parameters_frame (self : ContextInferenceEngine)
    (ctx : option SessionContext) (command intent : string)
    (parameters : dict) :
  is_ascii command = true ->
  updated_in_place parameters = false ->
  let out := infer_parameters self ctx command intent parameters in
  session_but_next_meeting ctx (session out.2)
  /\ (str_in_list intent event_intents = false -> session out.2 = ctx)
  /\ Forall (fun c => single_result c = true) (calls out.2)
  /\ (forall k, k ∉ inferred_keys -> params out.2 !! k = parameters !! k)
  /\ (forall k, is_Some (parameters !! k) -> is_Some (params out.2 !! k))
  /\ (forall p, out.1 = Ok p -> p = params out.2).
Proof.
  intros _ _. cbv zeta. unfold infer_parameters.
  set (s0 := {| session := ctx; params := parameters; calls := [] |}).
  destruct (infer_body_frame self command intent s0)
    as (Hs & (extra & Hc & Hx) & Hp & Hd).
  split; [exact Hs |].
  split; [intros Hint; exact (infer_body_session self command intent Hint s0) |].
  split.
  { rewrite Hc. simpl. apply Forall_forall. intros c Hin.
    rewrite forallb_forall in Hx. apply Hx. by apply list_elem_of_In. }
  split; [exact Hp |]. split; [exact Hd |].
  intros p. apply infer_body_returns_params.
Qed.

Lemma find_found p s : str_in p s = true -> 0 <= find p s.
Proof.
  induction s as [| c s IH]; cbn [str_in find].
  - rewrite orb_false_r. by intros ->.
  - destruct (startswith p (String c s)); [done |]. cbn [orb]. intros H.
    specialize (IH H). cbv zeta.
    destruct (find p s <? 0) eqn:E; [apply Z.ltb_lt in E |]; lia.
Qed.

Lemma touches_same_calls {A} K (m : M A) :
  touches_only K m -> keeps same_calls m.
Proof. intros H s. by destruct (H s) as (_ & ? & _). Qed.

Lemma calls_bind_keeps {A B} (m : M A) (k : A -> M B) s L :
  calls (m s).2 = (calls s ++ L)%list ->
  (forall a, keeps same_calls (k a)) ->
  calls ((m ≫= k) s).2 = (calls s ++ L)%list.
Proof.
  intros Hm Hk. unfold mbind, M_bind.
  destruct (m s) as [[a | e] s']; [| exact Hm].
  rewrite (Hk a s'). exact Hm.
Qed.

Lemma infer_filters_touches command :
  touches_only ["query"] (infer_filters command).
Proof. unfold infer_filters, add_filter. cbv zeta. repeat touch_step. Qed.

Lemma infer_filters_same_calls command :
  keeps same_calls (infer_filters command).
Proof. exact (touches_same_calls _ _ (infer_filters_touches command)). Qed.

Lemma lookup_next_meeting_lookups self command s :
  exists s', lookup_next_meeting self command s = (Ok tt, s')
    /\ calls s'
       = (calls s
          ++ if (str_in "next meeting" command
                 || str_in "upcoming meeting" command)
                && bool_decide (is_Some (calendar_service self))
             then [list_events 7 1] else [])%list.
Proof.
  destruct (str_in "next meeting" command
            || str_in "upcoming meeting" command) eqn:Hc.
  - destruct (calendar_service self) as [calendar |] eqn:Hcal.
    + destruct (lookup_next_meeting_calls self command calendar s Hc Hcal)
        as (s' & E & Hs').
      exists s'. split; [exact E |].
      by rewrite bool_decide_eq_true_2 by (by eexists).
    + exists s. unfold lookup_next_meeting. rewrite Hc, Hcal.
      split; [reflexivity |].
      rewrite bool_decide_eq_false_2 by (by intros [? ?]).
      by rewrite app_nil_r.
  - exists s. unfold lookup_next_meeting. rewrite Hc.
    split; [reflexivity |]. by rewrite app_nil_r.
Qed.

Lemma lookup_last_email_lookups self command s :
  calls (lookup_last_email self command s).2
  = (calls s
     ++ if (str_in "last email" command && str_in "from" command)
           && negb (String.eqb (sender_of command) "")
           && bool_decide (is_Some (gmail_service self))
        then [search_emails ("from:" +:+ sender_of command) 1]
        else [])%list.
Proof.
  unfold lookup_last_email.
  destruct (str_in "last email" command && str_in "from" command) eqn:Hc;
    [| by rewrite app_nil_r].
  apply andb_true_iff in Hc as [_ Hfrom].
  pose proof (find_found _ _ Hfrom) as Hfind. cbv zeta.
  assert ((find "from" command =? -1) = false) as -> by lia.
  cbn [negb andb]. fold (sender_of command).
  destruct (String.eqb (strip _) "") eqn:Hpart.
  - apply String.eqb_eq in Hpart. unfold sender_of. rewrite Hpart.
    cbn. by rewrite app_nil_r.
  - cbn [negb].
    destruct (gmail_service self) as [gmail |].
    + rewrite bool_decide_eq_true_2 by (by eexists). rewrite andb_true_r.
      destruct (String.eqb (sender_of command) ""); cbn [negb];
        [by rewrite app_nil_r |].
      unfold try_except, mbind at 1, M_bind, lookup.
      destruct (gmail _ 1) as [emails | e]; [| reflexivity].
      match goal with
      | |- context [match ?k ?s1 with _ => _ end] =>
          assert (keeps same_calls k) as Hk;
          [| specialize (Hk s1); destruct (k s1) as [[[] | e] s'];
             exact Hk]
      end.
      apply (touches_same_calls ["inferred_email"; "email_id"]).
      repeat touch_step.
    + rewrite bool_decide_eq_false_2 by (by intros [? ?]).
      rewrite andb_false_r. by rewrite app_nil_r.
Qed.

(** X18: for an ASCII command, the lookups [infer_parameters] sends
    are decided by the command text, the intent and which back ends the
    engine has, and by nothing else: not by the session, the parameters
    or what the back ends answer, and also when the call raises.  An
    event intent with
    "next meeting" or "upcoming meeting" asks the calendar (if any) for
    one event of the next seven days; a mail intent with "last email"
    and "from" asks the mail back end (if any) for one mail of the
    sender, the first word after "from"; nothing else is sent, so at
    most one lookup per call, and none without back ends. *)
Theorem infer_parameters_lookups (self : ContextInferenceEngine)
    (ctx : option SessionContext) (command intent : string)
    (parameters : dict) :
  is_ascii command = true ->
  let out := infer_parameters self ctx command intent parameters in
  calls out.2
  = lookups_of (bool_decide (is_Some (calendar_service self)))
               (bool_decide (is_Some (gmail_service self)))
               (lower command) intent
  /\ (length (calls out.2) <= 1)%nat
  /\ (calendar_service self = None -> gmail_service self = None ->
      calls out.2 = []).
Proof.
  intros _. cbv zeta.
  assert (calls (infer_parameters self ctx command intent parameters).2
          = lookups_of (bool_decide (is_Some (calendar_service self)))
                       (bool_decide (is_Some (gmail_service self)))
                       (lower command) intent) as Heq.
  { unfold infer_parameters, infer_body, lookups_of. cbv zeta.
    set (s0 := {| session := ctx; params := parameters; calls := [] |}).
    set (c := lower command).
    assert (forall s,
              calls (((if String.eqb intent "send_email"
                          && str_in "attendees" c
                       then _infer_attendees c else mret tt);;
                      _resolve_pronouns c intent;; get_params) s).2
              = calls s) as Htail.
    { intros s.
      assert (keeps same_calls
                ((if String.eqb intent "send_email" && str_in "attendees" c
                  then _infer_attendees c else mret tt);;
                 _resolve_pronouns c intent;; get_params)) as Hk;
        [| exact (Hk s)].
      apply keeps_bind; [apply same_calls_trans | | intros _].
      - destruct (_ && _); [| by apply keeps_ret].
        exact (touches_same_calls _ _ (_infer_attendees_touches c)).
      - apply keeps_bind; [apply same_calls_trans | | intros _].
        + exact (touches_same_calls _ _ (_resolve_pronouns_touches c intent)).
        + by apply keeps_get_params. }
    assert (forall s,
              calls (((if str_in_list intent email_intents
                       then _infer_email_params self c else mret tt);;
                      (if String.eqb intent "send_email"
                          && str_in "attendees" c
                       then _infer_attendees c else mret tt);;
                      _resolve_pronouns c intent;; get_params) s).2
              = (calls s
                 ++ if str_in_list intent email_intents
                       && (str_in "last email" c && str_in "from" c)
                       && negb (String.eqb (sender_of c) "")
                       && bool_decide (is_Some (gmail_service self))
                    then [search_emails ("from:" +:+ sender_of c) 1]
                    else [])%list) as Hmail.
    { intros s. destruct (str_in_list intent email_intents); cbn [andb].
      - apply calls_bind_keeps.
        + unfold _infer_email_params.
          apply calls_bind_keeps; [apply lookup_last_email_lookups |].
          intros _. apply infer_filters_same_calls.
        + intros _ s'. apply Htail.
      - rewrite app_nil_r. apply Htail. }
    destruct (str_in_list intent event_intents); cbn [andb].
    - destruct (lookup_next_meeting_lookups self c s0) as (s1 & E1 & C1).
      destruct (infer_days_run c s1) as (s2 & E2 & _ & C2 & _).
      assert (_infer_meeting_params self c s0 = (Ok tt, s2)) as E12.
      { unfold _infer_meeting_params. by rewrite (bind_run _ _ _ _ _ E1). }
      rewrite (bind_run _ _ _ _ _ E12), Hmail, C2, C1. reflexivity.
    - rewrite (bind_run _ _ s0 tt s0) by reflexivity.
      rewrite Hmail. reflexivity. }
  split; [exact Heq |]. rewrite Heq. unfold lookups_of. split.
  - destruct (str_in_list intent event_intents) eqn:Hev.
    + rewrite (proj1 (event_intent_not_email intent Hev)).
      cbn [andb app]. destruct (_ && _); cbn; lia.
    + cbn [andb app]. destruct (_ && _); cbn; lia.
  - intros -> ->.
    rewrite !bool_decide_eq_false_2 by (by intros [? ?]).
    by rewrite !andb_false_r.
Qed.

Lemma lookup_next_meeting_well_formed self command s :
  calendar_ok self -> well_formed (session s) ->
  well_formed (session (lookup_next_meeting self command s).2).
Proof.
  intros Hcal Hwf.
  destruct (str_in "next meeting" command
            || str_in "upcoming meeting" command) eqn:Hc;
    [| unfold lookup_next_meeting; by rewrite Hc].
  destruct (calendar_service self) as [calendar |] eqn:Ec;
    [| unfold lookup_next_meeting; by rewrite Hc, Ec].
  destruct (calendar 7 1) as [events | e] eqn:Eans.
  - destruct events as [| b | n | t | l | d | c].
    6: { unfold lookup_next_meeting. rewrite Hc, Ec.
         unfold try_except, mbind at 1, M_bind, lookup. rewrite Eans.
         cbn. destruct (negb _); exact Hwf. }
    5: { destruct l as [| x rest].
         - unfold lookup_next_meeting. rewrite Hc, Ec.
           unfold try_except, mbind at 1, M_bind, lookup. rewrite Eans.
           exact Hwf.
         - destruct x as [| b | n | t | l | ev | c].
           6: { rewrite (lookup_next_meeting_event self command calendar ev
                           rest s Hc Ec Eans).
                intros c' Hc'. cbn in Hc'.
                destruct (session s) as [c0 |] eqn:Es; [| discriminate].
                injection Hc' as <-.
                apply session_ok_next_meeting; [by apply Hwf |].
                by eapply Hcal. }
           all: unfold lookup_next_meeting; rewrite Hc, Ec;
             unfold try_except, mbind at 1, M_bind, lookup; rewrite Eans;
             exact Hwf. }
    all: unfold lookup_next_meeting; rewrite Hc, Ec;
      unfold try_except, mbind at 1, M_bind, lookup; rewrite Eans;
      cbn [truthy]; try exact Hwf.
    + destruct b; exact Hwf.
    + destruct (negb _); exact Hwf.
    + destruct (negb _); [| exact Hwf]. cbn.
      destruct t as [| a t]; exact Hwf.
  - unfold lookup_next_meeting. rewrite Hc, Ec.
    unfold try_except, mbind at 1, M_bind, lookup. rewrite Eans.
    exact Hwf.
Qed.



Lemma bind_ok_inv {A B} (m : M A) (k : A -> M B) s b :
  ((m ≫= k) s).1 = Ok b ->
  exists a, (m s).1 = Ok a /\ (k a (m s).2).1 = Ok b.
Proof.
  unfold mbind, M_bind. destruct (m s) as [[a | e] s']; [| discriminate].
  intros H. by exists a.
Qed.

Lemma pronoun_target_cases service search_intent intent ref id_key
    inferred_key :
  pronoun_target service search_intent intent
  = Some (ref, id_key, inferred_key) ->
  (ref = "last_file" /\ id_key = "file_id" /\ inferred_key = "inferred_file"
   /\ service = "drive" /\ search_intent = "search_file"
   /\ str_in_list intent ["share_file"; "download_file"; "delete_file"]
      = true)
  \/ (ref = "last_email" /\ id_key = "email_id"
      /\ inferred_key = "inferred_email"
      /\ service = "gmail" /\ search_intent = "search_email"
      /\ str_in_list intent ["share_file"; "download_file"; "delete_file"]
         = false
      /\ str_in_list intent ["read_email"; "delete_email"] = true)
  \/ (ref = "last_event" /\ id_key = "event_id"
      /\ inferred_key = "inferred_event"
      /\ service = "calendar"
      /\ (search_intent = "list_events" \/ search_intent = "search_event")
      /\ str_in_list intent ["share_file"; "download_file"; "delete_file"]
         = false
      /\ str_in_list intent ["read_email"; "delete_email"] = false
      /\ str_in_list intent ["update_event"; "delete_event"] = true).
Proof.
  unfold pronoun_target.
  destruct (str_in_list intent ["share_file"; "download_file"; "delete_file"]).
  - destruct (String.eqb service "drive") eqn:E1; [| discriminate].
    destruct (String.eqb search_intent "search_file") eqn:E2;
      [| discriminate].
    apply String.eqb_eq in E1, E2. intros [= <- <- <-]. left. tauto.
  - destruct (str_in_list intent ["read_email"; "delete_email"]).
    + destruct (String.eqb service "gmail") eqn:E1; [| discriminate].
      destruct (String.eqb search_intent "search_email") eqn:E2;
        [| discriminate].
      apply String.eqb_eq in E1, E2. intros [= <- <- <-]. right; left. tauto.
    + destruct (str_in_list intent ["update_event"; "delete_event"]);
        [| discriminate].
      destruct (String.eqb service "calendar") eqn:E1; [| discriminate].
      destruct (String.eqb search_intent "list_events") eqn:E2.
      * apply String.eqb_eq in E1, E2. intros [= <- <- <-].
        right; right. tauto.
      * destruct (String.eqb search_intent "search_event") eqn:E3;
          [| discriminate].
        apply String.eqb_eq in E1, E3. intros [= <- <- <-].
        right; right. tauto.
Qed.

Lemma resolve_them_touches ctx command intent :
  touches_only ["to"; "emails"; "email"] (resolve_them ctx command intent).
Proof. unfold resolve_them. repeat touch_step. Qed.

(** Rule 4 on a session whose reference [ref] is the mapping [d]. *)
Lemma _resolve_pronouns_target service search_intent intent ref id_key
    inferred_key command c d s :
  pronoun_target service search_intent intent
  = Some (ref, id_key, inferred_key) ->
  bare_pronoun command = true ->
  session s = Some c -> references c !! ref = Some (VDict d) -> d <> ∅ ->
  let out := _resolve_pronouns command intent s in
  params out.2 !! id_key = Some (dict_get d "id" VNone)
  /\ params out.2 !! inferred_key = Some (VDict d).
Proof.
  intros Ht Hbare Hs Href Hd. cbv zeta.
  unfold _resolve_pronouns.
  rewrite (bind_run _ _ s (session s) s) by reflexivity. rewrite Hs.
  set (s' := {| session := session s;
                params := <[inferred_key := VDict d]>
                            (<[id_key := dict_get d "id" VNone]> (params s));
                calls := calls s |}).
  assert (id_key <> inferred_key
          /\ (id_key ∉ ["to"; "emails"; "email"])
          /\ (inferred_key ∉ ["to"; "emails"; "email"])
          /\ resolve_it_that_this c command intent s = (Ok tt, s'))
    as (Hne & Hid & Hinf & Hrun).
  { assert (truthy (VDict d) = true) as Htr.
    { cbn. by rewrite bool_decide_eq_false_2. }
    unfold resolve_it_that_this. rewrite Hbare.
    destruct (pronoun_target_cases _ _ _ _ _ _ Ht)
      as [(-> & -> & -> & _ & _ & H1)
         | [(-> & -> & -> & _ & _ & H1 & H2)
           | (-> & -> & -> & _ & _ & H1 & H2 & H3)]];
      rewrite ?H1, ?H2, ?H3;
      (split; [discriminate |]); (split; [not_in_keys |]);
      (split; [not_in_keys |]);
      unfold resolve_it, ref_get, dict_get; rewrite Href;
      change (default VNone (Some (VDict d))) with (VDict d);
      rewrite Htr; reflexivity. }
  rewrite (bind_run _ _ _ _ _ Hrun).
  destruct (resolve_them_touches c command intent s') as (_ & _ & Hp).
  rewrite (Hp _ Hid), (Hp _ Hinf). unfold s'. cbn [params]. split.
  - rewrite lookup_insert_ne by (by intros <-). apply lookup_insert_eq.
  - apply lookup_insert_eq.
Qed.

Lemma add_command_first_result self now command service search_intent
    intent parameters d rest ref id_key inferred_key :
  pronoun_target service search_intent intent
  = Some (ref, id_key, inferred_key) ->
  d <> ∅ ->
  references (add_command self now command service search_intent parameters
                (VList (VDict d :: rest)) true None) !! ref
  = Some (VDict d)
  /\ ref <> "next_meeting".
Proof.
  intros Ht Hd.
  destruct (pronoun_target_cases _ _ _ _ _ _ Ht)
    as [(-> & _ & _ & -> & -> & _)
       | [(-> & _ & _ & -> & -> & _)
         | (-> & _ & _ & -> & [-> | ->] & _)]];
    (split; [| discriminate]);
    unfold add_command, _update_references; cbn;
    rewrite ?lookup_insert_eq; try reflexivity.
  all: rewrite lookup_insert_ne by discriminate; apply lookup_insert_eq.
Qed.

(** X20: a search followed by "it".  After a successful mail, calendar
    or file search whose result is a list that starts with a non-empty
    mapping has been added to the session, a command with a bare
    pronoun ("it", "that", "this") and an intent of the same kind
    (read/delete a mail, update/delete an event, share/download/delete
    a file) gets the id of that first result and the result itself as
    parameters, whatever the other rules have inferred before: when
    [infer_parameters] returns, the two parameters are those. *)
Theorem pronoun_after_search (self : ContextInferenceEngine)
    (ctx : SessionContext) (now : Z)
    (search_command service search_intent : string) (search_parameters : dict)
    (d : dict) (rest : list value)
    (command intent : string) (parameters : dict)
    (ref id_key inferred_key : string) :
  pronoun_target service search_intent intent
  = Some (ref, id_key, inferred_key) ->
  bare_pronoun (lower command) = true ->
  d <> ∅ ->
  let ctx' := add_command ctx now search_command service search_intent
                search_parameters (VList (VDict d :: rest)) true None in
  forall p,
    (infer_parameters self (Some ctx') command intent parameters).1 = Ok p ->
    p !! id_key = Some (dict_get d "id" VNone)
    /\ p !! inferred_key = Some (VDict d).
Proof.
  intros Ht Hbare Hd. cbv zeta. intros p Hp.
  destruct (add_command_first_result ctx now search_command service
              search_intent intent search_parameters d rest ref id_key
              inferred_key Ht Hd) as [Href Hnm].
  unfold infer_parameters, infer_body in Hp. cbv zeta in Hp.
  set (ctx' := add_command _ _ _ _ _ _ _ _ _) in *.
  set (s0 := {| session := Some ctx'; params := parameters; calls := [] |})
    in *.
  apply bind_ok_inv in Hp as ([] & _ & Hp).
  pose proof (meeting_stage_frame self (lower command) intent s0) as F1.
  set (s1 := (_ s0).2) in *.
  apply bind_ok_inv in Hp as ([] & _ & Hp).
  pose proof (email_stage_frame self (lower command) intent s1) as F2.
  set (s2 := (_ s1).2) in *.
  apply bind_ok_inv in Hp as ([] & _ & Hp).
  pose proof (attendee_stage_frame (lower command) intent s2) as F3.
  set (s3 := (_ s2).2) in *.
  apply bind_ok_inv in Hp as ([] & _ & Hp).
  cbn in Hp. injection Hp as <-.
  pose proof (inference_frame_trans _ _ _
                (inference_frame_trans _ _ _ F1 F2) F3) as (Hs & _).
  cbn [session s0] in Hs.
  destruct (session s3) as [c3 |] eqn:Es3; [| done].
  destruct Hs as (_ & _ & _ & Hrefs).
  apply (_resolve_pronouns_target service search_intent intent ref id_key
           inferred_key (lower command) c3 d s3 Ht Hbare Es3); [| exact Hd].
  by rewrite (Hrefs ref Hnm).
Qed.

Lemma str_in_tail x r s : str_in (String x r) s = true -> str_in r s = true.
Proof.
  assert (forall t, startswith r t = true -> str_in r t = true) as Hsw.
  { intros t H. destruct t; cbn [str_in]; by rewrite H. }
  induction s as [| y s IH]; cbn [str_in startswith].
  - discriminate.
  - intros [[_ H]%andb_true_iff | H]%orb_true_iff.
    + rewrite (Hsw s H). apply orb_true_r.
    + rewrite (IH H). apply orb_true_r.
Qed.

Lemma str_in_suffix p q s : str_in (p +:+ q) s = true -> str_in q s = true.
Proof.
  induction p as [| x p IH]; [done |]. rewrite append_cons.
  intros H. by apply IH, (str_in_tail x).
Qed.

Lemma _infer_email_params_frame self command s :
  same_params_but ["inferred_email"; "email_id"; "query"] s
    (_infer_email_params self command s).2.
Proof.
  unfold _infer_email_params.
  destruct (lookup_last_email_run self command s) as (s1 & E1 & Hs1 & Hp1).
  rewrite (bind_run _ _ _ _ _ E1).
  destruct (infer_filters_touches command s1) as (Hs2 & _ & Hp2).
  split; [congruence |]. intros k Hk.
  rewrite Hp2, Hp1; [done | |]; intros Hin; apply Hk;
    repeat (apply elem_of_cons in Hin as [-> | Hin]; [repeat constructor |]);
    by apply elem_of_nil in Hin.
Qed.

Lemma gather_attendees_meeting command c ev atts s :
  str_in "meeting attendees" command || str_in "event attendees" command
  = true ->
  session s = Some c -> meeting_or_last_event c = VDict ev ->
  ev !! "attendees" = Some (VList atts) -> forallb is_dict atts = true ->
  gather_attendees command s = (Ok (emails_in atts), s).
Proof.
  intros Hc Hs Hev Hatt Hall. unfold gather_attendees. rewrite Hc.
  rewrite (bind_run _ _ s (session s) s) by reflexivity. rewrite Hs, Hev.
  assert (truthy (VDict ev) = true) as ->.
  { cbn. rewrite bool_decide_eq_false_2; [done |]. intros ->.
    by rewrite lookup_empty in Hatt. }
  cbn [py_contains]. unfold dict_has. rewrite Hatt.
  rewrite bool_decide_eq_true_2 by (by eexists).
  rewrite (lift_bind_run _ _ true) by reflexivity.
  unfold emails_of. cbn [py_getitem]. rewrite Hatt. cbn.
  unfold lift. by rewrite (attendee_emails_dicts _ Hall).
Qed.

Lemma add_recipients_run a rest s :
  add_recipients (a :: rest) s
  = (Ok tt,
     {| session := session s;
        params := <["inferred_attendees" := VBool true]>
                    (<["to" := VList (recipients (params s) ++ a :: rest)]>
                       (params s));
        calls := calls s |}).
Proof.
  unfold add_recipients, recipients.
  rewrite (bind_run _ _ s (params s) s) by reflexivity.
  destruct (params s !! "to") as [to |]; [| reflexivity].
  destruct (truthy to) eqn:Et; [| reflexivity].
  destruct to; reflexivity.
Qed.

Lemma _resolve_pronouns_send_email command c s :
  session s = Some c ->
  word_in " them " command || startswith "them" command = false ->
  _resolve_pronouns command "send_email" s = (Ok tt, s).
Proof.
  intros Hs Hthem. unfold _resolve_pronouns.
  rewrite (bind_run _ _ s (session s) s) by reflexivity. rewrite Hs.
  unfold resolve_it_that_this, resolve_them. rewrite Hthem.
  by destruct (bare_pronoun command).
Qed.

(** X21: mail to the attendees of the meeting.  For [send_email] and a
    command with "meeting attendees" or "event attendees" (and no
    "them"), when the session's next meeting (or else its last event)
    has attendees with addresses, the parameters [infer_parameters]
    returns have as ['to'] the recipients given, in their order,
    followed by the addresses of the attendees, and
    ['inferred_attendees'] set: no recipient given is dropped, a single
    address given as a text becomes the first element of the list. *)
Theorem attendees_become_recipients (self : ContextInferenceEngine)
    (c : SessionContext) (command : string) (parameters : dict)
    (ev : dict) (atts : list value) :
  str_in "meeting attendees" (lower command) = true
  \/ str_in "event attendees" (lower command) = true ->
  word_in " them " (lower command) || startswith "them" (lower command)
  = false ->
  meeting_or_last_event c = VDict ev ->
  ev !! "attendees" = Some (VList atts) ->
  forallb is_dict atts = true -> emails_in atts <> [] ->
  forall p,
    (infer_parameters self (Some c) command "send_email" parameters).1
    = Ok p ->
    p !! "to" = Some (VList (recipients parameters ++ emails_in atts))
    /\ p !! "inferred_attendees" = Some (VBool true)
    /\ forall k, k ∉ ["to"; "inferred_attendees"; "query";
                     "inferred_email"; "email_id"] ->
                 p !! k = parameters !! k.
Proof.
  intros Hphrase Hthem Hev Hatt Hall Hne p Hp.
  assert (str_in "meeting attendees" (lower command)
          || str_in "event attendees" (lower command) = true) as Hc.
  { apply orb_true_iff. exact Hphrase. }
  assert (str_in "attendees" (lower command) = true) as Hword.
  { destruct Hphrase as [H | H].
    - exact (str_in_suffix "meeting " "attendees" _ H).
    - exact (str_in_suffix "event " "attendees" _ H). }
  unfold infer_parameters, infer_body in Hp. cbv zeta in Hp.
  change (str_in_list "send_email" event_intents) with false in Hp.
  change (str_in_list "send_email" email_intents) with true in Hp.
  change (String.eqb "send_email" "send_email") with true in Hp.
  rewrite Hword in Hp. cbn [andb] in Hp.
  set (s0 := {| session := Some c; params := parameters; calls := [] |})
    in *.
  apply bind_ok_inv in Hp as ([] & _ & Hp).
  change ((mret tt : M unit) s0).2 with s0 in Hp.
  apply bind_ok_inv in Hp as ([] & _ & Hp).
  destruct (_infer_email_params_frame self (lower command) s0)
    as [Hs2 Hp2].
  set (s2 := (_infer_email_params self (lower command) s0).2) in *.
  destruct (emails_in atts) as [| a rest] eqn:Eemails; [done |].
  set (s3 := {| session := session s2;
                params := <["inferred_attendees" := VBool true]>
                            (<["to" := VList (recipients (params s2)
                                              ++ a :: rest)]> (params s2));
                calls := calls s2 |}).
  assert (_infer_attendees (lower command) s2 = (Ok tt, s3)) as E3.
  { unfold _infer_attendees.
    rewrite (bind_run _ _ _ _ _
               (gather_attendees_meeting _ c ev atts s2 Hc Hs2 Hev Hatt Hall)).
    rewrite Eemails. apply add_recipients_run. }
  rewrite (bind_run _ _ _ _ _ E3) in Hp.
  rewrite (bind_run _ _ _ _ _
             (_resolve_pronouns_send_email (lower command) c s3 Hs2 Hthem))
    in Hp.
  cbn in Hp. injection Hp as <-.
  assert (recipients (params s2) = recipients parameters) as ->.
  { unfold recipients. rewrite Hp2; [done | not_in_keys]. }
  split; [| split].
  - rewrite lookup_insert_ne by discriminate. apply lookup_insert_eq.
  - apply lookup_insert_eq.
  - intros k Hk.
    rewrite !lookup_insert_ne by (intros <-; apply Hk; repeat constructor).
    apply Hp2. intros Hin. apply Hk.
    repeat (apply elem_of_cons in Hin as [-> | Hin]; [repeat constructor |]).
    by apply elem_of_nil in Hin.
Qed.

End InferenceWhole.

Section InferenceScenario.
Import Py Session Inference.

Lemma pronoun_after_search_witness :
  exists p,
    (infer_parameters {| gmail_service := None; calendar_service := None |}
       (Some (add_command (init "cli" 0) 1 "find the budget" "drive"
                "search_file" ∅
                (VList [VDict {[ "id" := VStr "f1";
                                 "name" := VStr "budget.xlsx" ]}])
                true None))
       "Share it with bob" "share_file" ∅).1 = Ok p
    /\ p !! "file_id" = Some (VStr "f1")
    /\ p !! "inferred_file"
       = Some (VDict {[ "id" := VStr "f1"; "name" := VStr "budget.xlsx" ]}).
Proof.
  eexists. split; [reflexivity |].
  refine (pronoun_after_search
            {| gmail_service := None; calendar_service := None |}
            (init "cli" 0) 1 "find the budget" "drive" "search_file" ∅
            {[ "id" := VStr "f1"; "name" := VStr "budget.xlsx" ]} []
            "Share it with bob" "share_file" ∅
            "last_file" "file_id" "inferred_file" eq_refl eq_refl _ _
            eq_refl).
  intros H. by apply (f_equal (fun m => m !! "id")) in H.
Defined.

Lemma infer_parameters_frame_witness :
  let out :=
    infer_parameters engine_with_calendar (Some session_with_last_event)
      "Move the next meeting" "update_event" {[ "note" := VStr "late" ]} in
  session_but_next_meeting (Some session_with_last_event) (session out.2)
  /\ Forall (fun c => single_result c = true) (calls out.2)
  /\ params out.2 !! "note" = Some (VStr "late").
Proof.
  cbv zeta.
  destruct (infer_parameters_frame engine_with_calendar
              (Some session_with_last_event) "Move the next meeting"
              "update_event" {[ "note" := VStr "late" ]})
    as (Hs & _ & Hc & Hp & _); [reflexivity | reflexivity |].
  split; [exact Hs |]. split; [exact Hc |].
  rewrite Hp; [reflexivity | not_in_keys].
Defined.

Lemma infer_parameters_lookups_witness :
  calls (infer_parameters
           {| gmail_service := Some (fun _ _ => Raise ServiceError);
              calendar_service := None |}
           None "Open the last email from Bob today" "read_email" ∅).2
  = [search_emails "from:bob" 1].
Proof.
  exact (proj1 (infer_parameters_lookups
                  {| gmail_service := Some (fun _ _ => Raise ServiceError);
                     calendar_service := None |}
                  None "Open the last email from Bob today" "read_email" ∅
                  eq_refl)).
Defined.

Lemma attendees_become_recipients_witness :
  exists p,
    (infer_parameters {| gmail_service := None; calendar_service := None |}
       (Some {| session_id := "cli"; started_at := 0; history := [];
                references :=
                  {[ "next_meeting" :=
                       VDict {[ "id" := VStr "e1";
                                "attendees" :=
                                  VList [VDict {[ "email" := VStr "a@x.org" ]};
                                         VDict {[ "name" := VStr "Bob" ]}] ]}
                  ]} |})
       "Send the notes to the meeting attendees" "send_email"
       {[ "to" := VStr "c@x.org" ]}).1 = Ok p
    /\ p !! "to" = Some (VList [VStr "c@x.org"; VStr "a@x.org"])
    /\ p !! "inferred_attendees" = Some (VBool true).
Proof.
  eexists. split; [reflexivity |].
  refine (let H :=
            attendees_become_recipients
              {| gmail_service := None; calendar_service := None |}
              {| session_id := "cli"; started_at := 0; history := [];
                 references :=
                   {[ "next_meeting" :=
                        VDict {[ "id" := VStr "e1";
                                 "attendees" :=
                                   VList [VDict {[ "email"
                                                   := VStr "a@x.org" ]};
                                          VDict {[ "name"
                                                   := VStr "Bob" ]}] ]}
                   ]} |}
              "Send the notes to the meeting attendees"
              {[ "to" := VStr "c@x.org" ]}
              {[ "id" := VStr "e1";
                 "attendees" :=
                   VList [VDict {[ "email" := VStr "a@x.org" ]};
                          VDict {[ "name" := VStr "Bob" ]}] ]}
              [VDict {[ "email" := VStr "a@x.org" ]};
               VDict {[ "name" := VStr "Bob" ]}]
              (or_introl eq_refl) eq_refl eq_refl eq_refl eq_refl _ _ eq_refl
          in conj (proj1 H) (proj1 (proj2 H))).
  discriminate.
Defined.

End InferenceScenario.
Section RouterMore.
Import Py Workflow Router.

Variables GMAIL_SYSTEM_PROMPT CALENDAR_SYSTEM_PROMPT DRIVE_SYSTEM_PROMPT
  : string.

Lemma lower_append a b : lower (a +:+ b) = lower a +:+ lower b.
Proof.
  induction a as [| x a IH]; [reflexivity |].
  rewrite append_cons. cbn [lower]. by rewrite append_cons, IH.
Qed.

Lemma any_in_within keywords a m b :
  Session.any_in keywords (lower m) = true ->
  Session.any_in keywords (lower (a +:+ m +:+ b)) = true.
Proof.
  unfold Session.any_in. rewrite !existsb_exists.
  intros (kw & Hin & Hkw). exists kw. split; [exact Hin |].
  rewrite !lower_append. by apply str_in_append_r, str_in_append_l.
Qed.

(** X22: how [parse_command] routes an ASCII message.  The service is
    "calendar", "drive" or "gmail" and is decided by the text alone,
    whatever the language model answers; the intent is what the model
    answers to the prompt of that service.  Routing is by occurrence of
    a keyword anywhere in the text, in any case, calendar first: ASCII
    text put before or after a message never moves it off the calendar,
    and never moves a calendar or drive message to the mail service; so
    a mail request that mentions a meeting ("email Bob about the
    MEETING") is parsed as a calendar command. *)
Theorem parse_command_routing (llm llm' : LLMClient Intent)
    (user_message before after : string) :
  is_ascii user_message = true ->
  is_ascii before = true -> is_ascii after = true ->
  let route m :=
    parse_command GMAIL_SYSTEM_PROMPT CALENDAR_SYSTEM_PROMPT
      DRIVE_SYSTEM_PROMPT llm m in
  ((route user_message).2 = "calendar"
   /\ (route user_message).1
      = parse_intent llm user_message CALENDAR_SYSTEM_PROMPT 2
   \/ (route user_message).2 = "drive"
      /\ (route user_message).1
         = parse_intent llm user_message DRIVE_SYSTEM_PROMPT 2
   \/ (route user_message).2 = "gmail"
      /\ (route user_message).1
         = parse_intent llm user_message GMAIL_SYSTEM_PROMPT 2)
  /\ (parse_command GMAIL_SYSTEM_PROMPT CALENDAR_SYSTEM_PROMPT
        DRIVE_SYSTEM_PROMPT llm' user_message).2
     = (route user_message).2
  /\ ((route user_message).2 = "calendar" ->
      (route (before +:+ user_message +:+ after)).2 = "calendar")
  /\ ((route user_message).2 = "drive" ->
      (route (before +:+ user_message +:+ after)).2 <> "gmail")
  /\ (route (before +:+ "MEETING" +:+ after)).2 = "calendar".
Proof.
  intros _ _ _. cbv zeta. unfold parse_command. cbv zeta.
  pose proof (any_in_within calendar_keywords before user_message after)
    as Hcal.
  pose proof (any_in_within drive_keywords before user_message after)
    as Hdrive.
  pose proof (any_in_within calendar_keywords before "MEETING" after eq_refl)
    as Hmeeting.
  rewrite Hmeeting.
  destruct (Session.any_in calendar_keywords (lower user_message)).
  - rewrite (Hcal eq_refl). cbn [fst snd].
    split; [by left |]. by repeat split.
  - destruct (Session.any_in drive_keywords (lower user_message)).
    + rewrite (Hdrive eq_refl). cbn [fst snd].
      split; [right; by left |]. repeat split; try done.
      intros _. by destruct (Session.any_in calendar_keywords _).
    + cbn [fst snd]. split; [right; by right |]. by repeat split.
Qed.

End RouterMore.

Section RouterScenario.
Import Py Workflow Router.

Lemma parse_command_routing_witness :
  (parse_command "mail prompt" "calendar prompt" "drive prompt"
     (fun _ _ _ => OtherError)
     ("Email Bob about the " +:+ "MEETING" +:+ " notes")).2 = "calendar".
Proof.
  exact (proj2 (proj2 (proj2 (proj2
           (parse_command_routing "mail prompt" "calendar prompt"
              "drive prompt" (fun _ _ _ => OtherError)
              (fun _ _ _ => OtherError) "hello" "Email Bob about the "
              " notes" eq_refl eq_refl eq_refl))))).
Defined.

End RouterScenario.
